(** * A fully-connected autoencoder and its training driver

    Shallow embedding of [autoencoder.py]: the [AE] module (constructor,
    [encode], [decode], [forward]), the driver [train_autoencoder] and the
    script run under [__main__].

    Python integers are [Z]; where the library turns one into a machine
    integer the range check is written out, and so is the check that the
    storage of a tensor of the size the program asks for can be addressed.
    A tensor is its size, its strides, its elements in row-major order,
    its element type and the device that holds it.  Code that can raise
    returns a [result]; code that mutates the autoencoder object or writes
    to standard output runs in a state monad whose state survives an
    exception, as a Python process does.

    The numerical library is outside the program.  Element arithmetic, the
    layout given to the result of an elementwise operation, the
    pseudo-random generators, the gradient/optimiser update, the number
    formatting and the text of the progress bar are the fields of the
    classes [Scalar] and [Library]; the only facts assumed about them are
    the two laws of [Scalar] (an elementwise result has one stride for each
    dimension, and is contiguous when its argument is) and the three laws
    of [Library] (a shuffle is a
    permutation, an optimiser step keeps the layers' sizes and devices, a
    random choice below [n] is below [n]).  The machine is outside the
    program too: it is taken to have the memory for every tensor whose size
    the library accepts, and the accelerator when a device names it.  The
    helper module [nmastandard] is not part of the sources read here and is
    the class [Nmas].  The last part instantiates all three with integers
    and runs the program. *)

From Stdlib Require Import ZArith Bool String List Lia Permutation DecimalString.
Import ListNotations.
Local Open Scope Z_scope.

Set Implicit Arguments.

(** ** Exceptions and results *)

Inductive exn : Type :=
| IndexError
| RuntimeError
| ValueError
| NameError
| TypeError
| AttributeError.

Inductive result (A : Type) : Type :=
| Ok (a : A)
| Raise (e : exn).

Arguments Ok {A} a.
Arguments Raise {A} e.

Definition rbind {A B : Type} (r : result A) (k : A -> result B) : result B :=
  match r with
  | Ok a => k a
  | Raise e => Raise e
  end.

(** State monad with exceptions; the state reached when the exception is
    raised is kept. *)
Definition M (S A : Type) : Type := S -> S * result A.

Definition ret {S A : Type} (a : A) : M S A := fun s => (s, Ok a).

Definition bind {S A B : Type} (m : M S A) (k : A -> M S B) : M S B :=
  fun s =>
    match m s with
    | (s', Ok a) => k a s'
    | (s', Raise e) => (s', Raise e)
    end.

Definition raise {S A : Type} (e : exn) : M S A := fun s => (s, Raise e).

Definition lift {S A : Type} (r : result A) : M S A := fun s => (s, r).

Definition gets {S A : Type} (f : S -> A) : M S A := fun s => (s, Ok (f s)).

Definition modify {S : Type} (f : S -> S) : M S unit := fun s => (f s, Ok tt).

Declare Scope py_scope.
Delimit Scope py_scope with py.

Notation "x <- m ;; k" := (bind m (fun x => k))
  (at level 100, m at next level, right associativity) : py_scope.
Notation "m ;;; k" := (bind m (fun _ => k))
  (at level 100, right associativity) : py_scope.
Notation "'try' x <- r ;; k" := (rbind r (fun x => k))
  (at level 100, x name, r at next level, right associativity) : py_scope.

Local Open Scope py_scope.

(** [for x in xs: acc = body acc x], a left-to-right loop that stops at the
    first exception. *)
Fixpoint for_each {S X L : Type} (body : L -> X -> M S L) (xs : list X) (acc : L)
  : M S L :=
  match xs with
  | [] => ret acc
  | x :: rest => acc' <- body acc x ;; for_each body rest acc'
  end.

(** Python's [range(n)]. *)
Definition range (n : Z) : list Z := map Z.of_nat (seq 0 (Z.to_nat n)).

(** Python's [l[i]] on a list: negative indices count from the end. *)
Definition list_getitem {A : Type} (l : list A) (i : Z) : result A :=
  let n := Z.of_nat (length l) in
  let j := if i <? 0 then i + n else i in
  if (j <? 0) || (n <=? j) then Raise IndexError
  else match nth_error l (Z.to_nat j) with
       | Some a => Ok a
       | None => Raise IndexError
       end.

(** ** Devices *)

Inductive device : Type := cpu | cuda.

Definition device_eqb (a b : device) : bool :=
  match a, b with
  | cpu, cpu | cuda, cuda => true
  | _, _ => false
  end.

(** ** Element types *)

Inductive dtype : Type := float32 | float64 | int64.

Definition dtype_eqb (a b : dtype) : bool :=
  match a, b with
  | float32, float32 | float64, float64 | int64, int64 => true
  | _, _ => false
  end.

(** ** Machine integers *)

(** Whether a Python integer fits the signed 64-bit integer the library
    unpacks a size, or an argument of [view], into. *)
Definition int64_range (z : Z) : bool := (- 2 ^ 63 <=? z) && (z <? 2 ^ 63).

(** ** Sizes and strides *)

Definition prod_sizes (s : list Z) : Z := fold_right Z.mul 1 s.

(** The strides of a contiguous tensor of size [s]: the last dimension
    moves by one element, each other dimension by the extent of the
    dimensions after it (an empty dimension counting as one). *)
Fixpoint row_major (s : list Z) : list Z :=
  match s with
  | [] => []
  | _ :: rest => fold_right (fun d acc => Z.max d 1 * acc) 1 rest :: row_major rest
  end.

(** The library's [computeStride], which decides whether a tensor of size
    [oldshape] and strides [oldstride] can be seen as one of size
    [newshape] without copying, and with which strides.  The dimensions
    of the tensor are walked from the last to the first and cut into
    chunks of dimensions that lie contiguously in memory; each chunk has
    to be covered exactly by dimensions of the new size.

    [fill_chunk] is the inner loop: it takes dimensions of the new size
    (given last first), giving them strides, until the chunk of
    [tensor_numel] elements is covered. *)
Fixpoint fill_chunk (view_rev : list Z) (base tensor_numel view_numel : Z)
         (acc : list Z) : list Z * Z * list Z :=
  match view_rev with
  | d :: rest =>
      if (view_numel <? tensor_numel) || (d =? 1)
      then fill_chunk rest base tensor_numel (view_numel * d)
                      (view_numel * base :: acc)
      else (view_rev, view_numel, acc)
  | [] => ([], view_numel, acc)
  end.

(** The outer loop, over the dimensions of the tensor with their strides
    (given last first). *)
Fixpoint chunks (old_rev : list (Z * Z)) (view_rev : list Z)
         (base tensor_numel : Z) (acc : list Z) : option (list Z) :=
  match old_rev with
  | [] => None
  | (size, _) :: before =>
      let tensor_numel := tensor_numel * size in
      match before with
      | [] =>
          let '(view_rev', view_numel, acc') :=
            fill_chunk view_rev base tensor_numel 1 acc in
          if view_numel =? tensor_numel
          then match view_rev' with [] => Some acc' | _ :: _ => None end
          else None
      | (size', stride') :: _ =>
          if negb (size' =? 1) && negb (stride' =? tensor_numel * base) then
            let '(view_rev', view_numel, acc') :=
              fill_chunk view_rev base tensor_numel 1 acc in
            if view_numel =? tensor_numel
            then chunks before view_rev' stride' 1 acc'
            else None
          else chunks before view_rev base tensor_numel acc
      end
  end.

Definition compute_stride (oldshape oldstride newshape : list Z)
  : option (list Z) :=
  match oldshape with
  | [] => Some (map (fun _ => 1) newshape)
  | _ :: _ =>
      if prod_sizes oldshape =? 0 then
        if list_eq_dec Z.eq_dec oldshape newshape then Some oldstride
        else Some (row_major newshape)
      else chunks (rev (combine oldshape oldstride)) (rev newshape)
                  (last oldstride 0) 1 []
  end.

(** ** Scalars of the numerical library *)

Class Scalar : Type := {
  scalar : Type;
  s_zero : scalar;
  s_add : scalar -> scalar -> scalar;
  s_sub : scalar -> scalar -> scalar;
  s_mul : scalar -> scalar -> scalar;
  s_div : scalar -> scalar -> scalar;
  s_max : scalar -> scalar -> scalar;
  s_of_Z : Z -> scalar;
  (** the strides the library gives the result of an elementwise
      operation on, or of a copy of, a tensor of the given size and
      strides *)
  keep_layout : list Z -> list Z -> list Z;
  keep_layout_contiguous : forall s, keep_layout s (row_major s) = row_major s;
  keep_layout_length :
    forall s st, length st = length s -> length (keep_layout s st) = length s
}.

Section Tensors.

Context {SC : Scalar}.

(** ** Tensors *)

Record tensor : Type := mkStrided {
  t_size : list Z;
  t_stride : list Z;
  t_data : list scalar;
  t_dtype : dtype;
  t_device : device
}.

(** A contiguous tensor of 32-bit floats, as the library's factory
    functions and [nn.Linear] make them. *)
Abbreviation mkTensor s d dev := (mkStrided s (row_major s) d float32 dev).

Definition numel (t : tensor) : Z := prod_sizes (t_size t).

(** [t.size(0)]. *)
Definition size0 (t : tensor) : result Z :=
  match t_size t with
  | [] => Raise IndexError
  | n :: _ => Ok n
  end.

(** [len(t)]. *)
Definition tensor_len (t : tensor) : result Z :=
  match t_size t with
  | [] => Raise TypeError
  | n :: _ => Ok n
  end.

(** [t.to(device)]: the tensor itself when it is on that device, a copy
    on that device otherwise. *)
Definition tensor_to (t : tensor) (d : device) : tensor :=
  if device_eqb (t_device t) d then t
  else mkStrided (t_size t) (keep_layout (t_size t) (t_stride t))
                 (t_data t) (t_dtype t) d.

(** The size inference behind [view]: at most one entry may be [-1]; it is
    inferred from the number of elements, and cannot be inferred when the
    other entries multiply to zero. *)
Definition infer_size (shape : list Z) (n : Z) : result (list Z) :=
  if existsb (fun d => d <? -1) shape then Raise RuntimeError
  else
    let holes := filter (fun d => d =? -1) shape in
    let newsize := prod_sizes (filter (fun d => negb (d =? -1)) shape) in
    match holes with
    | [] => if n =? newsize then Ok shape else Raise RuntimeError
    | [_] =>
        if (n =? newsize) || ((0 <? newsize) && (n mod newsize =? 0)) then
          if newsize =? 0 then Raise RuntimeError
          else Ok (map (fun d => if d =? -1 then n / newsize else d) shape)
        else Raise RuntimeError
    | _ => Raise RuntimeError
    end.

(** [t.view(shape)]: the same elements under another size, when the
    strides allow it. *)
Definition view (t : tensor) (shape : list Z) : result tensor :=
  try s <- infer_size shape (numel t) ;;
  match compute_stride (t_size t) (t_stride t) s with
  | Some st => Ok (mkStrided s st (t_data t) (t_dtype t) (t_device t))
  | None => Raise RuntimeError
  end.

(** [t.view(b, -1)] for a Python integer [b], which has to fit a machine
    integer. *)
Definition view_rows (t : tensor) (b : Z) : result tensor :=
  if int64_range b then view t [b; -1] else Raise TypeError.

(** Whether the storage of a tensor of 32-bit floats of size [s], of four
    bytes an element, can be addressed: the number of bytes has to fit a
    signed 64-bit integer. *)
Definition storage_fits (s : list Z) : bool := 4 * prod_sizes s <? 2 ^ 63.

(** What a factory function does with the size of one or two dimensions
    it is given, before it asks for memory: every entry has to fit a
    machine integer, then none may be negative, and then the storage has
    to be addressable. *)
Definition check_size (s : list Z) : result unit :=
  if negb (forallb int64_range s) then Raise TypeError
  else if existsb (fun d => d <? 0) s then Raise RuntimeError
  else if negb (storage_fits s) then Raise RuntimeError
  else Ok tt.

(** [torch.zeros(n, device=d)]. *)
Definition zeros (n : Z) (d : device) : result tensor :=
  try _ <- check_size [n] ;;
  Ok (mkTensor [n] (repeat s_zero (Z.to_nat n)) d).

Fixpoint list_set {A : Type} (l : list A) (i : nat) (a : A) : list A :=
  match l, i with
  | [], _ => []
  | _ :: rest, O => a :: rest
  | x :: rest, S j => x :: list_set rest j a
  end.

(** [t[i] = v] on a one-dimensional tensor. *)
Definition setitem (t : tensor) (i : Z) (v : scalar) : result tensor :=
  match t_size t with
  | [n] =>
      let j := if i <? 0 then i + n else i in
      if (j <? 0) || (n <=? j) then Raise IndexError
      else Ok (mkStrided [n] (t_stride t) (list_set (t_data t) (Z.to_nat j) v)
                         (t_dtype t) (t_device t))
  | _ => Raise IndexError
  end.

(** [t[i]] on a one-dimensional tensor, as a scalar. *)
Definition getitem (t : tensor) (i : Z) : result scalar :=
  match t_size t with
  | [n] =>
      let j := if i <? 0 then i + n else i in
      if (j <? 0) || (n <=? j) then Raise IndexError
      else Ok (nth (Z.to_nat j) (t_data t) s_zero)
  | _ => Raise IndexError
  end.

(** ** Layers *)

Record Linear : Type := mkLinear {
  in_features : Z;
  out_features : Z;
  weight : list (list scalar);
  bias : list scalar;
  l_device : device
}.

Inductive layer : Type :=
| LinearLayer (l : Linear)
| ReLU.

(** The rows of a row-major matrix with [n] rows of [k] columns. *)
Definition rows_of (n k : Z) (d : list scalar) : list (list scalar) :=
  map (fun i => firstn (Z.to_nat k) (skipn (i * Z.to_nat k)%nat d))
      (seq 0 (Z.to_nat n)).

Definition dot (a b : list scalar) : scalar :=
  fold_right s_add s_zero (map (fun p => s_mul (fst p) (snd p)) (combine a b)).

(** One row of [x W^T + b]. *)
Definition affine_row (l : Linear) (x : list scalar) : list scalar :=
  map (fun p => s_add (dot x (fst p)) (snd p)) (combine (weight l) (bias l)).

(** [nn.Linear.forward]: acts on the last dimension of an input that is
    on the device of the parameters and has their element type. *)
Definition linear_forward (l : Linear) (x : tensor) : result tensor :=
  match rev (t_size x) with
  | [] => Raise RuntimeError
  | k :: lead_rev =>
      if negb (device_eqb (t_device x) (l_device l)) then Raise RuntimeError
      else if negb (dtype_eqb (t_dtype x) float32) then Raise RuntimeError
      else if negb (k =? in_features l) then Raise RuntimeError
      else
        let n := prod_sizes lead_rev in
        Ok (mkTensor (rev lead_rev ++ [out_features l])
                     (flat_map (affine_row l) (rows_of n k (t_data x)))
                     (t_device x))
  end.

Definition relu_forward (x : tensor) : tensor :=
  mkStrided (t_size x) (keep_layout (t_size x) (t_stride x))
            (map (s_max s_zero) (t_data x)) (t_dtype x) (t_device x).

Definition layer_forward (x : tensor) (ly : layer) : result tensor :=
  match ly with
  | LinearLayer l => linear_forward l x
  | ReLU => Ok (relu_forward x)
  end.

(** [nn.Sequential.forward]. *)
Fixpoint sequential (layers : list layer) (x : tensor) : result tensor :=
  match layers with
  | [] => Ok x
  | ly :: rest => try y <- layer_forward x ly ;; sequential rest y
  end.

(** ** The autoencoder module *)

Record AE : Type := mkAE {
  in_dim : Z;
  out_dim : Z;
  enc_model : list layer;
  dec_model : list layer
}.

Definition encode (self : AE) (x : tensor) : result tensor :=
  sequential (enc_model self) x.

Definition decode (self : AE) (l : tensor) : result tensor :=
  sequential (dec_model self) l.

Definition forward (self : AE) (x : tensor) : result tensor :=
  try n <- size0 x ;;
  try flat_x <- view x [n; -1] ;;
  try h <- encode self flat_x ;;
  try y <- decode self h ;;
  view y (t_size x).

(** [module.to(device)] moves every parameter, in place. *)
Definition layer_to (d : device) (ly : layer) : layer :=
  match ly with
  | LinearLayer l =>
      LinearLayer (mkLinear (in_features l) (out_features l) (weight l) (bias l) d)
  | ReLU => ReLU
  end.

Definition AE_to (self : AE) (d : device) : AE :=
  mkAE (in_dim self) (out_dim self)
       (map (layer_to d) (enc_model self))
       (map (layer_to d) (dec_model self)).

End Tensors.

Abbreviation mkTensor s d dev := (mkStrided s (row_major s) d float32 dev).

(** ** What the layers look like without their parameter values *)

Inductive layer_sig : Type :=
| SigLinear (i o : Z) (d : device)
| SigReLU.

Definition layer_signature {SC : Scalar} (ly : layer) : layer_sig :=
  match ly with
  | LinearLayer l => SigLinear (in_features l) (out_features l) (l_device l)
  | ReLU => SigReLU
  end.

Definition signature {SC : Scalar} (ae : AE)
  : Z * Z * list layer_sig * list layer_sig :=
  (in_dim ae, out_dim ae,
   map layer_signature (enc_model ae), map layer_signature (dec_model ae)).

(** ** The numerical library *)

Class Library {SC : Scalar} : Type := {
  (** the global generator of the tensor library, read by parameter
      initialisation *)
  torch_rng : Type;
  init_linear : torch_rng -> Z -> Z -> (list (list scalar) * list scalar) * torch_rng;
  (** [torch.Generator], [manual_seed], and the order in which a shuffling
      loader visits [n] examples during one pass *)
  generator : Type;
  manual_seed : Z -> generator;
  randperm : generator -> nat -> list nat * generator;
  randperm_perm : forall g n, Permutation (fst (randperm g n)) (seq 0 n);
  (** [torch.optim.Adam(params, lr=1e-2)], and the effect on optimiser and
      parameters of [loss.backward(); optim.step()] for the loss of one
      batch *)
  optim_state : Type;
  Adam : AE -> optim_state;
  backward_step : optim_state -> AE -> tensor -> optim_state * AE;
  backward_step_signature :
    forall o ae b, signature (snd (backward_step o ae b)) = signature ae;
  (** the global generator of the array library and [np.random.choice] *)
  np_rng : Type;
  np_choice : np_rng -> Z -> Z -> list Z * np_rng;
  np_choice_range :
    forall g n size,
      0 < n -> 0 <= size ->
      Z.of_nat (length (fst (np_choice g n size))) = size /\
      Forall (fun a => 0 <= a < n) (fst (np_choice g n size));
  np_choice1 : np_rng -> Z -> Z * np_rng;
  (** how a zero-dimensional and a one-dimensional tensor are formatted *)
  format_scalar : scalar -> string;
  format_tensor : tensor -> string;
  (** the line the progress bar of [trange(n, desc='Epoch')] writes to
      standard output when it is created *)
  trange_line : Z -> string
}.

(** The helper module [nmastandard], imported as [nmas]: seeding every
    generator, choosing the device; each may print. *)
Class Nmas {SC : Scalar} {LB : Library} : Type := {
  nmas_set_seed : Z -> np_rng * torch_rng * list string;
  nmas_set_device : device * list string
}.

Section Program.

Context {SC : Scalar} {LB : Library}.

(** ** [AE.__init__] *)

(** [nn.Linear(i, o, bias=True)]: the weight is created with size
    [(o, i)] on the host, then the bias with size [(o)], and both are
    filled from the global generator. *)
Definition nn_Linear (i o : Z) : M torch_rng Linear :=
  _ <- lift (check_size [o; i]) ;;
  _ <- lift (check_size [o]) ;;
  fun g =>
    let '(wb, g') := init_linear g i o in
    (g', Ok (mkLinear i o (fst wb) (snd wb) cpu)).

(** A list comprehension whose element expression has effects. *)
Fixpoint map_M {S X Y : Type} (f : X -> M S Y) (xs : list X) : M S (list Y) :=
  match xs with
  | [] => ret []
  | x :: rest => y <- f x ;; ys <- map_M f rest ;; ret (y :: ys)
  end.

(** Python's [len(l)]. *)
Definition py_len {A : Type} (l : list A) : Z := Z.of_nat (length l).

(** The constructor builds encoder and decoder with the same statements,
    from [(in_dim, enc_lst, latent_dim)] and [(latent_dim, dec_lst, in_dim)]. *)
Definition build_layers (first : Z) (lst : list Z) (last : Z) : M torch_rng (list layer) :=
  h0 <- lift (list_getitem lst 0) ;;
  l0 <- nn_Linear first h0 ;;
  let layers_a := [[LinearLayer l0; ReLU]] in
  mid <- map_M (fun idim =>
                  a <- lift (list_getitem lst idim) ;;
                  b <- lift (list_getitem lst (idim + 1)) ;;
                  l <- nn_Linear a b ;;
                  ret [LinearLayer l; ReLU])
               (range (py_len lst - 1)) ;;
  let layers_a := layers_a ++ mid in
  hl <- lift (list_getitem lst (-1)) ;;
  ll <- nn_Linear hl last ;;
  let layers_a := layers_a ++ [[LinearLayer ll]] in
  ret (concat layers_a).

Definition AE_init (in_dim latent_dim : Z) (enc_lst dec_lst : list Z) : M torch_rng AE :=
  enc_layers <- build_layers in_dim enc_lst latent_dim ;;
  dec_layers <- build_layers latent_dim dec_lst in_dim ;;
  ret (mkAE in_dim in_dim enc_layers dec_layers).

(** ** The data loader *)

(** [BatchSampler] with [drop_last=False]. *)
Fixpoint batch_sampler (batch_size : nat) (batch : list nat) (sampler : list nat)
  : list (list nat) :=
  match sampler with
  | [] => match batch with [] => [] | _ => [batch] end
  | idx :: rest =>
      let batch' := batch ++ [idx] in
      if (length batch' =? batch_size)%nat
      then batch' :: batch_sampler batch_size [] rest
      else batch_sampler batch_size batch' rest
  end.

(** [dataset[idx]] for a tensor data set: one example, flattened. *)
Definition example_at (dataset : tensor) (idx : nat) : list scalar :=
  let k := Z.to_nat (prod_sizes (tl (t_size dataset))) in
  firstn k (skipn (idx * k)%nat (t_data dataset)).

(** The default collate function stacks the examples of a batch into a
    new contiguous tensor. *)
Definition collate (dataset : tensor) (batch : list nat) : tensor :=
  let s := py_len batch :: tl (t_size dataset) in
  mkStrided s (row_major s) (flat_map (example_at dataset) batch)
            (t_dtype dataset) (t_device dataset).

Record loader_t : Type := mkLoader {
  ld_dataset : tensor;
  ld_len : Z;
  ld_batch_size : Z
}.

(** [DataLoader(dataset, batch_size=..., shuffle=True, ...)]: the random
    sampler rejects an empty data set, the batch sampler a batch size that
    is not positive. *)
Definition DataLoader (dataset : tensor) (batch_size : Z) : result loader_t :=
  try n <- tensor_len dataset ;;
  if n <=? 0 then Raise ValueError
  else if batch_size <=? 0 then Raise ValueError
  else Ok (mkLoader dataset n batch_size).

(** One pass [for im_batch in loader]: the batches, and the generator
    afterwards. *)
Definition loader_iter (ld : loader_t) (g : generator) : list tensor * generator :=
  let '(perm, g') := randperm g (Z.to_nat (ld_len ld)) in
  (map (collate (ld_dataset ld)) (batch_sampler (Z.to_nat (ld_batch_size ld)) [] perm),
   g').

(** [g = torch.Generator(); g.manual_seed(seed)]: the seed has to be a
    signed or an unsigned 64-bit integer. *)
Definition seed_generator (seed : Z) : result generator :=
  if (seed <? - 2 ^ 63) || (2 ^ 64 <=? seed) then Raise RuntimeError
  else Ok (manual_seed seed).

(** ** The loss *)

Definition sum_scalars (l : list scalar) : scalar := fold_right s_add s_zero l.

(** [nn.MSELoss()(input, target)] with the default mean reduction.  Both
    arguments have the same size wherever the program calls it. *)
Definition loss_fn (input target : tensor) : result scalar :=
  if negb (device_eqb (t_device input) (t_device target)) then Raise RuntimeError
  else if list_eq_dec Z.eq_dec (t_size input) (t_size target) then
    let sq := map (fun p => let d := s_sub (fst p) (snd p) in s_mul d d)
                  (combine (t_data input) (t_data target)) in
    Ok (s_div (sum_scalars sq) (s_of_Z (numel input)))
  else Raise RuntimeError.

(** ** [train_autoencoder] *)

(** The process state the driver acts on: the autoencoder object its
    first argument refers to, and standard output, one entry per line. *)
Record world : Type := mkWorld {
  stdout : list string;
  net : AE
}.

Definition set_net (ae : AE) : M world unit :=
  modify (fun w => mkWorld (stdout w) ae).

Definition print (line : string) : M world unit :=
  modify (fun w => mkWorld (stdout w ++ [line]) (net w)).

(** Module-level names a function body reads. *)
Record globals : Type := mkGlobals {
  DEVICE : option device
}.

Definition read_DEVICE (G : globals) : result device :=
  match DEVICE G with
  | Some d => Ok d
  | None => Raise NameError
  end.

(** Local variables of the driver that change while it runs. *)
Record locals : Type := mkLocals {
  optim : optim_state;
  g_seed : generator;
  mse_loss : tensor;
  full_mse_loss : tensor;
  full_val_loss : option tensor;
  i : Z
}.

(** How an integer is formatted in an f-string. *)
Definition format_Z (z : Z) : string := NilZero.string_of_int (Z.to_int z).

Section Driver.

Variable G : globals.
Variable dataset : tensor.
Variable dev : device.
Variable val_dataset : option tensor.
Variables epochs batch_size seed : Z.

(** Lines 134-144: one optimisation step on one batch. *)
Definition batch_step (loc : locals) (im_batch : tensor) : M world locals :=
  let im_batch := tensor_to im_batch dev in
  autoencoder <- gets net ;;
  reconstruction <- lift (forward autoencoder im_batch) ;;
  input <- lift (view_rows reconstruction batch_size) ;;
  target <- lift (view_rows im_batch batch_size) ;;
  loss <- lift (loss_fn input target) ;;
  let '(optim', autoencoder') := backward_step (optim loc) autoencoder im_batch in
  set_net autoencoder' ;;;
  mse_loss' <- lift (setitem (mse_loss loc) (i loc) loss) ;;
  ret (mkLocals optim' (g_seed loc) mse_loss' (full_mse_loss loc)
                (full_val_loss loc) (i loc + 1)).

(** Lines 147-159: the evaluation under [torch.no_grad()]. *)
Definition no_grad_block (loc : locals) (epoch : Z) : M world locals :=
  let fim_batch := tensor_to dataset dev in
  autoencoder <- gets net ;;
  freconstruction <- lift (forward autoencoder fim_batch) ;;
  n <- lift (size0 fim_batch) ;;
  input <- lift (view freconstruction [n; -1]) ;;
  target <- lift (view fim_batch [n; -1]) ;;
  floss <- lift (loss_fn input target) ;;
  full_mse_loss' <- lift (setitem (full_mse_loss loc) epoch floss) ;;
  match val_dataset with
  | Some val_dataset =>
      let val_im_batch := tensor_to val_dataset dev in
      autoencoder <- gets net ;;
      val_reconstruction <- lift (forward autoencoder val_im_batch) ;;
      m <- lift (size0 val_im_batch) ;;
      input <- lift (view val_reconstruction [m; -1]) ;;
      target <- lift (view val_im_batch [m; -1]) ;;
      val_loss <- lift (loss_fn input target) ;;
      match full_val_loss loc with
      | Some fvl =>
          fvl' <- lift (setitem fvl epoch val_loss) ;;
          ret (mkLocals (optim loc) (g_seed loc) (mse_loss loc) full_mse_loss'
                        (Some fvl') (i loc))
      | None => raise TypeError
      end
  | None =>
      ret (mkLocals (optim loc) (g_seed loc) (mse_loss loc) full_mse_loss'
                    (full_val_loss loc) (i loc))
  end.

(** Lines 162-165: the progress report. *)
Definition report (loc : locals) (epoch : Z) : M world unit :=
  if epoch mod 10 =? 0 then
    v <- lift (getitem (full_mse_loss loc) epoch) ;;
    print ("MSE Train Loss @ " ++ format_Z epoch ++ ": " ++ format_scalar v) ;;;
    match val_dataset with
    | Some _ =>
        match full_val_loss loc with
        | Some fvl =>
            v <- lift (getitem fvl epoch) ;;
            print ("MSE Val Loss @ " ++ format_Z epoch ++ ": " ++ format_scalar v)
        | None => raise TypeError
        end
    | None => ret tt
    end
  else ret tt.

(** The body of [for epoch in trange(epochs)]. *)
Definition epoch_body (loader : loader_t) (loc : locals) (epoch : Z) : M world locals :=
  let '(batches, g') := loader_iter loader (g_seed loc) in
  let loc := mkLocals (optim loc) g' (mse_loss loc) (full_mse_loss loc)
                      (full_val_loss loc) (i loc) in
  loc <- for_each batch_step batches loc ;;
  loc <- no_grad_block loc epoch ;;
  report loc epoch ;;;
  ret loc.

(** Lines 105-128: everything before the loop. *)
Definition setup : M world (loader_t * locals) :=
  D <- lift (read_DEVICE G) ;;
  autoencoder <- gets net ;;
  set_net (AE_to autoencoder D) ;;;
  autoencoder <- gets net ;;
  let optim := Adam autoencoder in
  g_seed <- lift (seed_generator seed) ;;
  loader <- lift (DataLoader dataset batch_size) ;;
  n <- lift (tensor_len dataset) ;;
  mse_loss <- lift (zeros (epochs * n / batch_size) dev) ;;
  full_mse_loss <- lift (zeros epochs dev) ;;
  full_val_loss <- match val_dataset with
                   | Some _ => t <- lift (zeros epochs dev) ;; ret (Some t)
                   | None => ret None
                   end ;;
  ret (loader, mkLocals optim g_seed mse_loss full_mse_loss full_val_loss 0).

(** The first [k] rounds of the loop over the epochs. *)
Definition epochs_loop (loader : loader_t) (loc : locals) (k : Z) : M world locals :=
  for_each (epoch_body loader) (range k) loc.

(** [for epoch in trange(epochs, desc='Epoch')]: the progress bar shows
    itself, then come the first [k] rounds (all of them for
    [k = epochs]). *)
Definition run_epochs (loader : loader_t) (loc : locals) (k : Z) : M world locals :=
  print (trange_line epochs) ;;;
  epochs_loop loader loc k.

Definition train_autoencoder : M world (tensor * option tensor) :=
  st <- setup ;;
  let '(loader, loc) := st in
  loc <- run_epochs loader loc epochs ;;
  autoencoder <- gets net ;;
  set_net (AE_to autoencoder cpu) ;;;
  let tr_mse := tensor_to (full_mse_loss loc) cpu in
  val_mse <- match val_dataset with
             | Some _ =>
                 match full_val_loss loc with
                 | Some fvl => ret (Some (tensor_to fvl cpu))
                 | None => raise AttributeError
                 end
             | None => ret None
             end ;;
  ret (tr_mse, val_mse).

End Driver.

End Program.

(** ** The script run under [__main__] *)

Section Script.

Context {SC : Scalar} {LB : Library} {NM : Nmas}.

(** Integer arrays of the array library: a vector is a list, a matrix the
    list of its rows. *)
Definition np_arange (a b : Z) : list Z :=
  map (fun k => a + Z.of_nat k) (seq 0 (Z.to_nat (b - a))).

(** [np.tile(v, (n, 1))] for a vector [v]. *)
Definition np_tile_rows (v : list Z) (n : Z) : list (list Z) :=
  repeat v (Z.to_nat n).

(** [v.reshape(-1, 1)] for a vector [v]. *)
Definition np_column (v : list Z) : list (list Z) := map (fun a => [a]) v.

(** [np.tile(m, [1, k])] for a matrix [m]. *)
Definition np_tile_cols (m : list (list Z)) (k : Z) : list (list Z) :=
  map (fun r => concat (repeat r (Z.to_nat k))) m.

(** [a + b] for matrices of the same shape. *)
Definition np_add (a b : list (list Z)) : list (list Z) :=
  map (fun p => map (fun q => fst q + snd q) (combine (fst p) (snd p)))
      (combine a b).

(** [torch.tensor(m).float()] for a matrix with at least one row. *)
Definition torch_tensor (m : list (list Z)) : tensor :=
  mkTensor [py_len m; py_len (hd [] m)] (map s_of_Z (concat m)) cpu.

(** Where a slice bound [k] falls in a dimension of length [n]. *)
Definition slice_bound (n k : Z) : Z :=
  if k <? 0 then Z.max 0 (k + n) else Z.min k n.

(** [t[start:stop]] along the first dimension. *)
Definition slice0 (t : tensor) (start stop : option Z) : result tensor :=
  match t_size t with
  | [] => Raise IndexError
  | n :: rest =>
      let a := match start with Some k => slice_bound n k | None => 0 end in
      let b := match stop with Some k => slice_bound n k | None => n end in
      let m := Z.max 0 (b - a) in
      let k := Z.to_nat (prod_sizes rest) in
      Ok (mkStrided (m :: rest) (t_stride t)
                    (firstn (Z.to_nat m * k) (skipn (Z.to_nat a * k) (t_data t)))
                    (t_dtype t) (t_device t))
  end.

(** [t.size(d)]. *)
Definition size_at (t : tensor) (d : Z) : result Z := list_getitem (t_size t) d.

(** The names the script has bound when it ends. *)
Record script_vars : Type := mkVars {
  v_SEED : Z;
  v_DEVICE : device;
  v_x_a : list Z;
  v_x : tensor;
  v_inx : Z;
  v_x_tr : tensor;
  v_x_val : tensor;
  v_vae : AE;
  v_loss : tensor;
  v_val_loss : option tensor
}.

Definition format_optional (t : option tensor) : string :=
  match t with
  | Some t => format_tensor t
  | None => "None"%string
  end.

(** Lines 177-191: seeding, device, the synthetic data and its split. *)
Definition make_data
  : list string * torch_rng * device * list Z * Z * tensor * result (tensor * tensor) :=
  let SEED := 2021 in
  let '(np0, tg0, out1) := nmas_set_seed SEED in
  let '(DEVICE, out2) := nmas_set_device in
  let '(x_a, np1) := np_choice np0 10000 10000 in
  let tmp := np_tile_rows (np_arange (-1) 2) (py_len x_a) in
  let x := np_add (np_tile_cols (np_column x_a) 3) tmp in
  let '(inx, np2) := np_choice1 np1 (py_len x) in
  let x := torch_tensor x in
  (out1 ++ out2, tg0, DEVICE, x_a, inx, x,
   try n <- size0 x ;;
   try x_tr <- slice0 x None (Some ((- n) / 5)) ;;
   try n <- size0 x ;;
   try x_val <- slice0 x (Some ((- n) / 5)) None ;;
   Ok (x_tr, x_val)).

(** The script: what it printed, and how it ended. *)
Definition main : list string * result script_vars :=
  let '(out, tg0, DEVICE, x_a, inx, x, split) := make_data in
  match split with
  | Raise e => (out, Raise e)
  | Ok (x_tr, x_val) =>
      match size_at x (-1) with
      | Raise e => (out, Raise e)
      | Ok d =>
          match AE_init d 1 [5] [5] tg0 with
          | (_, Raise e) => (out, Raise e)
          | (_, Ok vae) =>
              match train_autoencoder (mkGlobals (Some DEVICE)) x_tr DEVICE None
                                      20 250 0 (mkWorld out vae) with
              | (w, Raise e) => (stdout w, Raise e)
              | (w, Ok (loss, val_loss)) =>
                  (stdout w ++
                     [("Final Training Loss: " ++ format_tensor loss)%string;
                      ("Final Validation Loss: " ++ format_optional val_loss)%string],
                   Ok (mkVars 2021 DEVICE x_a x inx x_tr x_val (net w) loss val_loss))
              end
          end
      end
  end.

End Script.

(** * Vocabulary of the properties *)

(** ** When a forward pass is well defined *)

(** The last dimension after a stack of layers whose parameters live on
    device [d], when the input's last dimension is [k]. *)
Fixpoint sig_out (sigs : list layer_sig) (d : device) (k : Z) : option Z :=
  match sigs with
  | [] => Some k
  | SigLinear i o d' :: rest =>
      if device_eqb d d' && (k =? i) then sig_out rest d o else None
  | SigReLU :: rest => sig_out rest d k
  end.

(** The encoder takes [in_dim] features on device [d] and the decoder
    gives [in_dim] features back. *)
Definition model_ok {SC : Scalar} (ae : AE) (d : device) : bool :=
  match sig_out (map layer_signature (enc_model ae)) d (in_dim ae) with
  | Some lat =>
      match sig_out (map layer_signature (dec_model ae)) d lat with
      | Some o => o =? in_dim ae
      | None => false
      end
  | None => false
  end.

(** The layer sizes the constructor is meant to produce for the chain of
    widths [dims]: an affine layer per consecutive pair, each but the last
    followed by a ReLU. *)
Fixpoint mlp_sig (dims : list Z) (d : device) : list layer_sig :=
  match dims with
  | a :: ((b :: rest2) as rest) =>
      match rest2 with
      | [] => [SigLinear a b d]
      | _ => SigLinear a b d :: SigReLU :: mlp_sig rest d
      end
  | _ => []
  end.

(** The widths [nn.Linear(i, o)] accepts: machine integers that are not
    negative, with a weight of [o * i] and a bias of [o] elements whose
    storage can be addressed. *)
Definition linear_fits (i o : Z) : Prop :=
  0 <= i < 2 ^ 63 /\ 0 <= o < 2 ^ 61 /\ o * i < 2 ^ 61.

(** Every affine layer of the chain of widths [dims] is accepted. *)
Fixpoint chain_fits (dims : list Z) : Prop :=
  match dims with
  | a :: ((b :: _) as rest) => linear_fits a b /\ chain_fits rest
  | _ => True
  end.

(** Picks the affine layers out of a stack. *)
Definition is_linear (s : layer_sig) : bool :=
  match s with
  | SigLinear _ _ _ => true
  | SigReLU => false
  end.

Section Vocabulary.

Context {SC : Scalar} {LB : Library} {NM : Nmas}.

(** A one-dimensional tensor that holds as many scalars as its size says. *)
Definition vector_of (n : Z) (t : tensor) : Prop :=
  t_size t = [n] /\ length (t_data t) = Z.to_nat n.

(** A tensor whose elements lie in memory in row-major order. *)
Definition contiguous (t : tensor) : Prop := t_stride t = row_major (t_size t).

(** The mean of the squares of the differences of two sequences, position
    by position, for a count of [n] numbers. *)
Definition mean_squared_error (n : Z) (a b : list scalar) : scalar :=
  let square_at i := let d := s_sub (nth i a s_zero) (nth i b s_zero) in s_mul d d in
  s_div (fold_right (fun i acc => s_add (square_at i) acc) s_zero
                    (seq 0 (Nat.min (length a) (length b))))
        (s_of_Z n).

(** The mean squared error between what a model makes of a data set, held
    on device [dev], and the data set itself. *)
Definition reconstruction_error (ae : AE) (data : tensor) (dev : device)
  : result scalar :=
  let x := tensor_to data dev in
  try y <- forward ae x ;;
  Ok (mean_squared_error (numel y) (t_data y) (t_data x)).

(** A computation that leaves the state it runs in as it found it. *)
Definition silent {S A : Type} (m : M S A) : Prop := forall s, fst (m s) = s.

(** The whole-data-set loss the no-grad block computes for a model. *)
Definition dataset_loss (ae : AE) (data : tensor) (dev : device)
  : result scalar :=
  let batch := tensor_to data dev in
  try reconstruction <- forward ae batch ;;
  try n <- size0 batch ;;
  try input <- view reconstruction [n; -1] ;;
  try target <- view batch [n; -1] ;;
  loss_fn input target.

(** The progress lines for epoch [e], read off a loss history. *)
Definition train_line (tr : tensor) (e : Z) : string :=
  ("MSE Train Loss @ " ++ format_Z e ++ ": " ++
     format_scalar (nth (Z.to_nat e) (t_data tr) s_zero))%string.

Definition val_line (v : tensor) (e : Z) : string :=
  ("MSE Val Loss @ " ++ format_Z e ++ ": " ++
     format_scalar (nth (Z.to_nat e) (t_data v) s_zero))%string.

(** What the driver prints for epoch [e]: nothing unless ten divides [e]. *)
Definition progress_lines
           (tr : tensor) (val : option tensor) (e : Z) : list string :=
  if e mod 10 =? 0 then
    train_line tr e :: match val with
                       | Some v => [val_line v e]
                       | None => []
                       end
  else [].

(** [len(loader)]: the number of batches in one pass. *)
Definition num_batches (n batch_size : Z) : Z := (n + batch_size - 1) / batch_size.

(** The validation history exists exactly when a validation set is given. *)
Definition val_matches (epochs : Z) (val_dataset fvl : option tensor)
  : Prop :=
  match val_dataset, fvl with
  | None, None => True
  | Some _, Some t => vector_of epochs t
  | _, _ => False
  end.

(** What a validation history looks like before and after epoch [e]. *)
Definition val_step (dev : device) (val_dataset : option tensor)
           (loc loc' : locals) (e : Z) (ae : AE) : Prop :=
  match val_dataset with
  | None => full_val_loss loc' = None
  | Some v =>
      exists fvl fvl',
        full_val_loss loc = Some fvl /\ full_val_loss loc' = Some fvl' /\
        dataset_loss ae v dev = Ok (nth (Z.to_nat e) (t_data fvl') s_zero) /\
        forall e', 0 <= e' -> e' <> e ->
                   nth (Z.to_nat e') (t_data fvl') s_zero =
                   nth (Z.to_nat e') (t_data fvl) s_zero
  end.

(** The model after epoch [e] gave entry [e] of the histories [loc] holds. *)
Definition snapshot
           (dataset : tensor) (dev : device) (val_dataset : option tensor)
           (batch_size : Z) (loader : loader_t) (loc0 : locals) (w0 : world)
           (loc : locals) (e : Z) : Prop :=
  exists w_e loc_e,
    epochs_loop dataset dev val_dataset batch_size loader loc0 (e + 1) w0
      = (w_e, Ok loc_e) /\
    dataset_loss (net w_e) dataset dev =
      Ok (nth (Z.to_nat e) (t_data (full_mse_loss loc)) s_zero) /\
    match val_dataset with
    | None => True
    | Some v =>
        exists fvl,
          full_val_loss loc = Some fvl /\
          dataset_loss (net w_e) v dev = Ok (nth (Z.to_nat e) (t_data fvl) s_zero)
    end.

(** The driver stopped after its first [k] epochs. *)
Definition train_prefix
           (G : globals) (dataset : tensor) (dev : device)
           (val_dataset : option tensor) (epochs batch_size seed : Z) (k : Z)
  : M world locals :=
  st <- setup G dataset dev val_dataset epochs batch_size seed ;;
  let '(loader, loc) := st in
  run_epochs dataset dev val_dataset epochs batch_size loader loc k.

(** A data set (or batch) a model of input width [width] accepts: a
    contiguous tensor of 32-bit floats with at least one example, each
    flattening to [width] features. *)
Definition data_ok (width : Z) (t : tensor) : Prop :=
  exists n rest,
    t_size t = n :: rest /\ 0 < n /\
    Forall (fun d => 0 <= d) rest /\ prod_sizes rest = width /\
    contiguous t /\ t_dtype t = float32.

Definition optional_data_ok (width : Z) (t : option tensor) : Prop :=
  match t with
  | Some v => data_ok width v
  | None => True
  end.

(** A batch of [m] examples for a model of input width [width]. *)
Definition batch_of (m width : Z) (b : tensor) : Prop :=
  exists rest,
    t_size b = m :: rest /\ 0 < m /\
    Forall (fun d => 0 <= d) rest /\ prod_sizes rest = width /\
    contiguous b /\ t_dtype b = float32.

(** A batch whose elements can be laid out in [batch_size] rows. *)
Definition fitting_batch (batch_size width : Z) (b : tensor) : Prop :=
  exists m, batch_of m width b /\ (m * width) mod batch_size = 0.

(** The rows the script builds from the draws [x_a]. *)
Definition consecutive_rows (x_a : list Z) : list (list Z) :=
  map (fun a => [a - 1; a; a + 1]) x_a.

(** The value of [x_a]: the draws made right after seeding with 2021. *)
Definition draws : list Z :=
  fst (np_choice (fst (fst (nmas_set_seed 2021))) 10000 10000).

(** The value of [x]. *)
Definition script_x : tensor :=
  mkTensor [10000; 3] (map s_of_Z (concat (consecutive_rows draws))) cpu.

(** The values of [x_tr] and [x_val]. *)
Definition script_x_tr : tensor :=
  mkTensor [8000; 3] (firstn (Z.to_nat 24000) (t_data script_x)) cpu.

Definition script_x_val : tensor :=
  mkTensor [2000; 3] (skipn (Z.to_nat 24000) (t_data script_x)) cpu.

(** What the returned histories are, for a call that returned [(tr, val)]. *)
Definition histories_ok (G : globals) (dataset : tensor) (dev : device)
           (val_dataset : option tensor) (epochs batch_size seed : Z)
           (w : world) (tr : tensor) (val : option tensor) : Prop :=
  vector_of epochs tr /\
  match val_dataset with
  | None => val = None
  | Some _ => exists vt, val = Some vt /\ vector_of epochs vt
  end /\
  forall e, 0 <= e < epochs ->
    exists w_e loc_e,
      train_prefix G dataset dev val_dataset epochs batch_size seed (e + 1) w
        = (w_e, Ok loc_e) /\
      reconstruction_error (net w_e) dataset dev
        = Ok (nth (Z.to_nat e) (t_data tr) s_zero) /\
      match val_dataset, val with
      | Some v, Some vt =>
          reconstruction_error (net w_e) v dev
          = Ok (nth (Z.to_nat e) (t_data vt) s_zero)
      | _, _ => True
      end.

End Vocabulary.

(** ** Vocabulary of the further properties *)

Section MoreVocabulary.

Context {SC : Scalar} {LB : Library}.

(** The parameters of an affine layer have the sizes of its signature:
    one weight row and one bias per output feature. *)
Definition layer_wf (ly : layer) : Prop :=
  match ly with
  | LinearLayer l =>
      length (weight l) = Z.to_nat (out_features l) /\
      length (bias l) = Z.to_nat (out_features l)
  | ReLU => True
  end.

Definition params_wf (ae : AE) : Prop :=
  Forall layer_wf (enc_model ae) /\ Forall layer_wf (dec_model ae).

(** The same, as a test. *)
Definition layer_wfb (ly : layer) : bool :=
  match ly with
  | LinearLayer l =>
      (length (weight l) =? Z.to_nat (out_features l))%nat &&
      (length (bias l) =? Z.to_nat (out_features l))%nat
  | ReLU => true
  end.

Definition params_wfb (ae : AE) : bool :=
  forallb layer_wfb (enc_model ae) && forallb layer_wfb (dec_model ae).

(** Two tensors that differ in their strides at most: the same size, the
    same elements in row-major order, the same element type, the same
    device. *)
Definition same_elements (a b : tensor) : Prop :=
  t_size a = t_size b /\ t_data a = t_data b /\
  t_dtype a = t_dtype b /\ t_device a = t_device b.

(** Two computations that end alike: with the same exception, or with
    tensors that differ in their strides at most. *)
Definition same_result (r r' : result tensor) : Prop :=
  match r, r' with
  | Ok a, Ok b => same_elements a b
  | Raise e, Raise e' => e = e'
  | _, _ => False
  end.

(** A tensor has one stride for each dimension. *)
Definition strided (t : tensor) : Prop := length (t_stride t) = length (t_size t).

(** What a stack of layers does to one row of a matrix. *)
Fixpoint row_forward (layers : list layer) (row : list scalar) : list scalar :=
  match layers with
  | [] => row
  | LinearLayer l :: rest => row_forward rest (affine_row l row)
  | ReLU :: rest => row_forward rest (map (s_max s_zero) row)
  end.

End MoreVocabulary.

Section DriverVocabulary.

Context {SC : Scalar} {LB : Library}.

(** Code that may replace the model, but only by one of the same layers
    on the same devices. *)
Definition keeps_architecture {A : Type} (m : M world A) : Prop :=
  forall w, signature (net (fst (m w))) = signature (net w).

(** The histories of a run of no epoch. *)
Definition no_history : tensor := mkTensor [0] [] cpu.

End DriverVocabulary.

Section ScriptVocabulary.

Context {SC : Scalar}.

(** Lines 190-191: the leading rows of [x] for training, the trailing
    fifth for validation. *)
Definition train_val_split (x : tensor) : result (tensor * tensor) :=
  try n <- size0 x ;;
  try x_tr <- slice0 x None (Some ((- n) / 5)) ;;
  try n <- size0 x ;;
  try x_val <- slice0 x (Some ((- n) / 5)) None ;;
  Ok (x_tr, x_val).

End ScriptVocabulary.

Section TrainingVocabulary.

Context {SC : Scalar} {LB : Library}.

(** The driver's variables that training reads and writes: all but the
    validation history. *)
Definition training_state (loc : locals)
  : optim_state * generator * tensor * tensor * Z :=
  (optim loc, g_seed loc, mse_loss loc, full_mse_loss loc, i loc).

End TrainingVocabulary.

(** * Properties *)

(** ** Sizes and strides *)

Section StrideFacts.

Lemma prod_sizes_cons (d : Z) (s : list Z) :
  prod_sizes (d :: s) = d * prod_sizes s.
Proof. reflexivity. Qed.

Lemma prod_sizes_app (a b : list Z) :
  prod_sizes (a ++ b) = prod_sizes a * prod_sizes b.
Proof.
  induction a as [|x a IH].
  - cbn [app]. change (prod_sizes []) with 1. ring.
  - cbn [app]. rewrite !prod_sizes_cons, IH. ring.
Qed.

Lemma prod_sizes_rev (s : list Z) : prod_sizes (rev s) = prod_sizes s.
Proof.
  induction s as [|x s IH]; [reflexivity|].
  cbn [rev]. rewrite prod_sizes_app, IH, !prod_sizes_cons.
  change (prod_sizes []) with 1. ring.
Qed.

Lemma prod_sizes_pos (s : list Z) :
  Forall (fun d => 1 <= d) s -> 1 <= prod_sizes s.
Proof.
  induction 1 as [|d s Hd Hs IH]; [reflexivity|].
  rewrite prod_sizes_cons. nia.
Qed.

Lemma prod_sizes_nonneg (s : list Z) :
  Forall (fun d => 0 <= d) s -> 0 <= prod_sizes s.
Proof.
  induction 1 as [|d s Hd Hs IH]; [discriminate|].
  rewrite prod_sizes_cons. nia.
Qed.

(** Dimensions that multiply to something other than zero are all
    positive. *)
Lemma sizes_positive (s : list Z) :
  Forall (fun d => 0 <= d) s -> prod_sizes s <> 0 ->
  Forall (fun d => 1 <= d) s.
Proof.
  induction 1 as [|d s Hd Hs IH]; intros Hp; constructor;
    rewrite prod_sizes_cons in Hp.
  - destruct (Z.eq_dec d 0) as [->|]; [contradiction Hp; reflexivity | lia].
  - apply IH. intros E. apply Hp. rewrite E. ring.
Qed.

Lemma row_major_length (s : list Z) : length (row_major s) = length s.
Proof. induction s as [|d s IH]; simpl; congruence. Qed.

Lemma extent_scale (s : list Z) (c : Z) :
  fold_right (fun d acc => Z.max d 1 * acc) c s
  = c * fold_right (fun d acc => Z.max d 1 * acc) 1 s.
Proof.
  induction s as [|d s IH]; simpl.
  - ring.
  - rewrite IH. ring.
Qed.

Lemma row_major_snoc (s : list Z) (d : Z) :
  1 <= d -> row_major (s ++ [d]) = map (Z.mul d) (row_major s) ++ [1].
Proof.
  intros Hd. induction s as [|a s IH]; [reflexivity|].
  simpl. rewrite IH. f_equal.
  rewrite fold_right_app. simpl.
  rewrite extent_scale. rewrite Z.max_l by lia. ring.
Qed.

Lemma combine_snoc {A B : Type} (l : list A) (l' : list B) (a : A) (b : B) :
  length l = length l' ->
  combine (l ++ [a]) (l' ++ [b]) = combine l l' ++ [(a, b)].
Proof.
  revert l'. induction l as [|x l IH]; intros [|y l'] H; simpl in *;
    try discriminate; [reflexivity|].
  rewrite IH by congruence. reflexivity.
Qed.

(** The dimensions of a contiguous tensor with their strides, last
    first, when [P] elements lie behind them. *)
Lemma strided_rev_snoc (s : list Z) (d P : Z) :
  1 <= d ->
  rev (combine (s ++ [d]) (map (Z.mul P) (row_major (s ++ [d]))))
  = (d, P * 1) :: rev (combine s (map (Z.mul (P * d)) (row_major s))).
Proof.
  intros Hd. rewrite row_major_snoc by exact Hd.
  rewrite map_app. cbn [map].
  rewrite combine_snoc by (rewrite !length_map, row_major_length; reflexivity).
  rewrite rev_app_distr. cbn [rev app]. f_equal. f_equal. f_equal.
  rewrite map_map. apply map_ext. intros x. ring.
Qed.

(** One chunk that the dimensions of the new size cover exactly. *)
Lemma fill_chunk_all (v : list Z) :
  Forall (fun d => 1 <= d) v ->
  forall (vn : Z) (acc : list Z),
    1 <= vn ->
    fill_chunk v 1 (vn * prod_sizes v) vn acc
    = ([], vn * prod_sizes v, map (Z.mul vn) (row_major (rev v)) ++ acc).
Proof.
  induction 1 as [|d v Hd Hv IH]; intros vn acc Hvn.
  - cbn. replace (vn * 1) with vn by ring. reflexivity.
  - cbn [fill_chunk].
    pose proof (prod_sizes_pos Hv) as Hp.
    assert (Hcond : (vn <? vn * prod_sizes (d :: v)) || (d =? 1) = true).
    { destruct (Z.eqb_spec d 1) as [->|Hne]; [apply orb_true_r|].
      apply orb_true_iff. left. apply Z.ltb_lt.
      rewrite prod_sizes_cons.
      assert (2 <= d * prod_sizes v) by nia. nia. }
    rewrite Hcond.
    replace (vn * prod_sizes (d :: v)) with (vn * d * prod_sizes v)
      by (rewrite prod_sizes_cons; ring).
    rewrite IH by nia. f_equal.
    cbn [rev]. rewrite row_major_snoc by exact Hd.
    rewrite map_app, map_map, <- app_assoc. cbn [map app].
    f_equal. apply map_ext. intros x. ring.
Qed.

(** A contiguous tensor is a single chunk. *)
Lemma chunks_contiguous (s : list Z) :
  s <> [] -> Forall (fun d => 1 <= d) s ->
  forall (P : Z) (v acc : list Z),
    chunks (rev (combine s (map (Z.mul P) (row_major s)))) v 1 P acc
    = let '(v', vn, acc') := fill_chunk v 1 (P * prod_sizes s) 1 acc in
      if vn =? P * prod_sizes s
      then match v' with [] => Some acc' | _ :: _ => None end
      else None.
Proof.
  induction s as [|d s IH] using rev_ind; intros Hne Hall P v acc;
    [contradiction Hne; reflexivity|].
  apply Forall_app in Hall. destruct Hall as [Hs Hd].
  inversion Hd as [|? ? Hd1 _]; subst.
  rewrite strided_rev_snoc by exact Hd1.
  rewrite prod_sizes_app.
  replace (prod_sizes [d]) with d
    by (rewrite prod_sizes_cons; change (prod_sizes []) with 1; ring).
  replace (P * (prod_sizes s * d)) with (P * d * prod_sizes s) by ring.
  destruct s as [|a s'] using rev_ind.
  - cbn [combine map row_major rev chunks].
    replace (P * d * prod_sizes []) with (P * d)
      by (change (prod_sizes []) with 1; ring).
    reflexivity.
  - clear IHs'.
    specialize (IH ltac:(intros E; destruct s'; discriminate E) Hs (P * d) v acc).
    apply Forall_app in Hs. destruct Hs as [_ Ha].
    inversion Ha as [|? ? Ha1 _]; subst.
    rewrite strided_rev_snoc in IH |- * by exact Ha1.
    cbn [chunks].
    replace (P * d * 1 =? P * d * 1) with true by (symmetry; apply Z.eqb_refl).
    rewrite andb_false_r. exact IH.
Qed.

Lemma row_major_last (s : list Z) :
  s <> [] -> last (row_major s) 0 = 1.
Proof.
  induction s as [|d s IH]; intros Hne; [contradiction Hne; reflexivity|].
  destruct s as [|e s']; [reflexivity|].
  change (row_major (d :: e :: s')) with
    (fold_right (fun d acc => Z.max d 1 * acc) 1 (e :: s') :: row_major (e :: s')).
  change (last (?x :: row_major (e :: s')) 0) with (last (row_major (e :: s')) 0).
  apply IH. discriminate.
Qed.

(** A contiguous tensor can be seen under every size with as many
    elements, and is contiguous under it. *)
Lemma compute_stride_contiguous (s s' : list Z) :
  s <> [] ->
  Forall (fun d => 0 <= d) s -> Forall (fun d => 0 <= d) s' ->
  prod_sizes s' = prod_sizes s ->
  compute_stride s (row_major s) s' = Some (row_major s').
Proof.
  intros Hne Hs Hs' Hprod. unfold compute_stride.
  destruct s as [|d0 s0] eqn:Es; [contradiction Hne; reflexivity|].
  rewrite <- Es in *. clear Es d0 s0.
  destruct (Z.eqb_spec (prod_sizes s) 0) as [Hz|Hnz].
  - destruct (list_eq_dec Z.eq_dec s s') as [->|_]; reflexivity.
  - assert (H1 : Forall (fun d => 1 <= d) s) by (apply sizes_positive; assumption).
    assert (H1' : Forall (fun d => 1 <= d) s')
      by (apply sizes_positive; [assumption | congruence]).
    rewrite row_major_last by exact Hne.
    replace (row_major s) with (map (Z.mul 1) (row_major s))
      by (rewrite <- (map_id (row_major s)) at 2; apply map_ext; intros x;
          destruct x; reflexivity).
    rewrite chunks_contiguous by assumption.
    replace (1 * prod_sizes s) with (1 * prod_sizes (rev s'))
      by (rewrite prod_sizes_rev, Hprod; reflexivity).
    rewrite fill_chunk_all by (try apply Forall_rev; try assumption; lia).
    rewrite Z.eqb_refl, rev_involutive, app_nil_r.
    f_equal. rewrite <- (map_id (row_major s')) at 2. apply map_ext.
    intros x. destruct x; reflexivity.
Qed.

(** A matrix can always be viewed under its own size, whatever its
    strides are. *)
Lemma compute_stride_matrix (n k a b : Z) :
  0 < n -> 0 <= k ->
  exists st, compute_stride [n; k] [a; b] [n; k] = Some st /\ length st = 2%nat.
Proof.
  intros Hn Hk. unfold compute_stride.
  destruct (Z.eqb_spec (prod_sizes [n; k]) 0) as [E|E].
  - destruct (list_eq_dec Z.eq_dec [n; k] [n; k]) as [_|F];
      [eauto | contradiction F; reflexivity].
  - rewrite !prod_sizes_cons in E. change (prod_sizes []) with 1 in E.
    assert (Hk' : 0 < k) by nia.
    cbn [combine rev app last chunks].
    replace (1 * k) with k by lia.
    destruct (negb (n =? 1) && negb (a =? k * b)) eqn:Ec.
    + apply andb_true_iff in Ec. destruct Ec as [En Ea].
      apply negb_true_iff, Z.eqb_neq in En.
      cbn [fill_chunk].
      replace ((1 <? k) || (k =? 1)) with true
        by (symmetry; apply orb_true_iff;
            destruct (Z.eq_dec k 1);
            [right; apply Z.eqb_eq; assumption | left; apply Z.ltb_lt; lia]).
      replace (1 * k) with k by lia.
      rewrite Z.ltb_irrefl.
      replace (n =? 1) with false by (symmetry; apply Z.eqb_neq; exact En).
      cbn [orb]. rewrite Z.eqb_refl.
      cbn [chunks fill_chunk].
      replace (1 * n) with n by lia.
      replace (1 <? n) with true by (symmetry; apply Z.ltb_lt; lia).
      cbn [orb]. rewrite Z.eqb_refl. eauto.
    + cbn [chunks fill_chunk].
      replace ((1 <? k * n) || (k =? 1)) with true
        by (symmetry; apply orb_true_iff;
            destruct (Z.eq_dec k 1);
            [right; apply Z.eqb_eq; assumption | left; apply Z.ltb_lt; nia]).
      replace (1 * k) with k by lia.
      replace ((k <? k * n) || (n =? 1)) with true
        by (symmetry; apply orb_true_iff;
            destruct (Z.eq_dec n 1);
            [right; apply Z.eqb_eq; assumption | left; apply Z.ltb_lt; nia]).
      rewrite Z.eqb_refl. eauto.
Qed.

End StrideFacts.

(** ** The forward pass *)

Section ForwardFacts.

Context {SC : Scalar}.

Lemma infer_size_rows (n p : Z) :
  0 < n -> infer_size [n; -1] (n * p) = Ok [n; p].
Proof.
  intros Hn. unfold infer_size. simpl.
  replace (n <? -1) with false by (symmetry; apply Z.ltb_ge; lia).
  replace (n =? -1) with false by (symmetry; apply Z.eqb_neq; lia).
  simpl.
  replace (n * 1) with n by lia.
  replace (0 <? n) with true by (symmetry; apply Z.ltb_lt; lia).
  replace ((n * p) mod n =? 0) with true
    by (symmetry; apply Z.eqb_eq; rewrite Z.mul_comm; apply Z.mod_mul; lia).
  rewrite orb_true_r.
  replace (n =? 0) with false by (symmetry; apply Z.eqb_neq; lia).
  replace (n * p / n) with p
    by (rewrite Z.mul_comm, Z.div_mul; lia).
  reflexivity.
Qed.

(** What a successful inference of [(b, -1)] says. *)
Lemma infer_size_rows_inv (b m : Z) (s : list Z) :
  infer_size [b; -1] m = Ok s ->
  0 < b /\ s = [b; m / b] /\ b * (m / b) = m.
Proof.
  unfold infer_size. cbn [existsb filter].
  change (-1 <? -1) with false. change (-1 =? -1) with true.
  cbn [negb orb].
  destruct (Z.ltb_spec b (-1)) as [|Hb]; [discriminate|].
  destruct (Z.eqb_spec b (-1)) as [|Hb1]; cbn [negb]; [discriminate|].
  cbn [prod_sizes fold_right map].
  replace (b * 1) with b by ring.
  change (-1 =? -1) with true. cbv iota.
  replace (b =? -1) with false by (symmetry; apply Z.eqb_neq; exact Hb1).
  destruct ((m =? b) || ((0 <? b) && (m mod b =? 0))) eqn:Hc; [|discriminate].
  destruct (Z.eqb_spec b 0) as [|Hb0]; [discriminate|].
  intros H. injection H as <-.
  split; [lia|]. split; [reflexivity|].
  apply orb_true_iff in Hc. destruct Hc as [Hc|Hc].
  - apply Z.eqb_eq in Hc. subst m. rewrite Z.div_same by exact Hb0. ring.
  - apply andb_true_iff in Hc. destruct Hc as [_ Hc]. apply Z.eqb_eq in Hc.
    pose proof (Z.div_mod m b Hb0). lia.
Qed.

Lemma filter_none_nonneg (s : list Z) :
  Forall (fun d => 0 <= d) s ->
  existsb (fun d => d <? -1) s = false /\
  filter (fun d => d =? -1) s = [] /\
  filter (fun d => negb (d =? -1)) s = s.
Proof.
  induction 1 as [|d s Hd Hs IH]; simpl.
  - repeat split.
  - destruct IH as (E1 & E2 & E3).
    replace (d <? -1) with false by (symmetry; apply Z.ltb_ge; lia).
    replace (d =? -1) with false by (symmetry; apply Z.eqb_neq; lia).
    simpl. rewrite E1, E2, E3. repeat split.
Qed.

Lemma infer_size_same (s : list Z) :
  Forall (fun d => 0 <= d) s -> infer_size s (prod_sizes s) = Ok s.
Proof.
  intros H. destruct (filter_none_nonneg H) as (E1 & E2 & E3).
  unfold infer_size. rewrite E1, E2, E3, Z.eqb_refl. reflexivity.
Qed.

(** Nothing can be viewed as [0] rows of inferred width. *)
Lemma infer_size_no_rows (m : Z) : infer_size [0; -1] m = Raise RuntimeError.
Proof.
  unfold infer_size. simpl.
  destruct (m =? 0); reflexivity.
Qed.

Lemma infer_size_raises (shape : list Z) (n : Z) (e : exn) :
  infer_size shape n = Raise e -> e = RuntimeError.
Proof.
  unfold infer_size.
  destruct (existsb _ shape); [congruence|].
  destruct (filter (fun d => d =? -1) shape) as [|h [|h' t]].
  - destruct (n =? _); congruence.
  - destruct (_ || _); [destruct (_ =? 0)|]; congruence.
  - congruence.
Qed.

Lemma device_eqb_refl (d : device) : device_eqb d d = true.
Proof. destruct d; reflexivity. Qed.

Lemma device_eqb_eq (a b : device) : device_eqb a b = true -> a = b.
Proof. destruct a, b; simpl; congruence. Qed.

Lemma device_eqb_neq (a b : device) : a <> b -> device_eqb a b = false.
Proof. destruct a, b; intros H; try reflexivity; contradiction H; reflexivity. Qed.

(** Every way [view] fails is a [RuntimeError]. *)
Lemma view_raises (t : tensor) (shape : list Z) (e : exn) :
  view t shape = Raise e -> e = RuntimeError.
Proof.
  unfold view. destruct (infer_size shape (numel t)) as [s|e'] eqn:Ei.
  - cbn [rbind]. destruct (compute_stride _ _ _); congruence.
  - cbn [rbind]. intros H. injection H as <-.
    eapply infer_size_raises. exact Ei.
Qed.

(** What [view] keeps. *)
Lemma view_inv (t t' : tensor) (shape : list Z) :
  view t shape = Ok t' ->
  infer_size shape (numel t) = Ok (t_size t') /\
  t_data t' = t_data t /\ t_dtype t' = t_dtype t /\ t_device t' = t_device t.
Proof.
  unfold view. destruct (infer_size shape (numel t)) as [s|e]; [|discriminate].
  cbn [rbind]. destruct (compute_stride _ _ _) as [st|]; [|discriminate].
  intros H. injection H as <-. auto.
Qed.

(** A contiguous tensor can be viewed under every size its elements fill,
    and the view is contiguous. *)
Lemma view_contiguous (t : tensor) (shape s : list Z) :
  contiguous t -> t_size t <> [] ->
  Forall (fun d => 0 <= d) (t_size t) ->
  infer_size shape (numel t) = Ok s ->
  Forall (fun d => 0 <= d) s -> prod_sizes s = numel t ->
  view t shape
  = Ok (mkStrided s (row_major s) (t_data t) (t_dtype t) (t_device t)).
Proof.
  intros Hc Hne Hsz Hi Hs Hp. unfold view. rewrite Hi. cbn [rbind].
  rewrite Hc, compute_stride_contiguous by assumption. reflexivity.
Qed.

(** Flattening a contiguous batch of [n] examples. *)
Lemma view_flat (t : tensor) (n : Z) (rest : list Z) :
  contiguous t -> t_size t = n :: rest -> 0 < n ->
  Forall (fun d => 0 <= d) rest ->
  view t [n; -1]
  = Ok (mkStrided [n; prod_sizes rest] (row_major [n; prod_sizes rest])
                  (t_data t) (t_dtype t) (t_device t)).
Proof.
  intros Hc Hsz Hn Hrest.
  pose proof (prod_sizes_nonneg Hrest) as Hp.
  apply view_contiguous; try assumption.
  - rewrite Hsz. discriminate.
  - rewrite Hsz. constructor; [lia | exact Hrest].
  - unfold numel. rewrite Hsz, prod_sizes_cons. apply infer_size_rows. exact Hn.
  - repeat constructor; lia.
  - unfold numel. rewrite Hsz, !prod_sizes_cons.
    change (prod_sizes []) with 1. ring.
Qed.

(** Giving a contiguous tensor the size [s], which its elements fill. *)
Lemma view_as (t : tensor) (s : list Z) :
  contiguous t -> t_size t <> [] ->
  Forall (fun d => 0 <= d) (t_size t) ->
  Forall (fun d => 0 <= d) s -> prod_sizes s = numel t ->
  view t s
  = Ok (mkStrided s (row_major s) (t_data t) (t_dtype t) (t_device t)).
Proof.
  intros Hc Hne Hsz Hs Hp.
  apply view_contiguous; try assumption.
  rewrite <- Hp. apply infer_size_same. exact Hs.
Qed.

Lemma tensor_to_size (t : tensor) (d : device) :
  t_size (tensor_to t d) = t_size t.
Proof. unfold tensor_to. destruct (device_eqb _ _); reflexivity. Qed.

Lemma tensor_to_data (t : tensor) (d : device) :
  t_data (tensor_to t d) = t_data t.
Proof. unfold tensor_to. destruct (device_eqb _ _); reflexivity. Qed.

Lemma tensor_to_dtype (t : tensor) (d : device) :
  t_dtype (tensor_to t d) = t_dtype t.
Proof. unfold tensor_to. destruct (device_eqb _ _); reflexivity. Qed.

Lemma tensor_to_device (t : tensor) (d : device) :
  t_device (tensor_to t d) = d.
Proof.
  unfold tensor_to. destruct (device_eqb _ _) eqn:E; [|reflexivity].
  apply device_eqb_eq. exact E.
Qed.

Lemma tensor_to_contiguous (t : tensor) (d : device) :
  contiguous t -> contiguous (tensor_to t d).
Proof.
  unfold tensor_to, contiguous. intros H.
  destruct (device_eqb _ _); [exact H|].
  cbn [t_stride t_size]. rewrite H. apply keep_layout_contiguous.
Qed.

Lemma tensor_to_vector (n : Z) (t : tensor) (d : device) :
  vector_of n t -> vector_of n (tensor_to t d).
Proof.
  unfold vector_of. rewrite tensor_to_size, tensor_to_data. exact (fun H => H).
Qed.

(** A stack of layers sends a matrix of 32-bit floats to a matrix of
    32-bit floats with as many rows, contiguous if the input is. *)
Lemma sequential_matrix (layers : list layer) :
  forall (x : tensor) (n k k' : Z),
    t_size x = [n; k] ->
    t_dtype x = float32 ->
    sig_out (map layer_signature layers) (t_device x) k = Some k' ->
    exists y, sequential layers x = Ok y /\
              t_size y = [n; k'] /\ t_device y = t_device x /\
              t_dtype y = float32 /\ (contiguous x -> contiguous y).
Proof.
  induction layers as [|ly rest IH]; intros x n k k' Hsz Hty Hout; simpl in *.
  - inversion Hout; subst. exists x. auto.
  - destruct ly as [l|]; simpl in *.
    + destruct (device_eqb (t_device x) (l_device l)) eqn:Hd; [|discriminate].
      destruct (k =? in_features l) eqn:Hk; [|discriminate].
      simpl in Hout.
      unfold linear_forward. rewrite Hsz. simpl. rewrite Hd, Hk, Hty. simpl.
      match goal with |- context [sequential rest ?t] => set (y0 := t) end.
      destruct (IH y0 n (out_features l) k') as (y & Hy & Hs & Hdev & Hyt & Hyc);
        [reflexivity | reflexivity | exact Hout |].
      exists y. repeat split; try assumption.
      intros _. apply Hyc. reflexivity.
    + destruct (IH (relu_forward x) n k k') as (y & Hy & Hs & Hdev & Hyt & Hyc);
        [exact Hsz | exact Hty | exact Hout |].
      exists y. repeat split; try assumption.
      intros Hc. apply Hyc. unfold contiguous, relu_forward in *.
      cbn [t_stride t_size]. rewrite Hc. apply keep_layout_contiguous.
Qed.

Lemma model_ok_inv (ae : AE) (d : device) :
  model_ok ae d = true ->
  exists lat,
    sig_out (map layer_signature (enc_model ae)) d (in_dim ae) = Some lat /\
    sig_out (map layer_signature (dec_model ae)) d lat = Some (in_dim ae).
Proof.
  unfold model_ok. intros H.
  destruct (sig_out (map layer_signature (enc_model ae)) d (in_dim ae))
    as [lat|] eqn:E1; [|discriminate].
  destruct (sig_out (map layer_signature (dec_model ae)) d lat)
    as [o|] eqn:E2; [|discriminate].
  apply Z.eqb_eq in H. subst o. exists lat. split; [reflexivity | exact E2].
Qed.

(** The forward pass on at least one example: contiguous 32-bit floats on
    the model's device. *)
Lemma forward_ok (ae : AE) (x : tensor) (n : Z) (rest : list Z) :
  model_ok ae (t_device x) = true ->
  t_dtype x = float32 ->
  contiguous x ->
  t_size x = n :: rest ->
  0 < n ->
  Forall (fun d => 0 <= d) rest ->
  prod_sizes rest = in_dim ae ->
  exists y, forward ae x = Ok y /\ t_size y = t_size x /\
            t_device y = t_device x /\ t_dtype y = float32 /\ contiguous y.
Proof.
  intros Hok Hty Hc Hsz Hn Hrest Hprod.
  destruct (model_ok_inv _ _ Hok) as (lat & Henc & Hdec).
  unfold forward, size0. rewrite Hsz. cbn [rbind].
  rewrite (view_flat Hc Hsz Hn Hrest). cbn [rbind]. rewrite Hprod.
  set (flat_x := mkStrided [n; in_dim ae] (row_major [n; in_dim ae])
                           (t_data x) (t_dtype x) (t_device x)).
  destruct (sequential_matrix (enc_model ae) flat_x eq_refl Hty Henc)
    as (h & Hh & Hhs & Hhd & Hht & Hhc).
  unfold encode. rewrite Hh. cbn [rbind].
  change (t_device flat_x) with (t_device x) in Hhd.
  rewrite <- Hhd in Hdec.
  destruct (sequential_matrix (dec_model ae) h Hhs Hht Hdec)
    as (y & Hy & Hys & Hyd & Hyt & Hyc).
  unfold decode. rewrite Hy. cbn [rbind].
  assert (Hin : 0 <= in_dim ae) by (rewrite <- Hprod; apply prod_sizes_nonneg; exact Hrest).
  rewrite (@view_as y (n :: rest)).
  - eexists. split; [reflexivity|]. cbn [t_size t_device t_dtype].
    split; [reflexivity|]. split; [congruence|]. split; [exact Hyt | reflexivity].
  - apply Hyc, Hhc. reflexivity.
  - rewrite Hys. discriminate.
  - rewrite Hys. repeat constructor; lia.
  - constructor; [lia | exact Hrest].
  - unfold numel. rewrite Hys, !prod_sizes_cons, Hprod.
    change (prod_sizes []) with 1. ring.
Qed.

(** With no example the first reshape of the forward pass is refused. *)
Lemma forward_no_example (ae : AE) (x : tensor) (rest : list Z) :
  t_size x = 0 :: rest -> forward ae x = Raise RuntimeError.
Proof.
  intros Hsz. unfold forward, size0, view. rewrite Hsz. simpl.
  rewrite infer_size_no_rows. reflexivity.
Qed.

End ForwardFacts.

(** ** Reasoning about effectful code *)

Section MonadFacts.

Variables S A B : Type.

Lemma bind_ok_inv (m : M S A) (k : A -> M S B) (s s' : S) (b : B) :
  bind m k s = (s', Ok b) ->
  exists a s1, m s = (s1, Ok a) /\ k a s1 = (s', Ok b).
Proof.
  unfold bind. destruct (m s) as [s1 [a|e]]; intros H.
  - exists a, s1. auto.
  - discriminate.
Qed.

Lemma bind_ok (m : M S A) (k : A -> M S B) (s s1 : S) (a : A) :
  m s = (s1, Ok a) -> bind m k s = k a s1.
Proof. unfold bind. intros ->. reflexivity. Qed.

Lemma bind_raise (m : M S A) (k : A -> M S B) (s s1 : S) (e : exn) :
  m s = (s1, Raise e) -> bind m k s = (s1, Raise e).
Proof. unfold bind. intros ->. reflexivity. Qed.

Lemma lift_ok_inv (r : result A) (s s' : S) (a : A) :
  lift r s = (s', Ok a) -> s' = s /\ r = Ok a.
Proof. unfold lift. intros H. inversion H. auto. Qed.

End MonadFacts.

Lemma for_each_app {S X L : Type} (body : L -> X -> M S L) (xs ys : list X) :
  forall (acc : L) (s : S),
    for_each body (xs ++ ys) acc s =
    bind (for_each body xs acc) (for_each body ys) s.
Proof.
  induction xs as [|x xs IH]; intros acc s; simpl.
  - reflexivity.
  - unfold bind. destruct (body acc x s) as [s1 [acc1|e]]; [|reflexivity].
    rewrite IH. reflexivity.
Qed.

Lemma range_succ (k : Z) : 0 <= k -> range (k + 1) = range k ++ [k].
Proof.
  intros Hk. unfold range.
  replace (Z.to_nat (k + 1)) with (Z.to_nat k + 1)%nat by lia.
  rewrite seq_app, map_app. simpl. f_equal. f_equal. lia.
Qed.

Lemma range_length (k : Z) : length (range k) = Z.to_nat k.
Proof. unfold range. rewrite length_map, length_seq. reflexivity. Qed.

Lemma in_range (k e : Z) : In e (range k) <-> 0 <= e < k.
Proof.
  unfold range. rewrite in_map_iff. split.
  - intros [n [<- Hn]]. apply in_seq in Hn. lia.
  - intros He. exists (Z.to_nat e). split; [lia|]. apply in_seq. lia.
Qed.

(** ** The constructor *)

Section ConstructorFacts.

Context {SC : Scalar} {LB : Library}.

Lemma list_getitem_middle {A : Type} (pre : list A) (a : A) (rest : list A) :
  list_getitem (pre ++ a :: rest) (Z.of_nat (length pre)) = Ok a.
Proof.
  unfold list_getitem. rewrite length_app. simpl.
  replace (Z.of_nat (length pre) <? 0) with false
    by (symmetry; apply Z.ltb_ge; lia).
  replace (Z.of_nat (length pre) <? 0) with false
    by (symmetry; apply Z.ltb_ge; lia).
  replace (Z.of_nat (length pre + S (length rest)) <=? Z.of_nat (length pre))
    with false by (symmetry; apply Z.leb_gt; lia).
  simpl. rewrite Nat2Z.id, nth_error_app2 by lia.
  rewrite Nat.sub_diag. reflexivity.
Qed.

Lemma list_getitem_last {A : Type} (pre : list A) (a : A) :
  list_getitem (pre ++ [a]) (-1) = Ok a.
Proof.
  unfold list_getitem. rewrite length_app.
  change (length [a]) with 1%nat. change (-1 <? 0) with true. cbv beta iota zeta.
  replace (-1 + Z.of_nat (length pre + 1)) with (Z.of_nat (length pre)) by lia.
  replace (Z.of_nat (length pre) <? 0) with false
    by (symmetry; apply Z.ltb_ge; lia).
  replace (Z.of_nat (length pre + 1) <=? Z.of_nat (length pre))
    with false by (symmetry; apply Z.leb_gt; lia).
  simpl. rewrite Nat2Z.id, nth_error_app2 by lia.
  rewrite Nat.sub_diag. reflexivity.
Qed.

Lemma list_getitem_head {A : Type} (a : A) (rest : list A) :
  list_getitem (a :: rest) 0 = Ok a.
Proof. exact (list_getitem_middle [] a rest). Qed.

Lemma list_getitem_nil {A : Type} (i : Z) :
  list_getitem (@nil A) i = Raise IndexError.
Proof.
  unfold list_getitem. cbv zeta.
  match goal with |- context [if ?c then _ else _] => destruct c end;
    [reflexivity|].
  match goal with |- context [nth_error [] ?n] => destruct n end; reflexivity.
Qed.

Lemma int64_range_spec (z : Z) :
  int64_range z = true <-> - 2 ^ 63 <= z < 2 ^ 63.
Proof.
  unfold int64_range. rewrite andb_true_iff, Z.leb_le, Z.ltb_lt. reflexivity.
Qed.

Lemma storage_fits_spec (s : list Z) :
  storage_fits s = true <-> 4 * prod_sizes s < 2 ^ 63.
Proof. unfold storage_fits. apply Z.ltb_lt. Qed.

Lemma sizes_checked (s : list Z) :
  Forall (fun d => 0 <= d < 2 ^ 63) s ->
  forallb int64_range s = true /\ existsb (fun d => d <? 0) s = false.
Proof.
  intros H. split.
  - apply forallb_forall. intros d Hin.
    rewrite Forall_forall in H. apply int64_range_spec.
    specialize (H d Hin). lia.
  - destruct (existsb (fun d => d <? 0) s) eqn:E; [|reflexivity].
    apply existsb_exists in E. destruct E as (d & Hin & Hd).
    rewrite Forall_forall in H. specialize (H d Hin).
    apply Z.ltb_lt in Hd. lia.
Qed.

(** A size is accepted exactly when its entries are machine integers that
    are not negative and its storage can be addressed. *)
Lemma check_size_ok (s : list Z) :
  check_size s = Ok tt <->
  Forall (fun d => 0 <= d < 2 ^ 63) s /\ 4 * prod_sizes s < 2 ^ 63.
Proof.
  unfold check_size. split.
  - destruct (forallb int64_range s) eqn:Er; cbn [negb]; [|discriminate].
    destruct (existsb (fun d => d <? 0) s) eqn:En; [discriminate|].
    destruct (storage_fits s) eqn:Es; cbn [negb]; [|discriminate].
    intros _. split; [|apply storage_fits_spec; exact Es].
    apply Forall_forall. intros d Hin.
    rewrite forallb_forall in Er.
    pose proof (proj1 (int64_range_spec d) (Er d Hin)) as Hr.
    assert (Hd : (d <? 0) = false).
    { destruct (d <? 0) eqn:E; [|reflexivity].
      assert (existsb (fun d => d <? 0) s = true)
        by (apply existsb_exists; exists d; auto).
      congruence. }
    apply Z.ltb_ge in Hd. lia.
  - intros [H Hs]. destruct (sizes_checked H) as [-> ->]. cbn [negb].
    rewrite (proj2 (storage_fits_spec s) Hs). reflexivity.
Qed.

(** An entry that is no machine integer is a [TypeError], whatever the
    other entries are. *)
Lemma check_size_overflow (s : list Z) (d : Z) :
  In d s -> d < - 2 ^ 63 \/ 2 ^ 63 <= d -> check_size s = Raise TypeError.
Proof.
  intros Hin Hd. unfold check_size.
  replace (forallb int64_range s) with false; [reflexivity|].
  symmetry. destruct (forallb int64_range s) eqn:E; [|reflexivity].
  rewrite forallb_forall in E. apply E, int64_range_spec in Hin. lia.
Qed.

(** Among machine integers a negative entry is a [RuntimeError]. *)
Lemma check_size_negative (s : list Z) (d : Z) :
  Forall (fun d => - 2 ^ 63 <= d < 2 ^ 63) s -> In d s -> d < 0 ->
  check_size s = Raise RuntimeError.
Proof.
  intros Hr Hin Hd. unfold check_size.
  replace (forallb int64_range s) with true.
  2:{ symmetry. apply forallb_forall. intros x Hx.
      rewrite Forall_forall in Hr. apply int64_range_spec, Hr, Hx. }
  cbn [negb].
  replace (existsb (fun d => d <? 0) s) with true; [reflexivity|].
  symmetry. apply existsb_exists. exists d. split; [exact Hin|].
  apply Z.ltb_lt. exact Hd.
Qed.

(** A size whose storage cannot be addressed is a [RuntimeError]. *)
Lemma check_size_storage (s : list Z) :
  Forall (fun d => 0 <= d < 2 ^ 63) s -> 2 ^ 63 <= 4 * prod_sizes s ->
  check_size s = Raise RuntimeError.
Proof.
  intros H Hs. unfold check_size.
  destruct (sizes_checked H) as [-> ->]. cbn [negb].
  replace (storage_fits s) with false; [reflexivity|].
  symmetry. unfold storage_fits. apply Z.ltb_ge. exact Hs.
Qed.

(** Every way a size is refused. *)
Lemma check_size_raises (s : list Z) (e : exn) :
  check_size s = Raise e -> e = TypeError \/ e = RuntimeError.
Proof.
  unfold check_size. destruct (negb _); [intros H; injection H as <-; auto|].
  destruct (existsb _ _); [intros H; injection H as <-; auto|].
  destruct (negb _); [intros H; injection H as <-; auto | discriminate].
Qed.

Lemma linear_fits_sizes (i o : Z) :
  linear_fits i o <-> check_size [o; i] = Ok tt /\ check_size [o] = Ok tt.
Proof.
  rewrite !check_size_ok. unfold linear_fits.
  rewrite !prod_sizes_cons. change (prod_sizes []) with 1. split.
  - intros (Hi & Ho & Hp). repeat split; try (repeat constructor; lia); lia.
  - intros [[Hf Hp] [Hf' Hp']].
    inversion Hf as [|? ? Ho Hf1]; subst. inversion Hf1 as [|? ? Hi _]; subst.
    repeat split; lia.
Qed.

Lemma nn_Linear_ok_inv (i o : Z) (g g' : torch_rng) (l : Linear) :
  nn_Linear i o g = (g', Ok l) ->
  in_features l = i /\ out_features l = o /\ l_device l = cpu /\
  linear_fits i o.
Proof.
  unfold nn_Linear. intros H.
  apply bind_ok_inv in H. destruct H as ([] & g0 & Hc & H).
  apply lift_ok_inv in Hc. destruct Hc as [-> Hc].
  apply bind_ok_inv in H. destruct H as ([] & g1 & Hb & H).
  apply lift_ok_inv in Hb. destruct Hb as [-> Hb].
  destruct (init_linear g i o) as [wb g2]. inversion H; subst.
  cbn [in_features out_features l_device].
  split; [reflexivity|]. split; [reflexivity|]. split; [reflexivity|].
  apply linear_fits_sizes. auto.
Qed.

Lemma nn_Linear_ok (i o : Z) (g : torch_rng) :
  linear_fits i o -> exists g' l, nn_Linear i o g = (g', Ok l).
Proof.
  intros H. apply linear_fits_sizes in H. destruct H as [Hw Hb].
  unfold nn_Linear.
  erewrite bind_ok by (unfold lift; rewrite Hw; reflexivity).
  erewrite bind_ok by (unfold lift; rewrite Hb; reflexivity).
  destruct (init_linear g i o) as [wb g1]. eauto.
Qed.

(** A refused size leaves the generator alone. *)
Lemma nn_Linear_raise (i o : Z) (g : torch_rng) (e : exn) :
  check_size [o; i] = Raise e -> nn_Linear i o g = (g, Raise e).
Proof.
  intros H. unfold nn_Linear. erewrite bind_raise; [reflexivity|].
  unfold lift. rewrite H. reflexivity.
Qed.

Lemma nn_Linear_raise_bias (i o : Z) (g : torch_rng) (e : exn) :
  check_size [o; i] = Ok tt -> check_size [o] = Raise e ->
  nn_Linear i o g = (g, Raise e).
Proof.
  intros Hw Hb. unfold nn_Linear.
  erewrite bind_ok by (unfold lift; rewrite Hw; reflexivity).
  erewrite bind_raise; [reflexivity|].
  unfold lift. rewrite Hb. reflexivity.
Qed.

Lemma chain_fits_cons (a b : Z) (rest : list Z) :
  chain_fits (a :: b :: rest) <-> linear_fits a b /\ chain_fits (b :: rest).
Proof. reflexivity. Qed.

Lemma chain_fits_app_l (l l' : list Z) : chain_fits (l ++ l') -> chain_fits l.
Proof.
  induction l as [|a [|b l] IH]; intros H; try exact I.
  cbn [app] in H. apply chain_fits_cons in H. apply chain_fits_cons.
  split; [apply H | apply IH; apply H].
Qed.

Lemma chain_fits_snoc (l : list Z) (z last : Z) :
  chain_fits (l ++ [z; last]) <-> chain_fits (l ++ [z]) /\ linear_fits z last.
Proof.
  induction l as [|a [|b l] IH].
  - cbn. tauto.
  - cbn [app] in *. rewrite !chain_fits_cons. cbn. tauto.
  - change ((a :: b :: l) ++ [z; last]) with (a :: b :: (l ++ [z; last])).
    change ((a :: b :: l) ++ [z]) with (a :: b :: (l ++ [z])).
    rewrite !chain_fits_cons.
    change (b :: l ++ [z; last]) with ((b :: l) ++ [z; last]).
    change (b :: l ++ [z]) with ((b :: l) ++ [z]).
    rewrite IH. tauto.
Qed.

(** Widths small enough for every layer. *)
Lemma chain_fits_small (dims : list Z) :
  Forall (fun d => 0 <= d < 2 ^ 30) dims -> chain_fits dims.
Proof.
  induction dims as [|a [|b l] IH]; intros H; try exact I.
  inversion H as [|? ? Ha Hrest]; subst.
  inversion Hrest as [|? ? Hb _]; subst.
  apply chain_fits_cons. split; [|apply IH; exact Hrest].
  unfold linear_fits. repeat split; try lia.
  apply Z.le_lt_trans with (m := 2 ^ 30 * 2 ^ 30); [|lia].
  apply Z.mul_le_mono_nonneg; lia.
Qed.

(** The hidden layers made by the list comprehension, read off the part
    of [lst] that starts at position [length pre]. *)
Lemma hidden_layers_sig (last : Z) :
  forall (rest pre : list Z) (a : Z) (g g' : torch_rng) (mid : list (list layer)),
    let lst := pre ++ a :: rest in
    map_M (fun idim =>
             a <- lift (list_getitem lst idim) ;;
             b <- lift (list_getitem lst (idim + 1)) ;;
             l <- nn_Linear a b ;;
             ret [LinearLayer l; ReLU])
          (map Z.of_nat (seq (length pre) (length rest))) g = (g', Ok mid) ->
    forall hl, list_getitem lst (-1) = Ok hl ->
    map layer_signature (concat mid) ++ [SigLinear hl last cpu] =
    mlp_sig (a :: rest ++ [last]) cpu.
Proof.
  induction rest as [|b rest IH]; intros pre a g g' mid lst Hmid hl Hl.
  - simpl in Hmid. inversion Hmid; subst. simpl.
    unfold lst in Hl. rewrite list_getitem_last in Hl. inversion Hl. reflexivity.
  - simpl in Hmid.
    apply bind_ok_inv in Hmid. destruct Hmid as (y & g1 & Hy & Hmid).
    apply bind_ok_inv in Hmid. destruct Hmid as (ys & g2 & Hys & Hmid).
    inversion Hmid; subst. clear Hmid.
    apply bind_ok_inv in Hy. destruct Hy as (a' & s1 & Ha & Hy).
    apply lift_ok_inv in Ha. destruct Ha as [-> Ha].
    apply bind_ok_inv in Hy. destruct Hy as (b' & s2 & Hb & Hy).
    apply lift_ok_inv in Hb. destruct Hb as [-> Hb].
    apply bind_ok_inv in Hy. destruct Hy as (l & s3 & Hlin & Hy).
    inversion Hy; subst. clear Hy.
    unfold lst in Ha. rewrite list_getitem_middle in Ha. inversion Ha; subst a'.
    assert (Hb' : list_getitem lst (Z.of_nat (length pre) + 1) = Ok b).
    { unfold lst.
      replace (pre ++ a :: b :: rest) with ((pre ++ [a]) ++ b :: rest)
        by (rewrite <- app_assoc; reflexivity).
      replace (Z.of_nat (length pre) + 1) with (Z.of_nat (length (pre ++ [a])))
        by (rewrite length_app; simpl; lia).
      apply list_getitem_middle. }
    rewrite Hb' in Hb. inversion Hb; subst b'.
    destruct (nn_Linear_ok_inv _ _ _ Hlin) as (Ei & Eo & Ed & _).
    specialize (IH (pre ++ [a]) b g1 g' ys).
    replace ((pre ++ [a]) ++ b :: rest) with lst in IH
      by (unfold lst; rewrite <- app_assoc; reflexivity).
    replace (length (pre ++ [a])) with (S (length pre)) in IH
      by (rewrite length_app; simpl; lia).
    specialize (IH Hys hl Hl).
    simpl. rewrite Ei, Eo, Ed.
    change (mlp_sig (a :: b :: rest ++ [last]) cpu)
      with (match rest ++ [last] with
            | [] => [SigLinear a b cpu]
            | _ => SigLinear a b cpu :: SigReLU :: mlp_sig (b :: rest ++ [last]) cpu
            end).
    destruct (rest ++ [last]) eqn:E.
    + destruct rest; discriminate.
    + rewrite IH. reflexivity.
Qed.

End ConstructorFacts.

Section ConstructorResults.

Context {SC : Scalar} {LB : Library}.

Lemma hidden_layers_ok :
  forall (rest pre : list Z) (a : Z) (g : torch_rng),
    chain_fits (a :: rest) ->
    let lst := pre ++ a :: rest in
    exists g' mid,
      map_M (fun idim =>
               a <- lift (list_getitem lst idim) ;;
               b <- lift (list_getitem lst (idim + 1)) ;;
               l <- nn_Linear a b ;;
               ret [LinearLayer l; ReLU])
            (map Z.of_nat (seq (length pre) (length rest))) g = (g', Ok mid).
Proof.
  induction rest as [|b rest IH]; intros pre a g Hpos lst.
  - simpl. unfold ret. eauto.
  - apply chain_fits_cons in Hpos. destruct Hpos as [Hab Hrest].
    destruct (nn_Linear_ok g Hab) as (g1 & l & Hl).
    destruct (IH (pre ++ [a]) b g1 Hrest) as (g' & ys & Hys).
    replace ((pre ++ [a]) ++ b :: rest) with lst in Hys
      by (unfold lst; rewrite <- app_assoc; reflexivity).
    replace (length (pre ++ [a])) with (S (length pre)) in Hys
      by (rewrite length_app; simpl; lia).
    exists g', ([LinearLayer l; ReLU] :: ys).
    cbn [map_M seq map length].
    assert (Hb' : list_getitem lst (Z.of_nat (length pre) + 1) = Ok b).
    { unfold lst.
      replace (pre ++ a :: b :: rest) with ((pre ++ [a]) ++ b :: rest)
        by (rewrite <- app_assoc; reflexivity).
      replace (Z.of_nat (length pre) + 1) with (Z.of_nat (length (pre ++ [a])))
        by (rewrite length_app; simpl; lia).
      apply list_getitem_middle. }
    erewrite bind_ok; [erewrite bind_ok; [reflexivity | exact Hys] |].
    erewrite bind_ok
      by (unfold lift, lst; rewrite list_getitem_middle; reflexivity).
    erewrite bind_ok by (unfold lift; rewrite Hb'; reflexivity).
    erewrite bind_ok by exact Hl. reflexivity.
Qed.

Lemma range_as_seq (lst : list Z) (h : Z) :
  range (py_len (h :: lst) - 1) = map Z.of_nat (seq 0 (length lst)).
Proof.
  unfold range, py_len. f_equal. f_equal. simpl length. lia.
Qed.

Lemma last_of_nonempty (h : Z) (t : list Z) :
  exists pre z, h :: t = pre ++ [z].
Proof.
  destruct (@exists_last _ (h :: t)) as (pre & z & E); [discriminate|].
  eauto.
Qed.

Lemma build_layers_sig (first last : Z) (lst : list Z) (g g' : torch_rng)
      (layers : list layer) :
  build_layers first lst last g = (g', Ok layers) ->
  lst <> [] /\
  map layer_signature layers = mlp_sig (first :: lst ++ [last]) cpu.
Proof.
  unfold build_layers. intros H.
  apply bind_ok_inv in H. destruct H as (h0 & s0 & Hh0 & H).
  apply lift_ok_inv in Hh0. destruct Hh0 as [-> Hh0].
  destruct lst as [|h t].
  { rewrite list_getitem_nil in Hh0. discriminate. }
  split; [discriminate|].
  rewrite list_getitem_head in Hh0. inversion Hh0; subst h0.
  apply bind_ok_inv in H. destruct H as (l0 & g1 & Hl0 & H).
  apply bind_ok_inv in H. destruct H as (mid & g2 & Hmid & H).
  apply bind_ok_inv in H. destruct H as (hl & s3 & Hhl & H).
  apply lift_ok_inv in Hhl. destruct Hhl as [-> Hhl].
  apply bind_ok_inv in H. destruct H as (ll & g3 & Hll & H).
  inversion H; subst. clear H.
  rewrite range_as_seq in Hmid.
  pose proof (hidden_layers_sig last t [] h g1 Hmid Hhl) as Hsig.
  destruct (nn_Linear_ok_inv _ _ _ Hl0) as (Ei & Eo & Ed & _).
  destruct (nn_Linear_ok_inv _ _ _ Hll) as (Ei' & Eo' & Ed' & _).
  rewrite concat_app. cbn [map]. rewrite map_app. cbn [concat map app layer_signature].
  rewrite Ei, Eo, Ed, Ei', Eo', Ed'.
  change (mlp_sig (first :: (h :: t) ++ [last]) cpu)
    with (match t ++ [last] with
          | [] => [SigLinear first h cpu]
          | _ => SigLinear first h cpu :: SigReLU :: mlp_sig (h :: t ++ [last]) cpu
          end).
  destruct (t ++ [last]) eqn:E.
  - destruct t; discriminate.
  - rewrite Hsig. reflexivity.
Qed.

Lemma build_layers_ok (first last : Z) (lst : list Z) (g : torch_rng) :
  lst <> [] -> chain_fits (first :: lst ++ [last]) ->
  exists g' layers, build_layers first lst last g = (g', Ok layers).
Proof.
  intros Hne Hfit. destruct lst as [|h t]; [congruence|].
  change (first :: (h :: t) ++ [last]) with (first :: h :: (t ++ [last])) in Hfit.
  apply chain_fits_cons in Hfit. destruct Hfit as [Hfh Hrest].
  change (h :: t ++ [last]) with ((h :: t) ++ [last]) in Hrest.
  destruct (nn_Linear_ok g Hfh) as (g1 & l0 & Hl0).
  destruct (@hidden_layers_ok t [] h g1 (chain_fits_app_l _ _ Hrest))
    as (g2 & mid & Hmid).
  destruct (last_of_nonempty h t) as (pre & z & E).
  assert (Hz : linear_fits z last).
  { rewrite E, <- app_assoc in Hrest. cbn [app] in Hrest.
    apply chain_fits_snoc in Hrest. apply Hrest. }
  destruct (nn_Linear_ok g2 Hz) as (g3 & ll & Hll).
  exists g3. eexists.
  unfold build_layers.
  erewrite bind_ok by (unfold lift; rewrite list_getitem_head; reflexivity).
  erewrite bind_ok by exact Hl0.
  rewrite range_as_seq.
  erewrite bind_ok by exact Hmid.
  erewrite bind_ok
    by (unfold lift; rewrite E, list_getitem_last; reflexivity).
  erewrite bind_ok by exact Hll. reflexivity.
Qed.

Lemma sig_out_mlp (d : device) (last : Z) :
  forall (lst : list Z) (first : Z),
    sig_out (mlp_sig (first :: lst ++ [last]) d) d first = Some last.
Proof.
  induction lst as [|h t IH]; intros first.
  - simpl. rewrite device_eqb_refl, Z.eqb_refl. reflexivity.
  - change (mlp_sig (first :: (h :: t) ++ [last]) d)
      with (match t ++ [last] with
            | [] => [SigLinear first h d]
            | _ => SigLinear first h d :: SigReLU :: mlp_sig (h :: t ++ [last]) d
            end).
    destruct (t ++ [last]) eqn:E.
    + destruct t; discriminate.
    + cbn [sig_out]. rewrite device_eqb_refl, Z.eqb_refl.
      cbn [andb]. apply IH.
Qed.

Lemma mlp_sig_linear_count (d : device) :
  forall (dims : list Z) (a : Z),
    length (filter is_linear (mlp_sig (a :: dims) d)) = length dims.
Proof.
  induction dims as [|b rest IH]; intros a.
  - reflexivity.
  - destruct rest as [|c rest'].
    + reflexivity.
    + change (mlp_sig (a :: b :: c :: rest') d)
        with (SigLinear a b d :: SigReLU :: mlp_sig (b :: c :: rest') d).
      simpl filter. simpl length. f_equal. apply (IH b).
Qed.

Lemma AE_init_inv (i lat : Z) (enc dec : list Z) (g g' : torch_rng) (ae : AE) :
  AE_init i lat enc dec g = (g', Ok ae) ->
  in_dim ae = i /\ out_dim ae = i /\
  map layer_signature (enc_model ae) = mlp_sig (i :: enc ++ [lat]) cpu /\
  map layer_signature (dec_model ae) = mlp_sig (lat :: dec ++ [i]) cpu.
Proof.
  unfold AE_init. intros H.
  apply bind_ok_inv in H. destruct H as (el & g1 & Hel & H).
  apply bind_ok_inv in H. destruct H as (dl & g2 & Hdl & H).
  inversion H; subst. clear H. simpl.
  apply build_layers_sig in Hel. apply build_layers_sig in Hdl.
  destruct Hel as [_ Hel]. destruct Hdl as [_ Hdl]. auto.
Qed.

Lemma AE_init_ok (i lat : Z) (enc dec : list Z) (g : torch_rng) :
  enc <> [] -> dec <> [] ->
  chain_fits (i :: enc ++ [lat]) -> chain_fits (lat :: dec ++ [i]) ->
  exists g' ae, AE_init i lat enc dec g = (g', Ok ae).
Proof.
  intros He Hd Henc Hdec. unfold AE_init.
  destruct (@build_layers_ok i lat enc g He Henc) as (g1 & el & Hel).
  destruct (@build_layers_ok lat i dec g1 Hd Hdec) as (g2 & dl & Hdl).
  exists g2. eexists.
  unfold bind at 1. rewrite Hel. unfold bind at 1. rewrite Hdl. reflexivity.
Qed.

Lemma AE_init_model_ok (i lat : Z) (enc dec : list Z) (g g' : torch_rng) (ae : AE) :
  AE_init i lat enc dec g = (g', Ok ae) -> model_ok ae cpu = true.
Proof.
  intros H. destruct (AE_init_inv _ _ _ _ _ H) as (Ei & _ & Eenc & Edec).
  unfold model_ok. rewrite Eenc, Edec, Ei, sig_out_mlp, sig_out_mlp.
  apply Z.eqb_refl.
Qed.

End ConstructorResults.

(** ** Loss buffers *)

Section BufferFacts.

Context {SC : Scalar}.

Lemma list_set_length {A : Type} (l : list A) :
  forall (i : nat) (a : A), length (list_set l i a) = length l.
Proof.
  induction l as [|x l IH]; intros [|i] a; simpl; auto.
Qed.

Lemma list_set_nth_same {A : Type} (l : list A) :
  forall (i : nat) (a d : A), (i < length l)%nat -> nth i (list_set l i a) d = a.
Proof.
  induction l as [|x l IH]; intros [|i] a d H; simpl in *; try lia; auto.
  apply IH. lia.
Qed.

Lemma list_set_nth_other {A : Type} (l : list A) :
  forall (i j : nat) (a d : A), i <> j -> nth j (list_set l i a) d = nth j l d.
Proof.
  induction l as [|x l IH]; intros [|i] [|j] a d H; simpl; auto; try lia.
Qed.

Lemma zeros_vector (n : Z) (d : device) (t : tensor) :
  zeros n d = Ok t ->
  0 <= n /\ vector_of n t /\ t_device t = d /\ n < 2 ^ 61 /\
  t = mkTensor [n] (repeat s_zero (Z.to_nat n)) d.
Proof.
  unfold zeros. destruct (check_size [n]) as [[]|e] eqn:E; [|discriminate].
  cbn [rbind]. intros H. injection H as <-.
  apply check_size_ok in E. destruct E as [E Hs].
  rewrite prod_sizes_cons in Hs. change (prod_sizes []) with 1 in Hs.
  inversion E as [|? ? Hn _]; subst.
  repeat split; try lia. cbn [t_data]. apply repeat_length.
Qed.

Lemma zeros_ok (n : Z) (d : device) :
  0 <= n < 2 ^ 61 -> zeros n d = Ok (mkTensor [n] (repeat s_zero (Z.to_nat n)) d).
Proof.
  intros H. unfold zeros.
  rewrite (proj2 (check_size_ok [n])); [reflexivity|].
  rewrite prod_sizes_cons. change (prod_sizes []) with 1.
  split; [repeat constructor; lia | lia].
Qed.

(** Every way [torch.zeros] refuses a length. *)
Lemma zeros_raise (n : Z) (d : device) :
  (n < - 2 ^ 63 \/ 2 ^ 63 <= n -> zeros n d = Raise TypeError) /\
  (- 2 ^ 63 <= n < 0 \/ 2 ^ 61 <= n < 2 ^ 63 -> zeros n d = Raise RuntimeError).
Proof.
  unfold zeros. split; intros H.
  - rewrite (@check_size_overflow [n] n) by (auto; left; reflexivity).
    reflexivity.
  - destruct H as [H|H].
    + rewrite (@check_size_negative [n] n);
        [reflexivity | repeat constructor; lia | left; reflexivity | lia].
    + rewrite (@check_size_storage [n]); [reflexivity | repeat constructor; lia |].
      rewrite prod_sizes_cons. change (prod_sizes []) with 1. lia.
Qed.

Lemma setitem_inv (t t' : tensor) (i : Z) (v : scalar) :
  setitem t i v = Ok t' ->
  exists n, t_size t = [n] /\ t_size t' = [n] /\
            t_device t' = t_device t /\
            (i < 0 -> 0 <= i + n) /\ (0 <= i -> i < n) /\
            t_data t' =
              list_set (t_data t) (Z.to_nat (if i <? 0 then i + n else i)) v.
Proof.
  unfold setitem. destruct (t_size t) as [|n [|m rest]]; try discriminate.
  cbv zeta. destruct (i <? 0) eqn:Ei.
  - destruct ((i + n <? 0) || (n <=? i + n)) eqn:E; [discriminate|].
    apply orb_false_iff in E. destruct E as [E1 E2].
    apply Z.ltb_ge in E1. apply Z.leb_gt in E2. apply Z.ltb_lt in Ei.
    intros H. inversion H; subst. exists n. simpl. repeat split; lia.
  - destruct ((i <? 0) || (n <=? i)) eqn:E; [discriminate|].
    apply orb_false_iff in E. destruct E as [E1 E2].
    apply Z.leb_gt in E2. apply Z.ltb_ge in Ei.
    intros H. inversion H; subst. exists n. simpl. repeat split; lia.
Qed.

Lemma setitem_ok (t : tensor) (n i : Z) (v : scalar) :
  t_size t = [n] -> 0 <= i < n -> exists t', setitem t i v = Ok t'.
Proof.
  intros Hs Hi. unfold setitem. rewrite Hs. cbv zeta.
  replace (i <? 0) with false by (symmetry; apply Z.ltb_ge; lia).
  cbv iota.
  replace (i <? 0) with false by (symmetry; apply Z.ltb_ge; lia).
  replace (n <=? i) with false by (symmetry; apply Z.leb_gt; lia).
  simpl. eauto.
Qed.

(** Writing entry [e] of a vector: the entry is the value written, the
    others are kept. *)
Lemma setitem_vector (n e : Z) (t t' : tensor) (v : scalar) :
  vector_of n t -> 0 <= e -> setitem t e v = Ok t' ->
  e < n /\ vector_of n t' /\ t_device t' = t_device t /\
  nth (Z.to_nat e) (t_data t') s_zero = v /\
  forall e', 0 <= e' -> e' <> e ->
             nth (Z.to_nat e') (t_data t') s_zero = nth (Z.to_nat e') (t_data t) s_zero.
Proof.
  intros [Hs Hl] He H.
  destruct (setitem_inv _ _ _ H) as (m & Hm & Hm' & Hd & _ & Hlt & Hdata).
  rewrite Hs in Hm. inversion Hm; subst m.
  specialize (Hlt He).
  replace (e <? 0) with false in Hdata by (symmetry; apply Z.ltb_ge; lia).
  split; [exact Hlt|]. split.
  { split; [exact Hm'|]. rewrite Hdata, list_set_length. exact Hl. }
  split; [exact Hd|]. split.
  - rewrite Hdata. apply list_set_nth_same. lia.
  - intros e' He' Hne. rewrite Hdata. apply list_set_nth_other. lia.
Qed.

Lemma getitem_vector (n e : Z) (t : tensor) :
  vector_of n t -> 0 <= e < n ->
  getitem t e = Ok (nth (Z.to_nat e) (t_data t) s_zero).
Proof.
  intros [Hs _] He. unfold getitem. rewrite Hs. cbv zeta.
  replace (e <? 0) with false by (symmetry; apply Z.ltb_ge; lia).
  cbv iota.
  replace (e <? 0) with false by (symmetry; apply Z.ltb_ge; lia).
  replace (n <=? e) with false by (symmetry; apply Z.leb_gt; lia).
  reflexivity.
Qed.

Lemma getitem_inv (e : Z) (t : tensor) (v : scalar) :
  getitem t e = Ok v -> 0 <= e ->
  v = nth (Z.to_nat e) (t_data t) s_zero.
Proof.
  unfold getitem. destruct (t_size t) as [|n [|m rest]]; try discriminate.
  cbv zeta. intros H He.
  replace (e <? 0) with false in H by (symmetry; apply Z.ltb_ge; lia).
  cbv iota in H.
  destruct ((e <? 0) || (n <=? e)); [discriminate|]. inversion H. reflexivity.
Qed.

End BufferFacts.

(** ** Code that leaves the process state alone *)

Lemma silent_bind {S A B : Type} (m : M S A) (k : A -> M S B) :
  silent m -> (forall a, silent (k a)) -> silent (bind m k).
Proof.
  intros Hm Hk s. unfold bind. specialize (Hm s).
  destruct (m s) as [s1 [a|e]]; simpl in Hm; subst s1.
  - apply Hk.
  - reflexivity.
Qed.

Lemma silent_lift {S A : Type} (r : result A) : silent (@lift S A r).
Proof. intros s. reflexivity. Qed.

Lemma silent_ret {S A : Type} (a : A) : silent (@ret S A a).
Proof. intros s. reflexivity. Qed.

Lemma silent_raise {S A : Type} (e : exn) : silent (@raise S A e).
Proof. intros s. reflexivity. Qed.

Lemma silent_gets {S A : Type} (f : S -> A) : silent (gets f).
Proof. intros s. reflexivity. Qed.

Create HintDb silent.

#[local] Hint Resolve silent_lift silent_ret silent_raise silent_gets : silent.

(** Shows that code made of reads, pure calls and raises is silent. *)
Ltac silent_steps :=
  repeat match goal with
         | |- silent (bind _ _) => apply silent_bind; [|intro]
         | |- silent (match ?x with _ => _ end) => destruct x
         | |- silent _ => solve [auto with silent]
         end.

Section EvaluationFacts.

Context {SC : Scalar} {LB : Library}.

Lemma no_grad_block_silent (dataset : tensor) (dev : device)
      (val_dataset : option tensor) (loc : locals) (epoch : Z) :
  silent (no_grad_block dataset dev val_dataset loc epoch).
Proof. unfold no_grad_block. silent_steps. Qed.

End EvaluationFacts.

(** ** One epoch, step by step *)

(** Splits a hypothesis that says a sequence of statements ran to the end
    into one hypothesis per statement. *)
Ltac monad_inv H :=
  lazymatch type of H with
  | bind _ _ _ = (_, Ok _) =>
      let a := fresh "a" in
      let s := fresh "s" in
      let H1 := fresh "Hm" in
      apply bind_ok_inv in H; destruct H as (a & s & H1 & H);
      monad_inv H1; monad_inv H
  | lift _ _ = (?s', Ok _) =>
      let E := fresh "E" in
      apply lift_ok_inv in H; destruct H as [E H]; subst s'
  | ret _ _ = (?s', Ok ?a) =>
      unfold ret in H; injection H; clear H; intros; try subst s'; try subst a
  | gets _ _ = (?s', Ok ?a) =>
      unfold gets in H; injection H; clear H; intros; try subst s'; try subst a
  | raise _ _ = (_, Ok _) => discriminate H
  | set_net _ _ = (?s', Ok _) =>
      unfold set_net, modify in H; injection H; clear H; intros; try subst s'
  | print _ _ = (?s', Ok _) =>
      unfold print, modify in H; injection H; clear H; intros; try subst s'
  | _ => idtac
  end.

Section StepFacts.

Context {SC : Scalar} {LB : Library}.

Variable dataset : tensor.
Variable dev : device.
Variable val_dataset : option tensor.
Variable batch_size : Z.

Lemma batch_step_inv (loc loc' : locals) (b : tensor) (w w' : world) :
  batch_step dev batch_size loc b w = (w', Ok loc') ->
  stdout w' = stdout w /\
  net w' = snd (backward_step (optim loc) (net w) (tensor_to b dev)) /\
  full_mse_loss loc' = full_mse_loss loc /\
  full_val_loss loc' = full_val_loss loc /\
  g_seed loc' = g_seed loc /\
  i loc' = i loc + 1 /\
  exists loss, setitem (mse_loss loc) (i loc) loss = Ok (mse_loss loc').
Proof.
  unfold batch_step. intros H.
  apply bind_ok_inv in H. destruct H as (ae & s0 & Hae & H). monad_inv Hae.
  apply bind_ok_inv in H. destruct H as (rec & s1 & Hrec & H). monad_inv Hrec.
  apply bind_ok_inv in H. destruct H as (inp & s2 & Hinp & H). monad_inv Hinp.
  apply bind_ok_inv in H. destruct H as (tgt & s3 & Htgt & H). monad_inv Htgt.
  apply bind_ok_inv in H. destruct H as (loss & s4 & Hloss & H). monad_inv Hloss.
  destruct (backward_step (optim loc) (net w) (tensor_to b dev)) as [o' ae'] eqn:Eb.
  monad_inv H. simpl.
  repeat split; try reflexivity. eauto.
Qed.

Lemma batches_inv (batches : list tensor) :
  forall (loc loc' : locals) (w w' : world),
    for_each (batch_step dev batch_size) batches loc w = (w', Ok loc') ->
    stdout w' = stdout w /\
    full_mse_loss loc' = full_mse_loss loc /\
    full_val_loss loc' = full_val_loss loc /\
    g_seed loc' = g_seed loc /\
    i loc' = i loc + Z.of_nat (length batches) /\
    t_size (mse_loss loc') = t_size (mse_loss loc) /\
    (batches <> [] -> 0 <= i loc ->
     exists n, t_size (mse_loss loc) = [n] /\ i loc' <= n).
Proof.
  induction batches as [|b rest IH]; intros loc loc' w w' H.
  - simpl in H. monad_inv H. repeat split; try (simpl; lia). congruence.
  - simpl in H. apply bind_ok_inv in H. destruct H as (loc1 & w1 & Hb & H).
    apply batch_step_inv in Hb.
    destruct Hb as (Ho & _ & Hf & Hv & Hg & Hi & loss & Hset).
    apply IH in H. destruct H as (Ho' & Hf' & Hv' & Hg' & Hi' & Hs' & Hbound).
    destruct (setitem_inv _ _ _ Hset) as (n & Hn & Hn' & _ & _ & Hlt & _).
    repeat split; try congruence.
    + rewrite Hi', Hi. simpl length. lia.
    + intros _ Hpos. exists n. split; [exact Hn|].
      destruct rest as [|b' rest'].
      * rewrite Hi', Hi. simpl. specialize (Hlt Hpos). lia.
      * destruct Hbound as (m & Hm & Hle); [discriminate | lia |].
        rewrite Hn' in Hm. inversion Hm; subst m. exact Hle.
Qed.

Lemma no_grad_block_inv (loc loc' : locals) (epoch : Z) (w w' : world) :
  no_grad_block dataset dev val_dataset loc epoch w = (w', Ok loc') ->
  w' = w /\
  optim loc' = optim loc /\ g_seed loc' = g_seed loc /\
  mse_loss loc' = mse_loss loc /\ i loc' = i loc /\
  (exists floss,
      dataset_loss (net w) dataset dev = Ok floss /\
      setitem (full_mse_loss loc) epoch floss = Ok (full_mse_loss loc')) /\
  match val_dataset with
  | None => full_val_loss loc' = full_val_loss loc
  | Some v =>
      exists val_loss fvl fvl',
        dataset_loss (net w) v dev = Ok val_loss /\
        full_val_loss loc = Some fvl /\
        setitem fvl epoch val_loss = Ok fvl' /\
        full_val_loss loc' = Some fvl'
  end.
Proof.
  intros H.
  assert (Hw : w' = w).
  { pose proof (no_grad_block_silent dataset dev val_dataset loc epoch w) as Hs.
    rewrite H in Hs. exact Hs. }
  subst w'. split; [reflexivity|].
  unfold no_grad_block in H.
  apply bind_ok_inv in H. destruct H as (ae & s0 & Hae & H). monad_inv Hae.
  apply bind_ok_inv in H. destruct H as (rec & s1 & Hrec & H). monad_inv Hrec.
  apply bind_ok_inv in H. destruct H as (n & s2 & Hn & H). monad_inv Hn.
  apply bind_ok_inv in H. destruct H as (inp & s3 & Hinp & H). monad_inv Hinp.
  apply bind_ok_inv in H. destruct H as (tgt & s4 & Htgt & H). monad_inv Htgt.
  apply bind_ok_inv in H. destruct H as (floss & s5 & Hfl & H). monad_inv Hfl.
  apply bind_ok_inv in H. destruct H as (fm & s6 & Hfm & H). monad_inv Hfm.
  assert (Hloss : dataset_loss (net w) dataset dev = Ok floss).
  { unfold dataset_loss. cbv zeta. rewrite Hrec. simpl. rewrite Hn. simpl.
    rewrite Hinp. simpl. rewrite Htgt. simpl. exact Hfl. }
  destruct val_dataset as [v|].
  - apply bind_ok_inv in H. destruct H as (ae & s0 & Hae & H). monad_inv Hae.
    apply bind_ok_inv in H. destruct H as (vrec & s1 & Hvrec & H). monad_inv Hvrec.
    apply bind_ok_inv in H. destruct H as (m & s2 & Hm & H). monad_inv Hm.
    apply bind_ok_inv in H. destruct H as (vinp & s3 & Hvinp & H). monad_inv Hvinp.
    apply bind_ok_inv in H. destruct H as (vtgt & s4 & Hvtgt & H). monad_inv Hvtgt.
    apply bind_ok_inv in H. destruct H as (vloss & s5 & Hvl & H). monad_inv Hvl.
    destruct (full_val_loss loc) as [fvl|] eqn:Efvl; [|discriminate H].
    apply bind_ok_inv in H. destruct H as (fvl' & s6 & Hset & H). monad_inv Hset.
    monad_inv H. simpl.
    repeat split; try reflexivity.
    + exists floss. auto.
    + exists vloss, fvl, fvl'. repeat split; try assumption.
      unfold dataset_loss. cbv zeta. rewrite Hvrec. simpl. rewrite Hm. simpl.
      rewrite Hvinp. simpl. rewrite Hvtgt. simpl. exact Hvl.
  - monad_inv H. simpl. repeat split; try reflexivity.
    exists floss. auto.
Qed.

Lemma report_inv (loc : locals) (epoch : Z) (w w' : world) (u : unit) :
  report val_dataset loc epoch w = (w', Ok u) ->
  0 <= epoch ->
  (val_dataset = None -> full_val_loss loc = None) ->
  net w' = net w /\
  stdout w' = stdout w ++
              progress_lines (full_mse_loss loc) (full_val_loss loc) epoch.
Proof.
  unfold report, progress_lines, train_line, val_line. intros H He Hnone.
  destruct (epoch mod 10 =? 0).
  - apply bind_ok_inv in H. destruct H as (v & s0 & Hv & H). monad_inv Hv.
    apply bind_ok_inv in H. destruct H as (u0 & s1 & Hp & H). monad_inv Hp.
    apply getitem_inv in Hv; [|exact He]. subst v.
    destruct val_dataset as [vd|].
    + destruct (full_val_loss loc) as [fvl|]; [|discriminate H].
      apply bind_ok_inv in H. destruct H as (v & s2 & Hv & H). monad_inv Hv.
      monad_inv H. apply getitem_inv in Hv; [|exact He]. subst v.
      simpl. rewrite <- app_assoc. auto.
    + monad_inv H. rewrite (Hnone eq_refl). simpl. auto.
  - monad_inv H. rewrite app_nil_r. auto.
Qed.

End StepFacts.

(** ** Batches *)

Section BatchFacts.

Lemma batch_sampler_count (bs : nat) :
  (0 < bs)%nat ->
  forall (sampler batch : list nat),
    (length batch < bs)%nat ->
    Z.of_nat (length (batch_sampler bs batch sampler)) =
    (Z.of_nat (length batch) + Z.of_nat (length sampler) + Z.of_nat bs - 1)
      / Z.of_nat bs.
Proof.
  intros Hbs. induction sampler as [|idx rest IH]; intros batch Hlt.
  - destruct batch as [|a batch'].
    + simpl. symmetry. apply Z.div_small. lia.
    + cbn [batch_sampler].
      apply Z.div_unique with (r := Z.of_nat (length (a :: batch')) - 1).
      * left. simpl length in *. lia.
      * simpl length. lia.
  - cbn [batch_sampler].
    destruct (Nat.eqb_spec (length (batch ++ [idx])) bs) as [E|E].
    + simpl length at 1. rewrite Nat2Z.inj_succ, IH by (simpl; lia).
      rewrite length_app in E. simpl in E.
      replace (Z.of_nat (length batch) + Z.of_nat (length (idx :: rest))
               + Z.of_nat bs - 1)
        with (1 * Z.of_nat bs + (Z.of_nat (@length nat []) + Z.of_nat (length rest)
                                  + Z.of_nat bs - 1))
        by (simpl length; lia).
      rewrite Z.div_add_l by lia. lia.
    + rewrite length_app in E. simpl in E.
      rewrite IH by (rewrite length_app; simpl; lia).
      f_equal. rewrite length_app. simpl length. lia.
Qed.

(** When the examples divide evenly, every batch is full. *)
Lemma batch_sampler_full (bs : nat) :
  (0 < bs)%nat ->
  forall (sampler batch : list nat),
    (length batch < bs)%nat ->
    (exists q, length batch + length sampler = q * bs)%nat ->
    Forall (fun b => length b = bs) (batch_sampler bs batch sampler).
Proof.
  intros Hbs. induction sampler as [|idx rest IH]; intros batch Hlt [q Hq].
  - destruct batch as [|a batch']; [constructor|].
    exfalso. simpl length in *. destruct q; simpl in Hq; [lia|nia].
  - cbn [batch_sampler].
    destruct (Nat.eqb_spec (length (batch ++ [idx])) bs) as [E|E].
    + constructor; [exact E|]. apply IH; [simpl; lia|].
      rewrite length_app in E. simpl in E. simpl length in *.
      destruct q as [|q']; [lia|]. exists q'. simpl in Hq. lia.
    + rewrite length_app in E. simpl in E.
      apply IH; [rewrite length_app; simpl; lia|].
      exists q. rewrite length_app. simpl length in *. lia.
Qed.

Lemma num_batches_covers (n bs : Z) :
  0 < bs -> n <= num_batches n bs * bs.
Proof.
  intros Hbs. unfold num_batches.
  pose proof (Z.mul_succ_div_gt (n + bs - 1) bs Hbs). nia.
Qed.

Lemma num_batches_exact (n bs q : Z) :
  0 < bs -> n = q * bs -> num_batches n bs = q.
Proof.
  intros Hbs ->. unfold num_batches. symmetry.
  apply Z.div_unique with (r := bs - 1); lia.
Qed.

End BatchFacts.

Section LoaderFacts.

Context {SC : Scalar} {LB : Library}.

Lemma randperm_length (g : generator) (n : nat) : length (fst (randperm g n)) = n.
Proof.
  rewrite (Permutation_length (randperm_perm g n)). apply length_seq.
Qed.

Lemma loader_iter_count (ds : tensor) (n bs : Z) (g : generator) :
  0 <= n -> 0 < bs ->
  Z.of_nat (length (fst (loader_iter (mkLoader ds n bs) g))) = num_batches n bs.
Proof.
  intros Hn Hbs. unfold loader_iter. simpl.
  pose proof (randperm_length g (Z.to_nat n)) as Hlen.
  destruct (randperm g (Z.to_nat n)) as [perm g']. simpl in *.
  rewrite length_map, batch_sampler_count by (simpl; lia).
  unfold num_batches. rewrite Hlen. simpl length. f_equal; lia.
Qed.

(** Every batch of an evenly divided data set has [batch_size] examples of
    the data set's shape, on the data set's device. *)
Lemma loader_iter_full (ds : tensor) (n bs q : Z) (g : generator) :
  0 <= n -> 0 < bs -> n = q * bs ->
  Forall (fun b => t_size b = bs :: tl (t_size ds) /\ t_device b = t_device ds)
         (fst (loader_iter (mkLoader ds n bs) g)).
Proof.
  intros Hn Hbs Hq. unfold loader_iter. simpl.
  pose proof (randperm_length g (Z.to_nat n)) as Hlen.
  destruct (randperm g (Z.to_nat n)) as [perm g']. simpl in *.
  assert (Hfull : Forall (fun b => length b = Z.to_nat bs)
                         (batch_sampler (Z.to_nat bs) [] perm)).
  { apply batch_sampler_full; [lia | simpl; lia |].
    exists (Z.to_nat q). simpl. rewrite Hlen. nia. }
  apply Forall_map. eapply Forall_impl; [|exact Hfull].
  intros b Hb. unfold collate, py_len. simpl. rewrite Hb.
  split; [f_equal; lia | reflexivity].
Qed.

End LoaderFacts.

(** ** The loop over epochs *)

Section RunFacts.

Context {SC : Scalar} {LB : Library}.

Variable dataset : tensor.
Variable dev : device.
Variable val_dataset : option tensor.
Variables epochs batch_size n : Z.

Hypothesis n_pos : 0 < n.
Hypothesis batch_size_pos : 0 < batch_size.

Let loader : loader_t := mkLoader dataset n batch_size.

Lemma epoch_body_inv (loc loc' : locals) (e : Z) (w w' : world) :
  epoch_body dataset dev val_dataset batch_size loader loc e w = (w', Ok loc') ->
  0 <= e ->
  vector_of epochs (full_mse_loss loc) ->
  val_matches epochs val_dataset (full_val_loss loc) ->
  i loc' = i loc + num_batches n batch_size /\
  t_size (mse_loss loc') = t_size (mse_loss loc) /\
  (0 <= i loc -> exists N, t_size (mse_loss loc) = [N] /\ i loc' <= N) /\
  e < epochs /\
  vector_of epochs (full_mse_loss loc') /\
  val_matches epochs val_dataset (full_val_loss loc') /\
  dataset_loss (net w') dataset dev =
    Ok (nth (Z.to_nat e) (t_data (full_mse_loss loc')) s_zero) /\
  (forall e', 0 <= e' -> e' <> e ->
              nth (Z.to_nat e') (t_data (full_mse_loss loc')) s_zero =
              nth (Z.to_nat e') (t_data (full_mse_loss loc)) s_zero) /\
  val_step dev val_dataset loc loc' e (net w') /\
  stdout w' = stdout w ++
              progress_lines (full_mse_loss loc') (full_val_loss loc') e.
Proof.
  intros H He Hvec Hval. unfold epoch_body in H.
  pose proof (loader_iter_count dataset (g_seed loc) (Z.lt_le_incl _ _ n_pos)
                                batch_size_pos) as Hcount.
  fold loader in Hcount.
  destruct (loader_iter loader (g_seed loc)) as [batches g'] eqn:Eit.
  simpl in Hcount.
  apply bind_ok_inv in H. destruct H as (loc1 & w1 & Hb & H).
  apply bind_ok_inv in H. destruct H as (loc2 & w2 & Hn & H).
  apply bind_ok_inv in H. destruct H as (u & w3 & Hr & H).
  unfold ret in H. injection H as E1 E2. subst w3 loc2.
  apply batches_inv in Hb. simpl in Hb.
  destruct Hb as (Ho1 & Hf1 & Hv1 & _ & Hi1 & Hs1 & Hbound).
  apply no_grad_block_inv in Hn.
  destruct Hn as (-> & _ & _ & Hm2 & Hi2 & (floss & Hfl & Hset) & Hvd).
  rewrite Hf1 in Hset.
  destruct (setitem_vector _ Hvec He Hset) as (Hlt & Hvec' & _ & Hnth & Hkept).
  assert (Hval' : val_matches epochs val_dataset (full_val_loss loc')).
  { unfold val_matches in *. destruct val_dataset as [v|].
    - destruct Hvd as (vl & fvl & fvl' & _ & E1 & E2 & E3).
      rewrite Hv1 in E1. rewrite E1 in Hval. rewrite E3.
      destruct (setitem_vector _ Hval He E2) as (_ & Hv' & _). exact Hv'.
    - rewrite Hvd, Hv1. exact Hval. }
  apply report_inv in Hr; [|exact He|].
  2:{ intros Hnone. unfold val_matches in Hval'. rewrite Hnone in Hval'.
      destruct (full_val_loss loc'); [contradiction | reflexivity]. }
  destruct Hr as [Hnet Hout].
  assert (Hnb : 1 <= num_batches n batch_size).
  { pose proof (num_batches_covers n batch_size_pos). nia. }
  split; [rewrite Hi2, Hi1, Hcount; reflexivity|].
  split; [rewrite Hm2; exact Hs1|].
  split.
  { intros Hpos. destruct Hbound as (N & HN & Hle); [|exact Hpos|].
    - intros ->. simpl in Hcount. lia.
    - exists N. split; [exact HN | rewrite Hi2; exact Hle]. }
  split; [exact Hlt|]. split; [exact Hvec'|]. split; [exact Hval'|].
  split; [rewrite Hnet, Hfl, Hnth; reflexivity|].
  split; [exact Hkept|].
  split.
  - unfold val_step. unfold val_matches in Hval. destruct val_dataset as [v|].
    + destruct Hvd as (vl & fvl & fvl' & Hvl & E1 & E2 & E3).
      rewrite Hv1 in E1. rewrite E1 in Hval.
      destruct (setitem_vector _ Hval He E2) as (_ & _ & _ & Hvn & Hvk).
      exists fvl, fvl'. repeat split; try assumption.
      rewrite Hnet, Hvl, Hvn. reflexivity.
    + rewrite Hvd, Hv1. destruct (full_val_loss loc); [contradiction|reflexivity].
  - rewrite Hout, Ho1. reflexivity.
Qed.

End RunFacts.

Section SetupFacts.

Context {SC : Scalar} {LB : Library}.

Lemma setup_inv (G : globals) (dataset : tensor) (dev : device)
      (val_dataset : option tensor) (epochs batch_size seed : Z)
      (w w1 : world) (loader : loader_t) (loc0 : locals) :
  setup G dataset dev val_dataset epochs batch_size seed w = (w1, Ok (loader, loc0)) ->
  exists D n,
    DEVICE G = Some D /\
    w1 = mkWorld (stdout w) (AE_to (net w) D) /\
    tensor_len dataset = Ok n /\ 0 < n /\ 0 < batch_size /\ 0 <= epochs /\
    loader = mkLoader dataset n batch_size /\
    i loc0 = 0 /\
    vector_of (epochs * n / batch_size) (mse_loss loc0) /\
    vector_of epochs (full_mse_loss loc0) /\
    val_matches epochs val_dataset (full_val_loss loc0) /\
    g_seed loc0 = manual_seed seed /\
    optim loc0 = Adam (AE_to (net w) D) /\
    - 2 ^ 63 <= seed < 2 ^ 64.
Proof.
  unfold setup. intros H.
  apply bind_ok_inv in H. destruct H as (D & s0 & HD & H). monad_inv HD.
  apply bind_ok_inv in H. destruct H as (ae & s1 & Hae & H). monad_inv Hae.
  apply bind_ok_inv in H. destruct H as (u & s2 & Hset & H).
  unfold set_net, modify in Hset. injection Hset as E1 E2. subst s2.
  apply bind_ok_inv in H. destruct H as (ae' & s3 & Hae' & H).
  unfold gets in Hae'. injection Hae' as E3 E4. subst s3 ae'. cbn [net] in H.
  apply bind_ok_inv in H. destruct H as (gs & s3 & Hgs & H). monad_inv Hgs.
  assert (Hseed : - 2 ^ 63 <= seed < 2 ^ 64 /\ gs = manual_seed seed).
  { unfold seed_generator in Hgs.
    destruct (Z.ltb_spec seed (- 2 ^ 63)); [discriminate|].
    destruct (Z.leb_spec (2 ^ 64) seed); [discriminate|].
    cbn [orb] in Hgs. injection Hgs as <-. split; [lia | reflexivity]. }
  destruct Hseed as [Hseed ->].
  apply bind_ok_inv in H. destruct H as (ld & s4 & Hld & H). monad_inv Hld.
  apply bind_ok_inv in H. destruct H as (n & s5 & Hn & H). monad_inv Hn.
  apply bind_ok_inv in H. destruct H as (m & s6 & Hm & H). monad_inv Hm.
  apply bind_ok_inv in H. destruct H as (f & s7 & Hf & H). monad_inv Hf.
  apply bind_ok_inv in H. destruct H as (fv & s8 & Hfv & H).
  unfold ret in H. injection H as E5 E6 E7. subst s8 loader loc0.
  unfold read_DEVICE in HD. destruct (DEVICE G) as [D'|] eqn:ED; [|discriminate].
  injection HD as ->.
  unfold DataLoader in Hld. rewrite Hn in Hld. simpl in Hld.
  destruct (n <=? 0) eqn:En; [discriminate|].
  destruct (batch_size <=? 0) eqn:Eb; [discriminate|].
  injection Hld as <-.
  apply Z.leb_gt in En, Eb.
  destruct (zeros_vector _ _ Hm) as (_ & Hmv & _).
  destruct (zeros_vector _ _ Hf) as (Hep & Hfvec & _).
  assert (Hval : val_matches epochs val_dataset fv /\
                 w1 = mkWorld (stdout w) (AE_to (net w) D)).
  { destruct val_dataset as [v|].
    - apply bind_ok_inv in Hfv. destruct Hfv as (t & s9 & Ht & Hfv).
      monad_inv Ht. unfold ret in Hfv. injection Hfv as E8 E9. subst w1 fv.
      destruct (zeros_vector _ _ Ht) as (_ & Hv & _). simpl. auto.
    - unfold ret in Hfv. injection Hfv as E8 E9. subst w1 fv. simpl. auto. }
  destruct Hval as [Hval ->].
  exists D, n. simpl. repeat split; auto; try apply Hmv; try apply Hfvec; lia.
Qed.

(** The histories the set-up creates are filled with zeros. *)
Lemma setup_histories (G : globals) (dataset : tensor) (dev : device)
      (val_dataset : option tensor) (epochs batch_size seed : Z)
      (w w1 : world) (loader : loader_t) (loc0 : locals) :
  setup G dataset dev val_dataset epochs batch_size seed w = (w1, Ok (loader, loc0)) ->
  let z := mkTensor [epochs] (repeat s_zero (Z.to_nat epochs)) dev in
  full_mse_loss loc0 = z /\ full_val_loss loc0 = option_map (fun _ => z) val_dataset.
Proof.
  unfold setup. intros H.
  apply bind_ok_inv in H. destruct H as (D & s0 & HD & H). monad_inv HD.
  apply bind_ok_inv in H. destruct H as (ae & s1 & Hae & H). monad_inv Hae.
  apply bind_ok_inv in H. destruct H as (u & s2 & Hset & H).
  apply bind_ok_inv in H. destruct H as (ae' & s3 & Hae' & H).
  apply bind_ok_inv in H. destruct H as (gs & s4 & Hgs & H).
  apply bind_ok_inv in H. destruct H as (ld & s5 & Hld & H).
  apply bind_ok_inv in H. destruct H as (n & s6 & Hn & H).
  apply bind_ok_inv in H. destruct H as (m & s7 & Hm & H).
  apply bind_ok_inv in H. destruct H as (f & s8 & Hf & H). monad_inv Hf.
  apply bind_ok_inv in H. destruct H as (fv & s9 & Hfv & H).
  unfold ret in H. injection H as E5 E6 E7. subst loc0.
  destruct (zeros_vector _ _ Hf) as (_ & _ & _ & _ & ->).
  cbn [full_mse_loss full_val_loss]. split; [reflexivity|].
  destruct val_dataset as [v|].
  - apply bind_ok_inv in Hfv. destruct Hfv as (t & sa & Ht & Hfv).
    monad_inv Ht. unfold ret in Hfv. injection Hfv as E8 E9. subst fv.
    destruct (zeros_vector _ _ Ht) as (_ & _ & _ & _ & ->). reflexivity.
  - unfold ret in Hfv. injection Hfv as E8 E9. subst fv. reflexivity.
Qed.

End SetupFacts.

Lemma flat_map_same_on {A B : Type} (f g : A -> list B) (l : list A) :
  (forall a, In a l -> f a = g a) -> flat_map f l = flat_map g l.
Proof.
  induction l as [|a l IH]; intros H; simpl.
  - reflexivity.
  - rewrite (H a) by (left; reflexivity). f_equal.
    apply IH. intros b Hb. apply H. right. exact Hb.
Qed.

Section LoopFacts.

Context {SC : Scalar} {LB : Library}.

Lemma epochs_loop_inv (dataset : tensor) (dev : device)
      (val_dataset : option tensor) (epochs batch_size n N : Z)
      (loc0 : locals) (w0 : world) :
  0 < n -> 0 < batch_size ->
  i loc0 = 0 ->
  t_size (mse_loss loc0) = [N] ->
  vector_of epochs (full_mse_loss loc0) ->
  val_matches epochs val_dataset (full_val_loss loc0) ->
  let loader := mkLoader dataset n batch_size in
  let run k := epochs_loop dataset dev val_dataset batch_size loader loc0 k w0 in
  forall (k : nat) (w : world) (loc : locals),
    run (Z.of_nat k) = (w, Ok loc) ->
    i loc = Z.of_nat k * num_batches n batch_size /\
    t_size (mse_loss loc) = [N] /\
    ((1 <= k)%nat -> Z.of_nat k * num_batches n batch_size <= N /\
                     Z.of_nat k <= epochs) /\
    vector_of epochs (full_mse_loss loc) /\
    val_matches epochs val_dataset (full_val_loss loc) /\
    stdout w = stdout w0 ++
               flat_map (progress_lines (full_mse_loss loc) (full_val_loss loc))
                        (range (Z.of_nat k)) /\
    (forall e, 0 <= e < Z.of_nat k ->
               snapshot dataset dev val_dataset batch_size loader loc0 w0 loc e).
Proof.
  intros n_pos batch_size_pos i_start mse_start full_start val_start loader run.
  induction k as [|k IH]; intros w loc H.
  - unfold run, epochs_loop in H. simpl in H. unfold ret in H.
    injection H as E1 E2. subst w loc.
    rewrite i_start. simpl. rewrite app_nil_r.
    repeat split; auto; try lia; apply full_start.
  - assert (Hrun : run (Z.of_nat (S k)) =
                   bind (fun s => run (Z.of_nat k))
                        (fun l => epoch_body dataset dev val_dataset batch_size
                                             loader l (Z.of_nat k)) w0).
    { unfold run, epochs_loop.
      replace (Z.of_nat (S k)) with (Z.of_nat k + 1) by lia.
      rewrite range_succ by lia. rewrite for_each_app.
      unfold bind. destruct (for_each _ (range (Z.of_nat k)) loc0 w0) as [s [l|e]];
        [|reflexivity].
      simpl. unfold bind. destruct (epoch_body _ _ _ _ _ _ _ _) as [s' [l'|e']];
        reflexivity. }
    rewrite Hrun in H. unfold bind in H.
    destruct (run (Z.of_nat k)) as [wk [lock|e]] eqn:Ek; [|discriminate].
    destruct (IH wk lock eq_refl) as (Hi & Hs & Hb & Hvec & Hval & Hout & Hsnap).
    destruct (epoch_body_inv dataset dev val_dataset n_pos batch_size_pos lock
                             wk H (Nat2Z.is_nonneg k) Hvec Hval)
      as (Hi' & Hs' & Hbound & Hlt & Hvec' & Hval' & Hloss & Hkept & Hvstep & Hout').
    split; [rewrite Hi', Hi; lia|].
    split; [rewrite Hs'; exact Hs|].
    split.
    { intros _. destruct Hbound as (N' & HN' & Hle).
      - rewrite Hi. pose proof (num_batches_covers n batch_size_pos). nia.
      - rewrite Hs in HN'. injection HN' as <-.
        rewrite Hi', Hi in Hle. lia. }
    split; [exact Hvec'|]. split; [exact Hval'|].
    assert (Hvkept :
              forall e, 0 <= e < Z.of_nat k ->
                match val_dataset with
                | None => full_val_loss loc = None /\ full_val_loss lock = None
                | Some _ =>
                    exists fvl fvl',
                      full_val_loss lock = Some fvl /\ full_val_loss loc = Some fvl' /\
                      nth (Z.to_nat e) (t_data fvl') s_zero =
                      nth (Z.to_nat e) (t_data fvl) s_zero
                end).
    { intros e He. unfold val_step in Hvstep. unfold val_matches in Hval.
      destruct val_dataset as [v|].
      - destruct Hvstep as (fvl & fvl' & E1 & E2 & _ & Hk).
        exists fvl, fvl'. repeat split; try assumption. apply Hk; lia.
      - split; [exact Hvstep|].
        destruct (full_val_loss lock); [contradiction|reflexivity]. }
    split.
    { rewrite Hout', Hout.
      replace (Z.of_nat (S k)) with (Z.of_nat k + 1) by lia.
      rewrite range_succ by lia. rewrite flat_map_app. simpl flat_map.
      rewrite app_nil_r, <- app_assoc. f_equal. f_equal.
      apply flat_map_same_on. intros e He. apply in_range in He.
      unfold progress_lines, train_line, val_line. rewrite (Hkept e) by lia.
      specialize (Hvkept e He). destruct val_dataset as [v|].
      - destruct Hvkept as (fvl & fvl' & -> & -> & ->). reflexivity.
      - destruct Hvkept as [-> ->]. reflexivity. }
    intros e He.
    destruct (Z.eq_dec e (Z.of_nat k)) as [->|Hne].
    + exists w, loc. split.
      { replace (Z.of_nat k + 1) with (Z.of_nat (S k)) by lia.
        fold (run (Z.of_nat (S k))).
        rewrite Hrun. unfold bind. exact H. }
      split; [exact Hloss|].
      unfold val_step in Hvstep. destruct val_dataset as [v|]; [|exact I].
      destruct Hvstep as (fvl & fvl' & _ & E2 & Hl & _).
      exists fvl'. auto.
    + destruct (Hsnap e) as (w_e & loc_e & Hre & Hle & Hve); [lia|].
      exists w_e, loc_e. split; [exact Hre|].
      split; [rewrite (Hkept e) by lia; exact Hle|].
      specialize (Hvkept e ltac:(lia)). destruct val_dataset as [v|]; [|exact I].
      destruct Hve as (fvl0 & Ef0 & Hl0).
      destruct Hvkept as (fvl & fvl' & E1 & E2 & E3).
      rewrite Ef0 in E1. injection E1 as <-.
      exists fvl'. split; [exact E2|]. rewrite E3. exact Hl0.
Qed.

End LoopFacts.

(** ** The whole driver *)

Section DriverFacts.

Context {SC : Scalar} {LB : Library}.

(** The loop starts once the progress bar has shown itself. *)
Lemma run_epochs_eq (dataset : tensor) (dev : device)
      (val_dataset : option tensor) (epochs batch_size : Z)
      (loader : loader_t) (loc : locals) (k : Z) (w : world) :
  run_epochs dataset dev val_dataset epochs batch_size loader loc k w
  = epochs_loop dataset dev val_dataset batch_size loader loc k
                (mkWorld (stdout w ++ [trange_line epochs]) (net w)).
Proof. reflexivity. Qed.

(** Everything a completed call tells about the run. *)
Lemma train_autoencoder_inv (G : globals) (dataset : tensor) (dev : device)
      (val_dataset : option tensor) (epochs batch_size seed : Z)
      (w w' : world) (tr : tensor) (val : option tensor) :
  train_autoencoder G dataset dev val_dataset epochs batch_size seed w
    = (w', Ok (tr, val)) ->
  exists D n loc0 wE locE,
    let w0 := mkWorld (stdout w) (AE_to (net w) D) in
    let w1 := mkWorld (stdout w ++ [trange_line epochs]) (AE_to (net w) D) in
    let loader := mkLoader dataset n batch_size in
    DEVICE G = Some D /\
    tensor_len dataset = Ok n /\ 0 < n /\ 0 < batch_size /\ 0 <= epochs /\
    setup G dataset dev val_dataset epochs batch_size seed w
      = (w0, Ok (loader, loc0)) /\
    i loc0 = 0 /\
    vector_of (epochs * n / batch_size) (mse_loss loc0) /\
    vector_of epochs (full_mse_loss loc0) /\
    val_matches epochs val_dataset (full_val_loss loc0) /\
    epochs_loop dataset dev val_dataset batch_size loader loc0 epochs w1
      = (wE, Ok locE) /\
    w' = mkWorld (stdout wE) (AE_to (net wE) cpu) /\
    tr = tensor_to (full_mse_loss locE) cpu /\
    val = option_map (fun t => tensor_to t cpu) (full_val_loss locE).
Proof.
  unfold train_autoencoder. intros H.
  apply bind_ok_inv in H. destruct H as ([loader loc0] & w1 & Hsetup & H).
  apply bind_ok_inv in H. destruct H as (locE & wE & Hrun & H).
  apply bind_ok_inv in H. destruct H as (ae & s1 & Hae & H).
  unfold gets in Hae. injection Hae as Ea1 Ea2. subst s1 ae.
  apply bind_ok_inv in H. destruct H as (u & s2 & Hset & H).
  unfold set_net, modify in Hset. injection Hset as Eb1 Eb2. subst s2.
  apply bind_ok_inv in H. destruct H as (vm & s3 & Hvm & H).
  unfold ret in H. injection H as Ec1 Ec2 Ec3. subst w' tr val.
  pose proof (setup_inv _ _ _ _ _ _ _ _ Hsetup) as Hinv.
  destruct Hinv as (D & n & HD & -> & Hn & Hnpos & Hbpos & Hep & -> & Hi0 &
                    Hmse & Hfml & Hval & _ & _).
  assert (Hend : val_matches epochs val_dataset (full_val_loss locE)).
  { assert (HN : t_size (mse_loss loc0) = [epochs * n / batch_size]) by apply Hmse.
    pose proof (@epochs_loop_inv _ _ dataset dev val_dataset _ _ _ _ loc0
                  (mkWorld (stdout w ++ [trange_line epochs]) (AE_to (net w) D))
                  Hnpos Hbpos Hi0 HN Hfml Hval (Z.to_nat epochs) wE locE) as Hr.
    cbv zeta in Hr. rewrite Z2Nat.id in Hr by exact Hep.
    rewrite run_epochs_eq in Hrun. apply Hr in Hrun. tauto. }
  assert (Hvm' : vm = option_map (fun t => tensor_to t cpu) (full_val_loss locE)
                 /\ s3 = mkWorld (stdout wE) (AE_to (net wE) cpu)).
  { unfold val_matches in Hend. destruct val_dataset as [v|].
    - destruct (full_val_loss locE) as [fvl|]; [|contradiction].
      unfold ret in Hvm. injection Hvm as Ed1 Ed2. subst s3 vm. auto.
    - destruct (full_val_loss locE) as [fvl|]; [contradiction|].
      unfold ret in Hvm. injection Hvm as Ed1 Ed2. subst s3 vm. auto. }
  destruct Hvm' as [-> ->].
  exists D, n, loc0, wE, locE. cbv zeta.
  repeat split; try assumption; try apply Hmse; try apply Hfml.
Qed.

(** The facts of [epochs_loop_inv] for a completed call. *)
Lemma train_autoencoder_run (G : globals) (dataset : tensor) (dev : device)
      (val_dataset : option tensor) (epochs batch_size seed : Z)
      (w w' : world) (tr : tensor) (val : option tensor) :
  train_autoencoder G dataset dev val_dataset epochs batch_size seed w
    = (w', Ok (tr, val)) ->
  exists n,
    tensor_len dataset = Ok n /\ 0 < n /\ 0 < batch_size /\ 0 <= epochs /\
    ((1 <= epochs) ->
       epochs * num_batches n batch_size <= epochs * n / batch_size) /\
    vector_of epochs tr /\ t_device tr = cpu /\
    match val_dataset with
    | None => val = None
    | Some _ => exists vt, val = Some vt /\ vector_of epochs vt /\ t_device vt = cpu
    end /\
    stdout w' = stdout w ++ trange_line epochs
                  :: flat_map (progress_lines tr val) (range epochs) /\
    (forall e, 0 <= e < epochs ->
       exists w_e loc_e,
         train_prefix G dataset dev val_dataset epochs batch_size seed (e + 1) w
           = (w_e, Ok loc_e) /\
         dataset_loss (net w_e) dataset dev
           = Ok (nth (Z.to_nat e) (t_data tr) s_zero) /\
         match val_dataset, val with
         | Some v, Some vt =>
             dataset_loss (net w_e) v dev = Ok (nth (Z.to_nat e) (t_data vt) s_zero)
         | _, _ => True
         end).
Proof.
  intros H. apply train_autoencoder_inv in H.
  destruct H as (D & n & loc0 & wE & locE & H). cbv zeta in H.
  destruct H as (HD & Hn & Hnpos & Hbpos & Hep & Hsetup & Hi0 & Hmse & Hfml &
                 Hval & Hrun & -> & -> & ->).
  assert (HN : t_size (mse_loss loc0) = [epochs * n / batch_size]) by apply Hmse.
  pose proof (@epochs_loop_inv _ _ dataset dev val_dataset _ _ _ _ loc0
                (mkWorld (stdout w ++ [trange_line epochs]) (AE_to (net w) D))
                Hnpos Hbpos Hi0 HN Hfml Hval (Z.to_nat epochs) wE locE) as Hr.
  cbv zeta in Hr. rewrite Z2Nat.id in Hr by exact Hep.
  destruct (Hr Hrun) as (Hi & Hs & Hb & Hvec & Hvm & Hout & Hsnap).
  exists n. split; [exact Hn|]. split; [exact Hnpos|]. split; [exact Hbpos|].
  split; [exact Hep|]. split; [|split; [|split; [|split; [|split]]]].
  - intros H1. apply Hb. lia.
  - apply tensor_to_vector. exact Hvec.
  - apply tensor_to_device.
  - unfold val_matches in Hvm. destruct val_dataset as [v|].
    + destruct (full_val_loss locE) as [fvl|]; [|contradiction].
      exists (tensor_to fvl cpu). split; [reflexivity|].
      split; [apply tensor_to_vector; exact Hvm|apply tensor_to_device].
    + destruct (full_val_loss locE); [contradiction|reflexivity].
  - simpl. rewrite Hout. simpl. rewrite <- app_assoc. simpl. do 2 f_equal.
    apply flat_map_same_on. intros e _. unfold progress_lines, train_line.
    rewrite tensor_to_data.
    destruct (full_val_loss locE); simpl; unfold val_line;
      rewrite ?tensor_to_data; reflexivity.
  - intros e He. destruct (Hsnap e He) as (w_e & loc_e & Hre & Hle & Hve).
    exists w_e, loc_e. split.
    { unfold train_prefix. erewrite bind_ok by exact Hsetup.
      cbv beta iota. rewrite run_epochs_eq. exact Hre. }
    rewrite tensor_to_data. split; [exact Hle|].
    destruct val_dataset as [v|]; [|exact I].
    destruct Hve as (fvl & -> & Hl). simpl. rewrite tensor_to_data. exact Hl.
Qed.

End DriverFacts.

(** ** Runs that complete *)

Section SuccessFacts.

Context {SC : Scalar} {LB : Library}.

Lemma model_ok_signature (ae ae' : AE) (d : device) :
  signature ae' = signature ae -> model_ok ae' d = model_ok ae d.
Proof.
  unfold signature, model_ok. intros H. injection H as E1 E2 E3 E4.
  rewrite E1, E3, E4. reflexivity.
Qed.

Lemma sig_out_to (d0 D : device) (layers : list layer) :
  forall k k',
    sig_out (map layer_signature layers) d0 k = Some k' ->
    sig_out (map layer_signature (map (layer_to D) layers)) D k = Some k'.
Proof.
  induction layers as [|ly rest IH]; intros k k' H; simpl in *.
  - exact H.
  - destruct ly as [l|]; simpl in *.
    + destruct (device_eqb d0 (l_device l)); [|discriminate].
      destruct (k =? in_features l); [|discriminate].
      rewrite device_eqb_refl. simpl in *. apply IH. exact H.
    + apply IH. exact H.
Qed.

Lemma model_ok_to (ae : AE) (d0 D : device) :
  model_ok ae d0 = true -> model_ok (AE_to ae D) D = true.
Proof.
  intros H. destruct (model_ok_inv _ _ H) as (lat & Henc & Hdec).
  unfold model_ok, AE_to. simpl.
  rewrite (sig_out_to d0 D _ _ Henc), (sig_out_to d0 D _ _ Hdec).
  apply Z.eqb_refl.
Qed.

Lemma backward_step_ok (o : optim_state) (ae : AE) (b : tensor) (d : device) :
  model_ok ae d = true ->
  model_ok (snd (backward_step o ae b)) d = true /\
  in_dim (snd (backward_step o ae b)) = in_dim ae.
Proof.
  intros H. pose proof (backward_step_signature o ae b) as Hsig. split.
  - rewrite (model_ok_signature d Hsig). exact H.
  - unfold signature in Hsig. injection Hsig as E1 _ _ _. exact E1.
Qed.

(** Laying the elements of a contiguous tensor out in [b] rows. *)
Lemma view_in_rows (t : tensor) (b : Z) :
  contiguous t -> t_size t <> [] ->
  Forall (fun d => 0 <= d) (t_size t) ->
  0 < b -> numel t mod b = 0 ->
  view t [b; -1]
  = Ok (mkStrided [b; numel t / b] (row_major [b; numel t / b])
                  (t_data t) (t_dtype t) (t_device t)).
Proof.
  intros Hc Hne Hsz Hb Hmod.
  assert (Hnum : numel t = b * (numel t / b)).
  { pose proof (Z.div_mod (numel t) b). lia. }
  assert (H0 : 0 <= numel t) by (apply prod_sizes_nonneg; exact Hsz).
  assert (Hq : 0 <= numel t / b) by (apply Z.div_pos; lia).
  apply view_contiguous; try assumption.
  - rewrite Hnum at 1. apply infer_size_rows. exact Hb.
  - repeat constructor; lia.
  - rewrite !prod_sizes_cons. change (prod_sizes []) with 1. lia.
Qed.


Lemma view_rows_eq (t : tensor) (b : Z) :
  - 2 ^ 63 <= b < 2 ^ 63 -> view_rows t b = view t [b; -1].
Proof.
  intros Hb. unfold view_rows.
  rewrite (proj2 (int64_range_spec b)) by exact Hb. reflexivity.
Qed.

(** Reconstructing a batch of [m] examples and comparing it with the batch,
    both laid out in [b] rows. *)
Lemma reconstruction_loss_ok (ae : AE) (x : tensor) (m b : Z) :
  model_ok ae (t_device x) = true ->
  batch_of m (in_dim ae) x ->
  0 < b -> (m * in_dim ae) mod b = 0 ->
  exists y input target v,
    forward ae x = Ok y /\
    view y [b; -1] = Ok input /\ view x [b; -1] = Ok target /\
    loss_fn input target = Ok v.
Proof.
  intros Hok (rest & Hsz & Hm & Hrest & Hprod & Hc & Hty) Hb Hmod.
  destruct (forward_ok ae Hok Hty Hc Hsz Hm Hrest Hprod)
    as (y & Hy & Hys & Hyd & Hyt & Hyc).
  assert (Hnum : numel x = m * in_dim ae).
  { unfold numel. rewrite Hsz, prod_sizes_cons, Hprod. reflexivity. }
  assert (Hnn : Forall (fun d => 0 <= d) (t_size x)).
  { rewrite Hsz. constructor; [lia | exact Hrest]. }
  assert (Hvx : view x [b; -1]
                = Ok (mkStrided [b; numel x / b] (row_major [b; numel x / b])
                                (t_data x) (t_dtype x) (t_device x))).
  { apply view_in_rows; try assumption.
    - rewrite Hsz. discriminate.
    - rewrite Hnum. exact Hmod. }
  assert (Hvy : view y [b; -1]
                = Ok (mkStrided [b; numel x / b] (row_major [b; numel x / b])
                                (t_data y) (t_dtype y) (t_device y))).
  { replace (numel x) with (numel y) by (unfold numel; rewrite Hys; reflexivity).
    apply view_in_rows; try assumption.
    - rewrite Hys, Hsz. discriminate.
    - rewrite Hys. exact Hnn.
    - unfold numel. rewrite Hys. fold (numel x). rewrite Hnum. exact Hmod. }
  eexists y, _, _, _. split; [exact Hy|]. split; [exact Hvy|].
  split; [exact Hvx|].
  unfold loss_fn. cbn [t_device t_size t_data].
  rewrite Hyd, device_eqb_refl. cbn [negb].
  destruct (list_eq_dec Z.eq_dec [b; numel x / b] [b; numel x / b])
    as [_|Hne]; [reflexivity | congruence].
Qed.

Lemma data_ok_to (width : Z) (t : tensor) (d : device) :
  data_ok width t ->
  exists n, batch_of n width (tensor_to t d) /\ t_size t = n :: tl (t_size t).
Proof.
  intros (n & rest & Hsz & Hn & Hrest & Hprod & Hc & Hty).
  exists n. split.
  - exists rest. rewrite tensor_to_size, tensor_to_dtype.
    repeat split; try assumption. apply tensor_to_contiguous. exact Hc.
  - rewrite Hsz. reflexivity.
Qed.

Lemma batch_of_to (m width : Z) (t : tensor) (d : device) :
  batch_of m width t -> batch_of m width (tensor_to t d).
Proof.
  intros (rest & Hsz & Hm & Hrest & Hprod & Hc & Hty).
  exists rest. rewrite tensor_to_size, tensor_to_dtype.
  repeat split; try assumption. apply tensor_to_contiguous. exact Hc.
Qed.

Lemma dataset_loss_ok (ae : AE) (data : tensor) (dev : device) :
  model_ok ae dev = true -> data_ok (in_dim ae) data ->
  exists v, dataset_loss ae data dev = Ok v.
Proof.
  intros Hok Hdata.
  destruct (data_ok_to dev Hdata) as (n & Hb & Hsz).
  assert (Hn : 0 < n) by (destruct Hb as (rest & _ & Hn & _); exact Hn).
  rewrite <- (tensor_to_device data dev) in Hok.
  destruct (@reconstruction_loss_ok ae (tensor_to data dev) n n Hok Hb Hn)
    as (y & a & b & v & Hy & Ha & Hb' & Hv).
  { rewrite Z.mul_comm. apply Z.mod_mul. lia. }
  exists v. unfold dataset_loss. cbv zeta. rewrite Hy. cbn [rbind].
  unfold size0. rewrite tensor_to_size, Hsz. cbn [rbind].
  rewrite Ha. cbn [rbind]. rewrite Hb'. cbn [rbind]. exact Hv.
Qed.

Lemma setitem_overrun (t : tensor) (n i : Z) (v : scalar) :
  t_size t = [n] -> 0 <= i -> n <= i -> setitem t i v = Raise IndexError.
Proof.
  intros Hs Hi Hn. unfold setitem. rewrite Hs. cbv zeta.
  replace (i <? 0) with false by (symmetry; apply Z.ltb_ge; lia).
  cbv iota.
  replace (i <? 0) with false by (symmetry; apply Z.ltb_ge; lia).
  replace (n <=? i) with true by (symmetry; apply Z.leb_le; lia).
  reflexivity.
Qed.

Section Steps.

Variable dev : device.
Variable batch_size : Z.
Hypothesis batch_size_range : 0 < batch_size < 2 ^ 63.

(** One step on a batch that fits [batch_size] rows: it completes when the
    step index is inside the buffer and ends in [IndexError] otherwise. *)
Lemma batch_step_run (loc : locals) (b : tensor) (w : world) (N : Z) :
  model_ok (net w) dev = true ->
  fitting_batch batch_size (in_dim (net w)) b ->
  t_size (mse_loss loc) = [N] -> 0 <= i loc ->
  (i loc < N ->
   exists w' loc',
     batch_step dev batch_size loc b w = (w', Ok loc') /\
     model_ok (net w') dev = true /\ in_dim (net w') = in_dim (net w)) /\
  (N <= i loc ->
   batch_step dev batch_size loc b w
   = (mkWorld (stdout w)
              (snd (backward_step (optim loc) (net w) (tensor_to b dev))),
      Raise IndexError)).
Proof.
  intros Hok (m & Hb & Hmod) HN Hi.
  pose proof (batch_of_to dev Hb) as Hb'.
  pose proof Hok as Hok0.
  rewrite <- (tensor_to_device b dev) in Hok.
  destruct (@reconstruction_loss_ok (net w) (tensor_to b dev) m batch_size
                                    Hok Hb' (proj1 batch_size_range) Hmod)
    as (y & inp & tgt & v & Hy & Hinp & Htgt & Hv).
  destruct (@backward_step_ok (optim loc) (net w) (tensor_to b dev) dev Hok0)
    as [Hok' Hin'].
  assert (Hprefix :
            batch_step dev batch_size loc b w
            = (bind (lift (setitem (mse_loss loc) (i loc) v))
                    (fun m' =>
                       ret (mkLocals
                              (fst (backward_step (optim loc) (net w)
                                                  (tensor_to b dev)))
                              (g_seed loc) m' (full_mse_loss loc)
                              (full_val_loss loc) (i loc + 1))))
                (mkWorld (stdout w)
                         (snd (backward_step (optim loc) (net w)
                                             (tensor_to b dev))))).
  { unfold batch_step. cbv zeta.
    erewrite bind_ok by reflexivity.
    erewrite bind_ok by (unfold lift; rewrite Hy; reflexivity).
    erewrite bind_ok
      by (unfold lift; rewrite view_rows_eq by lia; rewrite Hinp; reflexivity).
    erewrite bind_ok
      by (unfold lift; rewrite view_rows_eq by lia; rewrite Htgt; reflexivity).
    erewrite bind_ok by (unfold lift; rewrite Hv; reflexivity).
    destruct (backward_step (optim loc) (net w) (tensor_to b dev)) as [o' ae'].
    erewrite bind_ok by reflexivity. reflexivity. }
  rewrite Hprefix. split.
  - intros Hlt. destruct (setitem_ok (mse_loss loc) v HN (conj Hi Hlt)) as (m' & Hm').
    erewrite bind_ok by (unfold lift; rewrite Hm'; reflexivity).
    eexists _, _. split; [reflexivity|]. simpl. auto.
  - intros Hge.
    erewrite bind_raise
      by (unfold lift; rewrite (setitem_overrun _ v HN Hi Hge); reflexivity).
    reflexivity.
Qed.


Lemma batches_run (batches : list tensor) (N : Z) :
  forall (loc : locals) (w : world),
    model_ok (net w) dev = true ->
    Forall (fitting_batch batch_size (in_dim (net w))) batches ->
    t_size (mse_loss loc) = [N] -> 0 <= i loc <= N ->
    (i loc + Z.of_nat (length batches) <= N ->
     exists w' loc',
       for_each (batch_step dev batch_size) batches loc w = (w', Ok loc') /\
       model_ok (net w') dev = true /\ in_dim (net w') = in_dim (net w)) /\
    (N < i loc + Z.of_nat (length batches) ->
     exists w',
       for_each (batch_step dev batch_size) batches loc w
       = (w', Raise IndexError)).
Proof.
  induction batches as [|b rest IH]; intros loc w Hok Hfit HN Hi.
  - split; [|simpl; lia]. intros _. exists w, loc. simpl. auto.
  - inversion Hfit as [|? ? Hb Hrest]; subst.
    destruct (batch_step_run loc w Hok Hb HN (proj1 Hi)) as [Hgo Hstop].
    destruct (Z_lt_le_dec (i loc) N) as [Hlt|Hge].
    + destruct (Hgo Hlt) as (w1 & loc1 & Hstep & Hok1 & Hin1).
      pose proof (batch_step_inv _ _ _ _ _ Hstep) as Hinv.
      destruct Hinv as (_ & _ & _ & _ & _ & Hi1 & loss & Hset).
      destruct (setitem_inv _ _ _ Hset) as (N' & E1 & E2 & _).
      rewrite HN in E1. injection E1 as <-.
      rewrite <- Hin1 in Hrest.
      destruct (IH loc1 w1 Hok1 Hrest E2) as [Hgo' Hstop']; [lia|].
      cbn [for_each length]. erewrite bind_ok by exact Hstep. split.
      * intros Hle. destruct Hgo' as (w' & loc' & Hrun & Hok' & Hin'); [lia|].
        exists w', loc'. split; [exact Hrun|]. split; [exact Hok'|]. congruence.
      * intros Hgt. apply Hstop'. lia.
    + pose proof (Hstop Hge) as Hstep.
      cbn [for_each length]. split; [lia|]. intros _.
      eexists. apply bind_raise. exact Hstep.
Qed.

End Steps.

End SuccessFacts.

(** ** The batches of one pass *)

Section BatchShapes.

Context {SC : Scalar} {LB : Library}.

(** The batch sampler yields full batches, followed by one shorter batch
    when the indices do not divide evenly. *)
Lemma batch_sampler_split (bs : nat) :
  (0 < bs)%nat ->
  forall (sampler batch : list nat),
    (length batch < bs)%nat ->
    exists fulls tail,
      batch_sampler bs batch sampler = fulls ++ tail /\
      Forall (fun b => length b = bs) fulls /\
      length fulls = ((length batch + length sampler) / bs)%nat /\
      match tail with
      | [] => ((length batch + length sampler) mod bs = 0)%nat
      | [short] =>
          length short = ((length batch + length sampler) mod bs)%nat /\
          (0 < length short)%nat
      | _ => False
      end.
Proof.
  intros Hbs. induction sampler as [|idx rest IH]; intros batch Hlt.
  - cbn [batch_sampler length]. rewrite Nat.add_0_r.
    destruct batch as [|a batch'].
    + exists [], []. split; [reflexivity|]. split; [constructor|].
      simpl length. rewrite Nat.div_small, Nat.mod_small by exact Hbs.
      split; reflexivity.
    + exists [], [a :: batch']. split; [reflexivity|]. split; [constructor|].
      rewrite Nat.div_small, Nat.mod_small by exact Hlt.
      repeat split. simpl. lia.
  - cbn [batch_sampler].
    destruct (Nat.eqb_spec (length (batch ++ [idx])) bs) as [E|E].
    + destruct (IH [] Hbs) as (fulls & tail & Hrun & Hfull & Hlen & Htail).
      exists ((batch ++ [idx]) :: fulls), tail.
      rewrite length_app in E. simpl in E.
      replace (length batch + length (idx :: rest))%nat
        with (length (@nil nat) + length rest + 1 * bs)%nat
        by (simpl length; lia).
      rewrite Nat.div_add, Nat.Div0.mod_add by lia.
      split; [rewrite Hrun; reflexivity|].
      split; [constructor; [rewrite length_app; simpl; lia | exact Hfull]|].
      split; [simpl length in *; lia | exact Htail].
    + rewrite length_app in E. simpl in E.
      destruct (IH (batch ++ [idx])) as (fulls & tail & Hrun & Hfull & Hlen & Htail).
      { rewrite length_app. simpl. lia. }
      exists fulls, tail.
      replace (length batch + length (idx :: rest))%nat
        with (length (batch ++ [idx]) + length rest)%nat
        by (rewrite length_app; simpl length; lia).
      auto.
Qed.

Lemma collate_batch_of (ds : tensor) (width : Z) (batch : list nat) :
  data_ok width ds -> batch <> [] ->
  batch_of (py_len batch) width (collate ds batch).
Proof.
  intros (n & rest & Hsz & Hn & Hrest & Hprod & Hc & Hty) Hne.
  exists rest. unfold collate. cbn [t_size t_dtype]. rewrite Hsz.
  split; [reflexivity|]. split.
  { unfold py_len. destruct batch; [contradiction|simpl length; lia]. }
  repeat split; assumption.
Qed.

(** One pass of the loader: batches of [bs] examples, then one of
    [n mod bs] examples when that is not zero. *)
Lemma loader_iter_split (ds : tensor) (width n bs : Z) (g : generator) :
  data_ok width ds -> 0 <= n -> 0 < bs ->
  exists fulls tail,
    fst (loader_iter (mkLoader ds n bs) g) = fulls ++ tail /\
    Forall (batch_of bs width) fulls /\
    Z.of_nat (length fulls) = n / bs /\
    match tail with
    | [] => n mod bs = 0
    | [short] => batch_of (n mod bs) width short
    | _ => False
    end.
Proof.
  intros Hdata Hn Hbs. unfold loader_iter. cbn [ld_len ld_batch_size ld_dataset].
  pose proof (randperm_length g (Z.to_nat n)) as Hlen.
  destruct (randperm g (Z.to_nat n)) as [perm g']. cbn [fst] in *.
  destruct (@batch_sampler_split (Z.to_nat bs) ltac:(lia) perm [])
    as (fulls & tail & Hrun & Hfull & Hcount & Htail); [simpl; lia|].
  simpl length in Hcount, Htail. rewrite Nat.add_0_l, Hlen in Hcount, Htail.
  assert (Hdiv : Z.of_nat (Z.to_nat n / Z.to_nat bs) = n / bs)
    by (rewrite Nat2Z.inj_div, !Z2Nat.id by lia; reflexivity).
  assert (Hmod : Z.of_nat (Z.to_nat n mod Z.to_nat bs) = n mod bs)
    by (rewrite Nat2Z.inj_mod, !Z2Nat.id by lia; reflexivity).
  exists (map (collate ds) fulls), (map (collate ds) tail).
  rewrite Hrun, map_app, length_map, Hcount, Hdiv.
  split; [reflexivity|]. split; [|split; [reflexivity|]].
  - apply Forall_map. eapply Forall_impl; [|exact Hfull].
    intros b Hb. cbv beta in Hb.
    replace bs with (py_len b) by (unfold py_len; lia).
    apply collate_batch_of; [exact Hdata|].
    intros ->. simpl in Hb. lia.
  - destruct tail as [|short [|]]; cbn [map]; [lia| |contradiction].
    destruct Htail as [Hs Hpos].
    replace (n mod bs) with (py_len short) by (unfold py_len; lia).
    apply collate_batch_of; [exact Hdata|].
    intros ->. simpl in Hpos. lia.
Qed.

(** When the short batch, if there is one, fills [bs] rows, every batch
    does. *)
Lemma loader_iter_fits (ds : tensor) (width n bs : Z) (g : generator) :
  data_ok width ds -> 0 <= n -> 0 < bs ->
  (n mod bs * width) mod bs = 0 ->
  Forall (fitting_batch bs width) (fst (loader_iter (mkLoader ds n bs) g)).
Proof.
  intros Hdata Hn Hbs Hfit.
  destruct (loader_iter_split g Hdata Hn Hbs)
    as (fulls & tail & -> & Hfull & _ & Htail).
  apply Forall_app. split.
  - eapply Forall_impl; [|exact Hfull]. intros b Hb.
    exists bs. split; [exact Hb|]. rewrite Z.mul_comm. apply Z.mod_mul. lia.
  - destruct tail as [|short [|]]; [constructor| |contradiction].
    constructor; [|constructor]. exists (n mod bs). auto.
Qed.

End BatchShapes.

Section EpochSuccess.

Context {SC : Scalar} {LB : Library}.

Variable dataset : tensor.
Variable dev : device.
Variables epochs batch_size : Z.

Lemma no_grad_block_ok (val_dataset : option tensor) (loc : locals) (e : Z)
      (w : world) :
  model_ok (net w) dev = true ->
  data_ok (in_dim (net w)) dataset ->
  optional_data_ok (in_dim (net w)) val_dataset ->
  vector_of epochs (full_mse_loss loc) ->
  val_matches epochs val_dataset (full_val_loss loc) ->
  0 <= e < epochs ->
  exists loc',
    no_grad_block dataset dev val_dataset loc e w = (w, Ok loc') /\
    vector_of epochs (full_mse_loss loc') /\
    val_matches epochs val_dataset (full_val_loss loc').
Proof.
  intros Hok Hdata Hvd Hvec Hval He.
  destruct (data_ok_to dev Hdata) as (n & Hb & Hsz).
  assert (Hn : 0 < n) by (destruct Hb as (rest & _ & Hn & _); exact Hn).
  pose proof Hok as Hok0.
  rewrite <- (tensor_to_device dataset dev) in Hok.
  destruct (@reconstruction_loss_ok _ (net w) (tensor_to dataset dev) n n Hok Hb Hn)
    as (y & inp & tgt & v & Hy & Hinp & Htgt & Hv).
  { rewrite Z.mul_comm. apply Z.mod_mul. lia. }
  destruct (setitem_ok (full_mse_loss loc) v (proj1 Hvec) He) as (f' & Hf').
  destruct (setitem_vector _ Hvec (proj1 He) Hf') as (_ & Hvec' & _).
  unfold no_grad_block. cbv zeta.
  erewrite bind_ok by reflexivity.
  erewrite bind_ok by (unfold lift; rewrite Hy; reflexivity).
  erewrite bind_ok
    by (unfold lift, size0; rewrite tensor_to_size, Hsz; reflexivity).
  erewrite bind_ok by (unfold lift; rewrite Hinp; reflexivity).
  erewrite bind_ok by (unfold lift; rewrite Htgt; reflexivity).
  erewrite bind_ok by (unfold lift; rewrite Hv; reflexivity).
  erewrite bind_ok by (unfold lift; rewrite Hf'; reflexivity).
  unfold val_matches in Hval. destruct val_dataset as [vd|].
  - destruct (data_ok_to dev Hvd) as (m & Hvb & Hvsz).
    assert (Hm : 0 < m) by (destruct Hvb as (rest & _ & Hm & _); exact Hm).
    destruct (full_val_loss loc) as [fvl|] eqn:Efvl; [|contradiction].
    rewrite <- (tensor_to_device vd dev) in Hok0.
    destruct (@reconstruction_loss_ok _ (net w) (tensor_to vd dev) m m Hok0 Hvb Hm)
      as (vy & vinp & vtgt & vv & Hvy & Hvinp & Hvtgt & Hvv).
    { rewrite Z.mul_comm. apply Z.mod_mul. lia. }
    destruct (setitem_ok fvl vv (proj1 Hval) He) as (fv' & Hfv').
    destruct (setitem_vector _ Hval (proj1 He) Hfv') as (_ & Hval' & _).
    erewrite bind_ok by reflexivity.
    erewrite bind_ok by (unfold lift; rewrite Hvy; reflexivity).
    erewrite bind_ok
      by (unfold lift, size0; rewrite tensor_to_size, Hvsz; reflexivity).
    erewrite bind_ok by (unfold lift; rewrite Hvinp; reflexivity).
    erewrite bind_ok by (unfold lift; rewrite Hvtgt; reflexivity).
    erewrite bind_ok by (unfold lift; rewrite Hvv; reflexivity).
    erewrite bind_ok by (unfold lift; rewrite Hfv'; reflexivity).
    eexists. split; [reflexivity|]. simpl. auto.
  - destruct (full_val_loss loc) as [fvl|] eqn:Efvl; [contradiction|].
    eexists. split; [reflexivity|]. simpl. auto.
Qed.

Lemma report_ok (val_dataset : option tensor) (loc : locals) (e : Z) (w : world) :
  vector_of epochs (full_mse_loss loc) ->
  val_matches epochs val_dataset (full_val_loss loc) ->
  0 <= e < epochs ->
  exists w', report val_dataset loc e w = (w', Ok tt) /\ net w' = net w.
Proof.
  intros Hvec Hval He. unfold report.
  destruct (e mod 10 =? 0); [|exists w; auto].
  erewrite bind_ok
    by (unfold lift; rewrite (getitem_vector Hvec He); reflexivity).
  erewrite bind_ok by reflexivity.
  unfold val_matches in Hval. destruct val_dataset as [vd|].
  - destruct (full_val_loss loc) as [fvl|]; [|contradiction].
    erewrite bind_ok
      by (unfold lift; rewrite (getitem_vector Hval He); reflexivity).
    eexists. split; [reflexivity|]. reflexivity.
  - eexists. split; [reflexivity|]. reflexivity.
Qed.

(** One epoch over batches that all fit [batch_size] rows: it completes
    when its steps stay inside the per-step buffer, and ends in
    [IndexError] otherwise. *)
Lemma epoch_body_run (val_dataset : option tensor) (n N : Z)
      (loc : locals) (e : Z) (w : world) :
  0 < batch_size < 2 ^ 63 -> 0 < n ->
  data_ok (in_dim (net w)) dataset ->
  (n mod batch_size * in_dim (net w)) mod batch_size = 0 ->
  optional_data_ok (in_dim (net w)) val_dataset ->
  model_ok (net w) dev = true ->
  t_size (mse_loss loc) = [N] -> 0 <= i loc <= N ->
  vector_of epochs (full_mse_loss loc) ->
  val_matches epochs val_dataset (full_val_loss loc) ->
  0 <= e < epochs ->
  (i loc + num_batches n batch_size <= N ->
   exists w' loc',
     epoch_body dataset dev val_dataset batch_size
                (mkLoader dataset n batch_size) loc e w = (w', Ok loc') /\
     model_ok (net w') dev = true /\ in_dim (net w') = in_dim (net w)) /\
  (N < i loc + num_batches n batch_size ->
   exists w',
     epoch_body dataset dev val_dataset batch_size
                (mkLoader dataset n batch_size) loc e w = (w', Raise IndexError)).
Proof.
  intros Hbs Hn Hdata Hfit Hvd Hok HN Hi Hvec Hval He.
  unfold epoch_body.
  pose proof (loader_iter_count dataset (g_seed loc) (Z.lt_le_incl _ _ Hn)
                                (proj1 Hbs)) as Hcount.
  pose proof (loader_iter_fits (g_seed loc) Hdata (Z.lt_le_incl _ _ Hn)
                               (proj1 Hbs) Hfit) as Hfb.
  destruct (loader_iter (mkLoader dataset n batch_size) (g_seed loc))
    as [batches g'].
  cbn [fst] in Hcount, Hfb.
  set (loc1 := mkLocals (optim loc) g' (mse_loss loc) (full_mse_loss loc)
                        (full_val_loss loc) (i loc)).
  destruct (@batches_run _ _ dev batch_size Hbs batches N loc1 w Hok Hfb HN Hi)
    as [Hgo Hstop].
  rewrite Hcount in Hgo, Hstop. split.
  - intros Hle. destruct (Hgo Hle) as (w1 & loc2 & Hrun & Hok1 & Hin1).
    pose proof (batches_inv _ _ _ _ _ Hrun) as Hinv.
    destruct Hinv as (_ & Hf2 & Hv2 & _).
    simpl in Hf2, Hv2.
    destruct (no_grad_block_ok val_dataset loc2 (e := e) w1 Hok1)
      as (loc3 & Hng & Hvec3 & Hval3);
      [ rewrite Hin1; exact Hdata
      | rewrite Hin1; exact Hvd
      | rewrite Hf2; exact Hvec
      | rewrite Hv2; exact Hval
      | exact He |].
    destruct (report_ok val_dataset loc3 w1 Hvec3 Hval3 He) as (w2 & Hrep & Hnet).
    exists w2, loc3.
    erewrite bind_ok by exact Hrun.
    erewrite bind_ok by exact Hng.
    erewrite bind_ok by exact Hrep.
    split; [reflexivity|]. rewrite Hnet. auto.
  - intros Hgt. destruct (Hstop Hgt) as (w1 & Hrun).
    exists w1. apply bind_raise. exact Hrun.
Qed.


End EpochSuccess.

Section RunSuccess.

Context {SC : Scalar} {LB : Library}.

Lemma epochs_loop_succ (dataset : tensor) (dev : device)
      (val_dataset : option tensor) (batch_size : Z) (loader : loader_t)
      (loc0 : locals) (k : Z) (w0 : world) :
  0 <= k ->
  epochs_loop dataset dev val_dataset batch_size loader loc0 (k + 1) w0 =
  bind (epochs_loop dataset dev val_dataset batch_size loader loc0 k)
       (fun l => epoch_body dataset dev val_dataset batch_size loader l k) w0.
Proof.
  intros Hk. unfold epochs_loop.
  rewrite range_succ by exact Hk. rewrite for_each_app.
  unfold bind. destruct (for_each _ (range k) loc0 w0) as [s [l|e]];
    [|reflexivity].
  simpl. unfold bind. destruct (epoch_body _ _ _ _ _ _ _ _) as [s' [l'|e']];
    reflexivity.
Qed.

Lemma num_batches_pos (n bs : Z) : 0 < n -> 0 < bs -> 1 <= num_batches n bs.
Proof.
  intros Hn Hbs. pose proof (num_batches_covers n Hbs). nia.
Qed.


(** The loop over batches that all fit [batch_size] rows: its first [k]
    rounds complete when their steps stay inside the per-step buffer, and
    end in [IndexError] otherwise. *)
Lemma epochs_loop_run (dataset : tensor) (dev : device)
      (val_dataset : option tensor) (epochs batch_size n N : Z)
      (loc0 : locals) (w0 : world) :
  0 < batch_size < 2 ^ 63 -> 0 < n ->
  data_ok (in_dim (net w0)) dataset ->
  (n mod batch_size * in_dim (net w0)) mod batch_size = 0 ->
  optional_data_ok (in_dim (net w0)) val_dataset ->
  model_ok (net w0) dev = true ->
  i loc0 = 0 -> t_size (mse_loss loc0) = [N] -> 0 <= N ->
  vector_of epochs (full_mse_loss loc0) ->
  val_matches epochs val_dataset (full_val_loss loc0) ->
  forall k : nat,
    Z.of_nat k <= epochs ->
    (Z.of_nat k * num_batches n batch_size <= N ->
     exists w' loc',
       epochs_loop dataset dev val_dataset batch_size
                   (mkLoader dataset n batch_size) loc0 (Z.of_nat k) w0
         = (w', Ok loc') /\
       model_ok (net w') dev = true /\ in_dim (net w') = in_dim (net w0)) /\
    (N < Z.of_nat k * num_batches n batch_size ->
     exists w',
       epochs_loop dataset dev val_dataset batch_size
                   (mkLoader dataset n batch_size) loc0 (Z.of_nat k) w0
         = (w', Raise IndexError)).
Proof.
  intros Hbs Hn Hdata Hfit Hvd Hok Hi0 HN HN0 Hvec Hval.
  pose proof (num_batches_pos Hn (proj1 Hbs)) as Hc.
  induction k as [|k IH]; intros Hk.
  - split; [|simpl; lia]. intros _. exists w0, loc0. auto.
  - destruct IH as [Hgo Hstop]; [lia|].
    replace (Z.of_nat (S k)) with (Z.of_nat k + 1) by lia.
    rewrite epochs_loop_succ by lia.
    destruct (Z_le_gt_dec (Z.of_nat k * num_batches n batch_size) N) as [Hle|Hgt].
    + destruct (Hgo Hle) as (wk & lock & Hrun & Hokk & Hink).
      pose proof (@epochs_loop_inv _ _ dataset dev val_dataset epochs batch_size n N
                    loc0 w0 Hn (proj1 Hbs) Hi0 HN Hvec Hval k wk lock Hrun) as Hinv.
      destruct Hinv as (Hi & Hs & _ & Hvec' & Hval' & _).
      destruct (@epoch_body_run _ _ dataset dev epochs batch_size val_dataset n N
                  lock (Z.of_nat k) wk)
        as [Hgo' Hstop']; try assumption; try lia;
        try (rewrite Hink; assumption).
      erewrite bind_ok by exact Hrun. rewrite Hi in Hgo', Hstop'. split.
      * intros H. destruct Hgo' as (w' & loc' & Hbody & Hok' & Hin'); [lia|].
        exists w', loc'. split; [exact Hbody|]. split; [exact Hok'|]. congruence.
      * intros H. apply Hstop'. lia.
    + destruct (Hstop ltac:(lia)) as (wk & Hrun).
      split; [nia|]. intros _. exists wk. apply bind_raise. exact Hrun.
Qed.


Lemma setup_ok (G : globals) (dataset : tensor) (dev : device)
      (val_dataset : option tensor) (epochs batch_size seed : Z)
      (w : world) (D : device) (n : Z) :
  DEVICE G = Some D ->
  tensor_len dataset = Ok n -> 0 < n -> 0 < batch_size ->
  0 <= epochs < 2 ^ 61 -> epochs * n / batch_size < 2 ^ 61 ->
  - 2 ^ 63 <= seed < 2 ^ 64 ->
  exists loc0,
    setup G dataset dev val_dataset epochs batch_size seed w
      = (mkWorld (stdout w) (AE_to (net w) D),
         Ok (mkLoader dataset n batch_size, loc0)).
Proof.
  intros HD Hlen Hn Hbs Hep HN Hseed. unfold setup.
  assert (Hm : 0 <= epochs * n / batch_size)
    by (apply Z.div_pos; nia).
  pose proof (zeros_ok dev (conj Hm HN)) as Em.
  pose proof (zeros_ok dev Hep) as Ef.
  erewrite bind_ok by (unfold lift, read_DEVICE; rewrite HD; reflexivity).
  erewrite bind_ok by reflexivity.
  erewrite bind_ok by reflexivity.
  erewrite bind_ok by reflexivity.
  erewrite bind_ok.
  2:{ unfold lift, seed_generator.
      replace (seed <? - 2 ^ 63) with false by (symmetry; apply Z.ltb_ge; lia).
      replace (2 ^ 64 <=? seed) with false by (symmetry; apply Z.leb_gt; lia).
      reflexivity. }
  erewrite bind_ok.
  2:{ unfold lift, DataLoader. rewrite Hlen. cbn [rbind].
      replace (n <=? 0) with false by (symmetry; apply Z.leb_gt; lia).
      replace (batch_size <=? 0) with false by (symmetry; apply Z.leb_gt; lia).
      reflexivity. }
  erewrite bind_ok by (unfold lift; rewrite Hlen; reflexivity).
  erewrite bind_ok by (unfold lift; rewrite Em; reflexivity).
  erewrite bind_ok by (unfold lift; rewrite Ef; reflexivity).
  destruct val_dataset as [v|].
  - erewrite bind_ok
      by (erewrite bind_ok by (unfold lift; rewrite Ef; reflexivity); reflexivity).
    eexists. reflexivity.
  - erewrite bind_ok by reflexivity. eexists. reflexivity.
Qed.

Lemma data_ok_len (width : Z) (t : tensor) :
  data_ok width t -> exists n, tensor_len t = Ok n /\ 0 < n.
Proof.
  intros (n & rest & Hsz & Hn & _). exists n.
  unfold tensor_len. rewrite Hsz. auto.
Qed.

(** The driver returns when the global device is the [device] argument,
    the data match the model, the batches divide the data evenly and the
    numbers handed to the library fit its integers. *)
Lemma train_autoencoder_ok (G : globals) (dataset : tensor) (dev : device)
      (val_dataset : option tensor) (epochs batch_size seed : Z)
      (w : world) (d0 : device) :
  DEVICE G = Some dev ->
  model_ok (net w) d0 = true ->
  data_ok (in_dim (net w)) dataset ->
  optional_data_ok (in_dim (net w)) val_dataset ->
  0 < batch_size < 2 ^ 63 -> 0 <= epochs < 2 ^ 61 ->
  - 2 ^ 63 <= seed < 2 ^ 64 ->
  (exists n q, tensor_len dataset = Ok n /\ n = q * batch_size /\
               epochs * q < 2 ^ 61) ->
  exists w' tr val,
    train_autoencoder G dataset dev val_dataset epochs batch_size seed w
      = (w', Ok (tr, val)).
Proof.
  intros HD Hok Hdata Hvd Hbs Hep Hseed (n & q & Hlen & Hq & Hfits).
  destruct (data_ok_len Hdata) as (n' & Hlen' & Hn).
  rewrite Hlen in Hlen'. injection Hlen' as <-.
  assert (HNq : epochs * n / batch_size = epochs * q).
  { rewrite Hq. replace (epochs * (q * batch_size)) with (epochs * q * batch_size)
      by lia. apply Z.div_mul. lia. }
  destruct (@setup_ok G dataset dev val_dataset epochs batch_size seed w dev n
                      HD Hlen Hn (proj1 Hbs) Hep) as (loc0 & Hsetup);
    [lia | exact Hseed |].
  pose proof (setup_inv _ _ _ _ _ _ _ _ Hsetup) as Hinv.
  destruct Hinv as (D' & n' & _ & _ & Hlen' & _ & _ & _ & _ & Hi0 & Hmse & Hfml &
                    Hval & _ & _).
  rewrite Hlen in Hlen'. injection Hlen' as <-.
  set (w1 := mkWorld (stdout w ++ [trange_line epochs]) (AE_to (net w) dev)).
  assert (Hok1 : model_ok (net w1) dev = true)
    by (apply model_ok_to with (d0 := d0); exact Hok).
  assert (HN : t_size (mse_loss loc0) = [epochs * n / batch_size])
    by apply Hmse.
  assert (Hq0 : 0 <= q) by nia.
  assert (Hfit : (n mod batch_size * in_dim (net w1)) mod batch_size = 0).
  { rewrite Hq, Z.mod_mul by lia. apply Z.mod_0_l. lia. }
  destruct (@epochs_loop_run dataset dev val_dataset epochs batch_size n
              (epochs * n / batch_size) loc0 w1 Hbs Hn Hdata Hfit
              Hvd Hok1 Hi0 HN ltac:(nia) Hfml Hval (Z.to_nat epochs))
    as [Hgo _]; [lia|].
  destruct Hgo as (wE & locE & Hrun & _).
  { rewrite Z2Nat.id by lia.
    rewrite (@num_batches_exact n batch_size q) by lia. lia. }
  rewrite Z2Nat.id in Hrun by lia.
  pose proof (@epochs_loop_inv _ _ dataset dev val_dataset epochs batch_size n
                (epochs * n / batch_size) loc0 w1 Hn (proj1 Hbs) Hi0 HN Hfml Hval
                (Z.to_nat epochs) wE locE) as Hr.
  cbv zeta in Hr. rewrite Z2Nat.id in Hr by lia.
  destruct (Hr Hrun) as (_ & _ & _ & _ & Hvm & _).
  unfold train_autoencoder.
  erewrite bind_ok by exact Hsetup. cbv beta iota.
  erewrite bind_ok by (rewrite run_epochs_eq; exact Hrun).
  erewrite bind_ok by reflexivity.
  erewrite bind_ok by reflexivity.
  unfold val_matches in Hvm. destruct val_dataset as [v|].
  - destruct (full_val_loss locE) as [fvl|]; [|contradiction].
    erewrite bind_ok by reflexivity. eexists _, _, _. reflexivity.
  - erewrite bind_ok by reflexivity. eexists _, _, _. reflexivity.
Qed.


End RunSuccess.

(** ** The script *)

Section ScriptFacts.

Context {SC : Scalar} {LB : Library} {NM : Nmas}.

Lemma np_rows (x_a : list Z) :
  np_add (np_tile_cols (np_column x_a) 3)
         (np_tile_rows (np_arange (-1) 2) (py_len x_a))
  = consecutive_rows x_a.
Proof.
  unfold np_tile_rows, py_len. rewrite Nat2Z.id.
  change (np_arange (-1) 2) with [-1; 0; 1].
  induction x_a as [|a rest IH].
  - reflexivity.
  - simpl length. simpl repeat.
    unfold np_add, np_tile_cols, np_column, consecutive_rows in *.
    cbn [map combine]. rewrite IH.
    change (Z.to_nat 3) with 3%nat. cbn [repeat concat app fst snd map combine].
    replace (a + -1) with (a - 1) by lia. replace (a + 0) with a by lia.
    reflexivity.
Qed.

Lemma consecutive_rows_length (x_a : list Z) :
  length (concat (consecutive_rows x_a)) = (3 * length x_a)%nat.
Proof.
  unfold consecutive_rows. induction x_a as [|a rest IH]; simpl in *; lia.
Qed.

Lemma torch_tensor_rows (x_a : list Z) (n : Z) :
  0 < n -> py_len x_a = n ->
  torch_tensor (consecutive_rows x_a)
  = mkTensor [n; 3] (map s_of_Z (concat (consecutive_rows x_a))) cpu.
Proof.
  intros Hn Hlen. unfold torch_tensor.
  assert (E : [py_len (consecutive_rows x_a);
               py_len (hd [] (consecutive_rows x_a))] = [n; 3]).
  { destruct x_a as [|a rest]; [unfold py_len in Hlen; simpl in Hlen; lia|].
    unfold py_len in *. unfold consecutive_rows in *.
    rewrite length_map. rewrite Hlen. reflexivity. }
  rewrite E. reflexivity.
Qed.

Lemma draws_range :
  py_len draws = 10000 /\ Forall (fun a => 0 <= a < 10000) draws.
Proof. unfold draws, py_len. apply np_choice_range; lia. Qed.

Lemma script_x_length : length (t_data script_x) = Z.to_nat 30000.
Proof.
  unfold script_x. cbn [t_data]. rewrite length_map, consecutive_rows_length.
  destruct draws_range as [Hlen _]. unfold py_len in Hlen. lia.
Qed.

Lemma script_split :
  slice0 script_x None (Some (- (10000) / 5)) = Ok script_x_tr /\
  slice0 script_x (Some (- (10000) / 5)) None = Ok script_x_val.
Proof.
  change (- (10000) / 5) with (-2000).
  unfold slice0, script_x_tr, script_x_val. split.
  - cbn [t_size script_x t_device]. unfold slice_bound.
    change (-2000 <? 0) with true. cbv iota.
    change (Z.max 0 (Z.max 0 (-2000 + 10000) - 0)) with 8000.
    change (Z.to_nat (prod_sizes [3])) with (Z.to_nat 3).
    replace (Z.to_nat 8000 * Z.to_nat 3)%nat with (Z.to_nat 24000) by lia.
    replace (Z.to_nat 0 * Z.to_nat 3)%nat with 0%nat by lia.
    reflexivity.
  - cbn [t_size script_x t_device]. unfold slice_bound.
    change (-2000 <? 0) with true. cbv iota.
    change (Z.max 0 (10000 - Z.max 0 (-2000 + 10000))) with 2000.
    change (Z.max 0 (-2000 + 10000)) with 8000.
    change (Z.to_nat (prod_sizes [3])) with (Z.to_nat 3).
    replace (Z.to_nat 8000 * Z.to_nat 3)%nat with (Z.to_nat 24000) by lia.
    f_equal. f_equal. apply firstn_all2.
    fold script_x. rewrite length_skipn, script_x_length. lia.
Qed.

Lemma make_data_eq :
  exists out tg0 inx,
    make_data = (out, tg0, fst nmas_set_device, draws, inx, script_x,
                 Ok (script_x_tr, script_x_val)).
Proof.
  pose proof draws_range as [Hlen _].
  pose proof script_split as [Htr Hval].
  unfold make_data.
  destruct (nmas_set_seed 2021) as [[np0 tg0] out1] eqn:Eseed.
  destruct nmas_set_device as [dv out2]. cbn [fst]. cbv beta iota zeta.
  destruct (np_choice np0 10000 10000) as [x_a np1] eqn:Ech.
  assert (Hd : x_a = draws).
  { unfold draws. rewrite Eseed. cbn [fst]. rewrite Ech. reflexivity. }
  subst x_a.
  rewrite np_rows.
  destruct (np_choice1 np1 (py_len (consecutive_rows draws))) as [inx np2].
  rewrite (torch_tensor_rows draws (n := 10000)) by (lia || exact Hlen).
  fold script_x.
  exists (out1 ++ out2), tg0, inx.
  unfold size0. cbn [t_size script_x rbind]. fold script_x.
  rewrite Htr. cbn [rbind]. rewrite Hval. reflexivity.
Qed.

End ScriptFacts.

Section MainFacts.

Context {SC : Scalar} {LB : Library} {NM : Nmas}.

(** How the script runs: the model it builds, the training call it makes,
    and what is left when it ends. *)
Lemma main_run :
  exists out0 tg0 tg1 inx vae w' loss,
    let D := fst nmas_set_device in
    AE_init 3 1 [5] [5] tg0 = (tg1, Ok vae) /\
    train_autoencoder (mkGlobals (Some D)) script_x_tr D None 20 250 0
                      (mkWorld out0 vae) = (w', Ok (loss, None)) /\
    main = (stdout w' ++
              [("Final Training Loss: " ++ format_tensor loss)%string;
               "Final Validation Loss: None"%string],
            Ok (mkVars 2021 D draws script_x inx script_x_tr script_x_val
                       (net w') loss None)).
Proof.
  destruct make_data_eq as (out0 & tg0 & inx & Hdata).
  destruct (@AE_init_ok _ _ 3 1 [5] [5] tg0) as (tg1 & vae & Hinit);
    try discriminate; try lia; try (repeat constructor; lia).
  pose proof (AE_init_model_ok _ _ _ _ _ Hinit) as Hok.
  destruct (AE_init_inv _ _ _ _ _ Hinit) as (Hin & _).
  set (D := fst nmas_set_device) in *.
  destruct (@train_autoencoder_ok _ _ (mkGlobals (Some D)) script_x_tr D None
              20 250 0 (mkWorld out0 vae) cpu)
    as (w' & loss & val & Htrain).
  { reflexivity. }
  { exact Hok. }
  { exists 8000, [3]. cbn [net]. rewrite Hin.
    split; [reflexivity|]. split; [lia|].
    split; [repeat constructor; lia|]. repeat split. }
  { exact I. }
  { lia. }
  { lia. }
  { lia. }
  { exists 8000, 32. repeat split; lia. }
  assert (Hnone : val = None).
  { destruct (train_autoencoder_run _ _ _ _ _ _ _ _ Htrain)
      as (n & _ & _ & _ & _ & _ & _ & _ & Hv & _). exact Hv. }
  subst val.
  exists out0, tg0, tg1, inx, vae, w', loss. cbv zeta.
  split; [exact Hinit|]. split; [exact Htrain|].
  unfold main. rewrite Hdata. fold D.
  change (size_at script_x (-1)) with (@Ok Z 3).
  cbv beta iota. rewrite Hinit, Htrain. reflexivity.
Qed.

End MainFacts.

(** ** Where the model is placed *)

Section PlacementFacts.

Context {SC : Scalar} {LB : Library}.

Lemma setup_world (G : globals) (dataset : tensor) (dev : device)
      (val_dataset : option tensor) (epochs batch_size seed : Z)
      (w : world) (D : device) :
  DEVICE G = Some D ->
  fst (setup G dataset dev val_dataset epochs batch_size seed w)
  = mkWorld (stdout w) (AE_to (net w) D).
Proof.
  intros HD. unfold setup.
  erewrite bind_ok by (unfold lift, read_DEVICE; rewrite HD; reflexivity).
  erewrite bind_ok by reflexivity.
  erewrite bind_ok by reflexivity.
  match goal with |- fst (?m ?s) = _ => assert (Hs : silent m) end.
  { silent_steps. }
  apply Hs.
Qed.

Lemma setup_no_DEVICE (G : globals) (dataset : tensor) (dev : device)
      (val_dataset : option tensor) (epochs batch_size seed : Z) (w : world) :
  DEVICE G = None ->
  setup G dataset dev val_dataset epochs batch_size seed w = (w, Raise NameError).
Proof.
  intros HD. unfold setup.
  erewrite bind_raise; [reflexivity|].
  unfold lift, read_DEVICE. rewrite HD. reflexivity.
Qed.

Lemma AE_to_devices (D : device) (layers : list layer) :
  Forall (fun ly => forall l, ly = LinearLayer l -> l_device l = D)
         (map (layer_to D) layers).
Proof.
  apply Forall_forall. intros ly Hin. apply in_map_iff in Hin.
  destruct Hin as (ly0 & <- & _). intros l Hl.
  destruct ly0 as [l0|]; simpl in Hl; [|discriminate].
  injection Hl as <-. reflexivity.
Qed.

End PlacementFacts.

(** ** The loss is the mean squared error *)

Section ErrorFacts.

Context {SC : Scalar}.

Lemma fold_seq_shift (f : nat -> scalar) (k : nat) :
  forall s,
    fold_right (fun i acc => s_add (f i) acc) s_zero (seq (S s) k)
    = fold_right (fun i acc => s_add (f (S i)) acc) s_zero (seq s k).
Proof.
  induction k as [|k IH]; intros s; simpl.
  - reflexivity.
  - rewrite IH. reflexivity.
Qed.

(** Summing the squared differences of the paired elements is summing
    them position by position. *)
Lemma squares_indexed (a : list scalar) :
  forall b,
    sum_scalars (map (fun p => let d := s_sub (fst p) (snd p) in s_mul d d)
                     (combine a b))
    = fold_right (fun i acc =>
                    s_add (let d := s_sub (nth i a s_zero) (nth i b s_zero) in
                           s_mul d d) acc)
                 s_zero (seq 0 (Nat.min (length a) (length b))).
Proof.
  induction a as [|x a IH]; intros [|y b]; try reflexivity.
  cbn [combine map sum_scalars fold_right length Nat.min seq].
  fold (sum_scalars (map (fun p => let d := s_sub (fst p) (snd p) in s_mul d d)
                         (combine a b))).
  rewrite IH.
  rewrite (fold_seq_shift
             (fun i => let d := s_sub (nth i (x :: a) s_zero)
                                      (nth i (y :: b) s_zero) in s_mul d d)).
  reflexivity.
Qed.

Lemma loss_fn_mean_squared_error (input target : tensor) (v : scalar) :
  loss_fn input target = Ok v ->
  v = mean_squared_error (numel input) (t_data input) (t_data target).
Proof.
  unfold loss_fn.
  destruct (negb _); [discriminate|].
  destruct (list_eq_dec _ _ _); [|discriminate].
  cbv zeta. intros H. injection H as <-.
  unfold mean_squared_error. rewrite squares_indexed. reflexivity.
Qed.

(** The loss the no-grad block computes is the mean squared error between
    the reconstruction of the data set and the data set. *)
Lemma dataset_loss_error (ae : AE) (data : tensor) (dev : device) (v : scalar) :
  dataset_loss ae data dev = Ok v -> reconstruction_error ae data dev = Ok v.
Proof.
  unfold dataset_loss, reconstruction_error. cbv zeta.
  destruct (forward ae (tensor_to data dev)) as [y|e]; [|discriminate].
  cbn [rbind].
  destruct (size0 (tensor_to data dev)) as [n|e]; [|discriminate].
  cbn [rbind].
  destruct (view y [n; -1]) as [input|e] eqn:Ei; [|discriminate].
  cbn [rbind].
  destruct (view (tensor_to data dev) [n; -1]) as [target|e] eqn:Et;
    [|discriminate].
  cbn [rbind]. intros H. apply loss_fn_mean_squared_error in H. subst v.
  destruct (view_inv _ _ Ei) as (Hsi & Hdi & _).
  destruct (view_inv _ _ Et) as (_ & Hdt & _).
  destruct (infer_size_rows_inv _ _ Hsi) as (_ & Hs & Hn).
  rewrite Hdi, Hdt. do 2 f_equal.
  unfold numel at 2. rewrite Hs, !prod_sizes_cons.
  change (prod_sizes []) with 1. lia.
Qed.

Lemma flat_map_filter {A B : Type} (p : A -> bool) (f : A -> list B) (l : list A) :
  flat_map (fun a => if p a then f a else []) l = flat_map f (filter p l).
Proof.
  induction l as [|a l IH]; simpl.
  - reflexivity.
  - rewrite IH. destruct (p a); reflexivity.
Qed.

End ErrorFacts.

(** * The claims of the specification *)

Section Claims.

Context {SC : Scalar} {LB : Library}.

(** C1 (as amended).  For every contiguous input [x] of 32-bit floats with
    at least one example, whose remaining dimensions flatten to [in_dim]
    and which is held on the device of the model's parameters,
    [AE.forward(x)] returns a tensor whose size is the size of [x]. *)
Theorem forward_keeps_size (ae : AE) (x : tensor) (n : Z) (rest : list Z) :
  model_ok ae (t_device x) = true ->
  t_dtype x = float32 ->
  contiguous x ->
  t_size x = n :: rest ->
  0 < n ->
  Forall (fun d => 0 <= d) rest ->
  prod_sizes rest = in_dim ae ->
  exists y, forward ae x = Ok y /\ t_size y = t_size x.
Proof.
  intros Hok Hty Hc Hsz Hn Hrest Hprod.
  destruct (forward_ok ae Hok Hty Hc Hsz Hn Hrest Hprod) as (y & Hy & Hs & _).
  exists y. auto.
Qed.

(** C2.  The whole-data-set training-loss and validation-loss computation
    at the end of an epoch leaves the autoencoder object as it found it,
    for every epoch, data set and validation set, whether or not the block
    completes. *)
Theorem no_grad_block_keeps_parameters
        (dataset : tensor) (dev : device) (val_dataset : option tensor)
        (loc : locals) (epoch : Z) (w : world) :
  net (fst (no_grad_block dataset dev val_dataset loc epoch w)) = net w.
Proof.
  rewrite (no_grad_block_silent dataset dev val_dataset loc epoch w).
  reflexivity.
Qed.

(** C3.  [train_autoencoder] returns when the global device is its
    [device] argument, the data are contiguous 32-bit floats that match the
    model, the training set being held by the host, where the workers of
    the loader read it, [batch_size] divides the number of examples, the
    seed is a signed or an unsigned 64-bit integer, and the number of
    epochs and the number of steps are lengths the library accepts for a
    buffer of 32-bit floats, which is fewer than [2 ^ 61].  Whenever it
    returns [(tr, val)]: [tr] has [epochs] entries, entry [e] being the
    mean of the squared differences between the whole training set and its
    reconstruction by the model as it was after epoch [e]; [val] is [None]
    without a validation set, and otherwise the same over the whole
    validation set. *)
Theorem train_autoencoder_histories
        (G : globals) (dataset : tensor) (dev : device)
        (val_dataset : option tensor) (epochs batch_size seed : Z) (w : world) :
  (forall d0,
      DEVICE G = Some dev ->
      model_ok (net w) d0 = true ->
      t_device dataset = cpu ->
      data_ok (in_dim (net w)) dataset ->
      optional_data_ok (in_dim (net w)) val_dataset ->
      0 < batch_size < 2 ^ 63 -> 0 <= epochs < 2 ^ 61 ->
      - 2 ^ 63 <= seed < 2 ^ 64 ->
      (exists n q, tensor_len dataset = Ok n /\ n = q * batch_size /\
                   epochs * q < 2 ^ 61) ->
      exists w' tr val,
        train_autoencoder G dataset dev val_dataset epochs batch_size seed w
          = (w', Ok (tr, val))) /\
  (forall w' tr val,
      train_autoencoder G dataset dev val_dataset epochs batch_size seed w
        = (w', Ok (tr, val)) ->
      histories_ok G dataset dev val_dataset epochs batch_size seed w tr val).
Proof.
  split.
  - intros d0 HD Hok _ Hdata Hval Hbs Hep Hseed Hdiv.
    eapply train_autoencoder_ok; eassumption.
  - intros w' tr val H.
    destruct (train_autoencoder_run _ _ _ _ _ _ _ _ H)
      as (n & _ & _ & _ & _ & _ & Hvec & _ & Hv & _ & Hsnap).
    unfold histories_ok. split; [exact Hvec|]. split.
    + destruct val_dataset as [v|]; [|exact Hv].
      destruct Hv as (vt & -> & Hvt & _). exists vt. auto.
    + intros e He. destruct (Hsnap e He) as (w_e & loc_e & Hrun & Hl & Hvl).
      exists w_e, loc_e. split; [exact Hrun|].
      split; [apply dataset_loss_error; exact Hl|].
      destruct val_dataset as [v|]; [|exact I].
      destruct val as [vt|]; [|exact I].
      apply dataset_loss_error. exact Hvl.
Qed.


(** C5.  Without a global [DEVICE], [train_autoencoder] raises [NameError]
    and has changed nothing: neither the model nor standard output.  With
    [DEVICE] bound to [D], the model the driver holds when it reaches its
    first epoch has every parameter on [D], whatever the [device] argument
    is. *)
Theorem train_autoencoder_uses_global_DEVICE
        (G : globals) (dataset : tensor) (dev : device)
        (val_dataset : option tensor) (epochs batch_size seed : Z) (w : world) :
  (DEVICE G = None ->
   train_autoencoder G dataset dev val_dataset epochs batch_size seed w
     = (w, Raise NameError)) /\
  (forall D,
      DEVICE G = Some D ->
      net (fst (train_prefix G dataset dev val_dataset epochs batch_size seed 0 w))
        = AE_to (net w) D /\
      Forall (fun ly => forall l, ly = LinearLayer l -> l_device l = D)
             (enc_model (AE_to (net w) D) ++ dec_model (AE_to (net w) D))).
Proof.
  split.
  - intros HD. unfold train_autoencoder.
    erewrite bind_raise; [reflexivity|]. apply setup_no_DEVICE. exact HD.
  - intros D HD. split.
    + pose proof (setup_world G dataset dev val_dataset epochs batch_size seed w HD)
        as Hw.
      unfold train_prefix, bind.
      destruct (setup G dataset dev val_dataset epochs batch_size seed w)
        as [w1 [[loader loc]|e]]; simpl in Hw; subst w1; reflexivity.
    + apply Forall_app. split; apply AE_to_devices.
Qed.

(** C6.  A constructed autoencoder has, on the host, an encoder of
    [len(enc_lst) + 1] affine layers through the widths
    [in_dim, enc_lst..., latent_dim] and a decoder of [len(dec_lst) + 1]
    affine layers through [latent_dim, dec_lst..., in_dim], each affine
    layer but the last followed by a ReLU; and [forward] flattens, encodes,
    decodes and reshapes to the size of its input. *)
Theorem AE_structure (i lat : Z) (enc_lst dec_lst : list Z)
        (g g' : torch_rng) (ae : AE) :
  AE_init i lat enc_lst dec_lst g = (g', Ok ae) ->
  in_dim ae = i /\
  map layer_signature (enc_model ae) = mlp_sig (i :: enc_lst ++ [lat]) cpu /\
  map layer_signature (dec_model ae) = mlp_sig (lat :: dec_lst ++ [i]) cpu /\
  length (filter is_linear (map layer_signature (enc_model ae)))
    = S (length enc_lst) /\
  length (filter is_linear (map layer_signature (dec_model ae)))
    = S (length dec_lst) /\
  forall x,
    forward ae x =
    (try n <- size0 x ;;
     try flat_x <- view x [n; -1] ;;
     try h <- sequential (enc_model ae) flat_x ;;
     try y <- sequential (dec_model ae) h ;;
     view y (t_size x)).
Proof.
  intros H. destruct (AE_init_inv _ _ _ _ _ H) as (Hi & _ & Henc & Hdec).
  split; [exact Hi|]. split; [exact Henc|]. split; [exact Hdec|].
  split; [|split].
  - rewrite Henc, mlp_sig_linear_count, length_app. simpl. lia.
  - rewrite Hdec, mlp_sig_linear_count, length_app. simpl. lia.
  - intros x. reflexivity.
Qed.

(** C9.  A call that returns has printed the line the progress bar shows
    when the loop over the epochs starts and then, for the epochs
    [0 .. epochs-1] that ten divides, in order and for no other epoch: the
    line with the training loss of that epoch, followed by the line with
    its validation loss exactly when a validation set was given. *)
Theorem train_autoencoder_progress
        (G : globals) (dataset : tensor) (dev : device)
        (val_dataset : option tensor) (epochs batch_size seed : Z)
        (w w' : world) (tr : tensor) (val : option tensor) :
  train_autoencoder G dataset dev val_dataset epochs batch_size seed w
    = (w', Ok (tr, val)) ->
  stdout w' =
    stdout w ++
    trange_line epochs ::
    flat_map (fun e => train_line tr e :: match val with
                                          | Some v => [val_line v e]
                                          | None => []
                                          end)
             (filter (fun e => e mod 10 =? 0) (range epochs)) /\
  (val = None <-> val_dataset = None).
Proof.
  intros H.
  destruct (train_autoencoder_run _ _ _ _ _ _ _ _ H)
    as (n & _ & _ & _ & _ & _ & _ & _ & Hv & Hout & _).
  split.
  - rewrite Hout. do 2 f_equal. unfold progress_lines.
    apply (flat_map_filter (fun e => e mod 10 =? 0)).
  - destruct val_dataset as [v|].
    + destruct Hv as (vt & -> & _). split; discriminate.
    + subst val. split; reflexivity.
Qed.

End Claims.

Section ScriptClaims.

Context {SC : Scalar} {LB : Library} {NM : Nmas}.

(** C8.  The script takes no input.  It draws 10000 numbers below 10000
    from the generator seeded with 2021, makes of each draw [a] the example
    [a-1, a, a+1], builds [AE(3, 1, [5], [5])], trains it on the leading
    rows of that data for 20 epochs in batches of 250, and ends standard
    output with the final training and validation loss lines. *)
Theorem main_trains_and_prints :
  exists out vars out0 tg0 tg1 vae0 w',
    main = (out, Ok vars) /\
    v_x_a vars = fst (np_choice (fst (fst (nmas_set_seed 2021))) 10000 10000) /\
    py_len (v_x_a vars) = 10000 /\
    Forall (fun a => 0 <= a < 10000) (v_x_a vars) /\
    v_x vars = mkTensor [10000; 3]
                        (map s_of_Z (concat (consecutive_rows (v_x_a vars)))) cpu /\
    slice0 (v_x vars) None (Some (-2000)) = Ok (v_x_tr vars) /\
    AE_init 3 1 [5] [5] tg0 = (tg1, Ok vae0) /\
    train_autoencoder (mkGlobals (Some (v_DEVICE vars))) (v_x_tr vars)
                      (v_DEVICE vars) None 20 250 0 (mkWorld out0 vae0)
      = (w', Ok (v_loss vars, v_val_loss vars)) /\
    v_vae vars = net w' /\
    out = stdout w' ++
          [("Final Training Loss: " ++ format_tensor (v_loss vars))%string;
           ("Final Validation Loss: " ++ format_optional (v_val_loss vars))%string].
Proof.
  destruct main_run as (out0 & tg0 & tg1 & inx & vae & w' & loss & H).
  cbv zeta in H. destruct H as (Hinit & Htrain & Hmain).
  destruct draws_range as [Hlen Hrange].
  destruct script_split as [Htr _].
  eexists _, _, out0, tg0, tg1, vae, w'.
  split; [exact Hmain|]. cbn [v_x_a v_x v_x_tr v_DEVICE v_loss v_val_loss v_vae].
  repeat split; try assumption; try reflexivity.
Qed.

(** C10.  The script keeps the first 8000 examples for training and the
    last 2000 for validation, passes no validation set to
    [train_autoencoder], gets [None] back as validation history, and its
    last line of output says so. *)
Theorem main_validation_unused :
  exists out vars out0 vae0 w',
    main = (out, Ok vars) /\
    t_size (v_x vars) = [10000; 3] /\
    t_size (v_x_tr vars) = [8000; 3] /\
    t_data (v_x_tr vars) = firstn (Z.to_nat 24000) (t_data (v_x vars)) /\
    t_size (v_x_val vars) = [2000; 3] /\
    t_data (v_x_val vars) = skipn (Z.to_nat 24000) (t_data (v_x vars)) /\
    train_autoencoder (mkGlobals (Some (v_DEVICE vars))) (v_x_tr vars)
                      (v_DEVICE vars) None 20 250 0 (mkWorld out0 vae0)
      = (w', Ok (v_loss vars, v_val_loss vars)) /\
    v_val_loss vars = None /\
    last out EmptyString = "Final Validation Loss: None"%string.
Proof.
  destruct main_run as (out0 & tg0 & tg1 & inx & vae & w' & loss & H).
  cbv zeta in H. destruct H as (Hinit & Htrain & Hmain).
  eexists _, _, out0, vae, w'.
  split; [exact Hmain|].
  cbn [v_x v_x_tr v_x_val v_DEVICE v_loss v_val_loss].
  repeat split; try assumption; try reflexivity.
  match goal with
  | |- last (?l ++ [?a; ?b]) _ = _ =>
      replace (l ++ [a; b]) with ((l ++ [a]) ++ [b])
        by (rewrite <- app_assoc; reflexivity)
  end.
  apply last_last.
Qed.

End ScriptClaims.

(** * Further properties of the code *)

(** ** The constructor's arguments *)

Section ConstructorArguments.

Context {SC : Scalar} {LB : Library}.

(** A width that is no machine integer. *)
Lemma nn_Linear_overflow (i o : Z) (g : torch_rng) :
  i < - 2 ^ 63 \/ 2 ^ 63 <= i \/ o < - 2 ^ 63 \/ 2 ^ 63 <= o ->
  nn_Linear i o g = (g, Raise TypeError).
Proof.
  intros H. apply nn_Linear_raise.
  destruct H as [H|[H|[H|H]]].
  - apply check_size_overflow with (d := i); [right; left; reflexivity | lia].
  - apply check_size_overflow with (d := i); [right; left; reflexivity | lia].
  - apply check_size_overflow with (d := o); [left; reflexivity | lia].
  - apply check_size_overflow with (d := o); [left; reflexivity | lia].
Qed.

(** A negative width among machine integers. *)
Lemma nn_Linear_negative (i o : Z) (g : torch_rng) :
  - 2 ^ 63 <= i < 2 ^ 63 -> - 2 ^ 63 <= o < 2 ^ 63 -> i < 0 \/ o < 0 ->
  nn_Linear i o g = (g, Raise RuntimeError).
Proof.
  intros Hi Ho H. apply nn_Linear_raise.
  destruct H as [H|H].
  - apply check_size_negative with (d := i);
      [repeat constructor; lia | right; left; reflexivity | exact H].
  - apply check_size_negative with (d := o);
      [repeat constructor; lia | left; reflexivity | exact H].
Qed.

(** A layer whose weight or bias is too large for its storage to be
    addressed. *)
Lemma nn_Linear_storage (i o : Z) (g : torch_rng) :
  0 <= i < 2 ^ 63 -> 0 <= o < 2 ^ 63 -> 2 ^ 61 <= o * i \/ 2 ^ 61 <= o ->
  nn_Linear i o g = (g, Raise RuntimeError).
Proof.
  intros Hi Ho H.
  destruct (Z_lt_le_dec (o * i) (2 ^ 61)) as [Hw|Hw].
  - apply nn_Linear_raise_bias.
    + apply check_size_ok. split; [repeat constructor; lia|].
      rewrite !prod_sizes_cons. change (prod_sizes []) with 1. lia.
    + apply check_size_storage; [repeat constructor; lia|].
      rewrite prod_sizes_cons. change (prod_sizes []) with 1. lia.
  - apply nn_Linear_raise.
    apply check_size_storage; [repeat constructor; lia|].
    rewrite !prod_sizes_cons. change (prod_sizes []) with 1. lia.
Qed.

(** Every layer the list comprehension builds fits when it completes. *)
Lemma hidden_layers_range :
  forall (rest pre : list Z) (a : Z) (g g' : torch_rng) (mid : list (list layer)),
    let lst := pre ++ a :: rest in
    map_M (fun idim =>
             a <- lift (list_getitem lst idim) ;;
             b <- lift (list_getitem lst (idim + 1)) ;;
             l <- nn_Linear a b ;;
             ret [LinearLayer l; ReLU])
          (map Z.of_nat (seq (length pre) (length rest))) g = (g', Ok mid) ->
    chain_fits (a :: rest).
Proof.
  induction rest as [|b rest IH]; intros pre a g g' mid lst Hmid.
  - exact I.
  - simpl in Hmid.
    apply bind_ok_inv in Hmid. destruct Hmid as (y & g1 & Hy & Hmid).
    apply bind_ok_inv in Hmid. destruct Hmid as (ys & g2 & Hys & Hmid).
    apply bind_ok_inv in Hy. destruct Hy as (a' & s1 & Ha & Hy).
    apply lift_ok_inv in Ha. destruct Ha as [-> Ha].
    apply bind_ok_inv in Hy. destruct Hy as (b' & s2 & Hb & Hy).
    apply lift_ok_inv in Hb. destruct Hb as [-> Hb].
    apply bind_ok_inv in Hy. destruct Hy as (l & s3 & Hlin & Hy).
    unfold lst in Ha. rewrite list_getitem_middle in Ha. injection Ha as <-.
    assert (Hb' : list_getitem lst (Z.of_nat (length pre) + 1) = Ok b).
    { unfold lst.
      replace (pre ++ a :: b :: rest) with ((pre ++ [a]) ++ b :: rest)
        by (rewrite <- app_assoc; reflexivity).
      replace (Z.of_nat (length pre) + 1) with (Z.of_nat (length (pre ++ [a])))
        by (rewrite length_app; simpl; lia).
      apply list_getitem_middle. }
    rewrite Hb' in Hb. injection Hb as <-.
    destruct (nn_Linear_ok_inv _ _ _ Hlin) as (_ & _ & _ & Hab).
    apply chain_fits_cons. split; [exact Hab|].
    unfold ret in Hy. injection Hy as E1 E2. subst s3.
    eapply (IH (pre ++ [a]) b g1 g2 ys).
    replace ((pre ++ [a]) ++ b :: rest) with lst
      by (unfold lst; rewrite <- app_assoc; reflexivity).
    replace (length (pre ++ [a])) with (S (length pre))
      by (rewrite length_app; simpl; lia).
    exact Hys.
Qed.

Lemma build_layers_range (first last : Z) (lst : list Z) (g g' : torch_rng)
      (layers : list layer) :
  build_layers first lst last g = (g', Ok layers) ->
  chain_fits (first :: lst ++ [last]).
Proof.
  unfold build_layers. intros H.
  apply bind_ok_inv in H. destruct H as (h0 & s0 & Hh0 & H).
  apply lift_ok_inv in Hh0. destruct Hh0 as [-> Hh0].
  destruct lst as [|h t].
  { rewrite list_getitem_nil in Hh0. discriminate. }
  rewrite list_getitem_head in Hh0. injection Hh0 as <-.
  apply bind_ok_inv in H. destruct H as (l0 & g1 & Hl0 & H).
  apply bind_ok_inv in H. destruct H as (mid & g2 & Hmid & H).
  apply bind_ok_inv in H. destruct H as (hl & s3 & Hhl & H).
  apply lift_ok_inv in Hhl. destruct Hhl as [-> Hhl].
  apply bind_ok_inv in H. destruct H as (ll & g3 & Hll & H).
  destruct (nn_Linear_ok_inv _ _ _ Hl0) as (_ & _ & _ & Hfh).
  destruct (nn_Linear_ok_inv _ _ _ Hll) as (_ & _ & _ & Hlast).
  change (first :: (h :: t) ++ [last]) with (first :: h :: (t ++ [last])).
  apply chain_fits_cons. split; [exact Hfh|].
  rewrite range_as_seq in Hmid.
  pose proof (@hidden_layers_range t [] h _ _ _ Hmid) as Hchain.
  destruct (last_of_nonempty h t) as (pre & z & E).
  rewrite E, list_getitem_last in Hhl. injection Hhl as <-.
  change (h :: t ++ [last]) with ((h :: t) ++ [last]).
  rewrite E in Hchain |- *. rewrite <- app_assoc. cbn [app].
  apply chain_fits_snoc. split; [exact Hchain | exact Hlast].
Qed.

End ConstructorArguments.

Section ConstructorProperties.

Context {SC : Scalar} {LB : Library}.

Lemma build_layers_empty (first last : Z) (g : torch_rng) :
  build_layers first [] last g = (g, Raise IndexError).
Proof.
  unfold build_layers. erewrite bind_raise; [reflexivity|].
  unfold lift. rewrite list_getitem_nil. reflexivity.
Qed.

(** X1.  [AE(in_dim, latent_dim, enc_lst, dec_lst)] returns a model exactly
    when both lists of hidden widths are non-empty and every affine layer
    of the two chains [in_dim, enc_lst..., latent_dim] and
    [latent_dim, dec_lst..., in_dim] fits: its two widths are machine
    integers that are not negative, and its weight of [out * in] 32-bit
    floats and its bias of [out] can be addressed, which is fewer than
    [2 ^ 61] elements each. *)
Theorem AE_init_returns_iff (i lat : Z) (enc_lst dec_lst : list Z) (g : torch_rng) :
  (exists g' ae, AE_init i lat enc_lst dec_lst g = (g', Ok ae)) <->
  (enc_lst <> [] /\ dec_lst <> [] /\
   chain_fits (i :: enc_lst ++ [lat]) /\ chain_fits (lat :: dec_lst ++ [i])).
Proof.
  split.
  - intros (g' & ae & H). unfold AE_init in H.
    apply bind_ok_inv in H. destruct H as (el & g1 & Hel & H).
    apply bind_ok_inv in H. destruct H as (dl & g2 & Hdl & H).
    destruct (build_layers_sig _ _ _ _ Hel) as [He _].
    destruct (build_layers_sig _ _ _ _ Hdl) as [Hd _].
    pose proof (build_layers_range _ _ _ _ Hel) as Henc.
    pose proof (build_layers_range _ _ _ _ Hdl) as Hdec.
    auto.
  - intros (He & Hd & Henc & Hdec).
    apply AE_init_ok; assumption.
Qed.

(** X2.  The constructor raises [IndexError] on an empty [enc_lst], before
    any parameter is drawn, and on an empty [dec_lst] once the encoder is
    built.  At the first layer, of [in_dim] inputs and [enc_lst[0]]
    outputs, it raises [TypeError] when one of the two widths is no machine
    integer, [RuntimeError] when both are and one is negative, and
    [RuntimeError] again when neither is negative and the weight or the
    bias has [2 ^ 61] elements or more. *)
Theorem AE_init_rejects (i lat : Z) (g : torch_rng) :
  (forall dec_lst,
      AE_init i lat [] dec_lst g = (g, Raise IndexError)) /\
  (forall enc_lst,
      enc_lst <> [] -> chain_fits (i :: enc_lst ++ [lat]) ->
      exists g', AE_init i lat enc_lst [] g = (g', Raise IndexError)) /\
  (forall h enc_lst dec_lst,
      i < - 2 ^ 63 \/ 2 ^ 63 <= i \/ h < - 2 ^ 63 \/ 2 ^ 63 <= h ->
      AE_init i lat (h :: enc_lst) dec_lst g = (g, Raise TypeError)) /\
  (forall h enc_lst dec_lst,
      - 2 ^ 63 <= i < 2 ^ 63 -> - 2 ^ 63 <= h < 2 ^ 63 -> i < 0 \/ h < 0 ->
      AE_init i lat (h :: enc_lst) dec_lst g = (g, Raise RuntimeError)) /\
  (forall h enc_lst dec_lst,
      0 <= i < 2 ^ 63 -> 0 <= h < 2 ^ 63 -> 2 ^ 61 <= h * i \/ 2 ^ 61 <= h ->
      AE_init i lat (h :: enc_lst) dec_lst g = (g, Raise RuntimeError)).
Proof.
  split; [|split; [|split; [|split]]].
  - intros dec_lst. unfold AE_init.
    erewrite bind_raise; [reflexivity|]. apply build_layers_empty.
  - intros enc_lst He Henc.
    destruct (@build_layers_ok _ _ i lat enc_lst g He Henc) as (g1 & el & Hel).
    exists g1. unfold AE_init.
    erewrite bind_ok by exact Hel.
    erewrite bind_raise; [reflexivity|]. apply build_layers_empty.
  - intros h enc_lst dec_lst Hbig. unfold AE_init, build_layers.
    erewrite bind_raise; [reflexivity|].
    erewrite bind_ok by (unfold lift; rewrite list_getitem_head; reflexivity).
    erewrite bind_raise; [reflexivity|].
    apply nn_Linear_overflow. exact Hbig.
  - intros h enc_lst dec_lst Hi Hh Hneg. unfold AE_init, build_layers.
    erewrite bind_raise; [reflexivity|].
    erewrite bind_ok by (unfold lift; rewrite list_getitem_head; reflexivity).
    erewrite bind_raise; [reflexivity|].
    apply nn_Linear_negative; assumption.
  - intros h enc_lst dec_lst Hi Hh Hbig. unfold AE_init, build_layers.
    erewrite bind_raise; [reflexivity|].
    erewrite bind_ok by (unfold lift; rewrite list_getitem_head; reflexivity).
    erewrite bind_raise; [reflexivity|].
    apply nn_Linear_storage; assumption.
Qed.

End ConstructorProperties.

(** ** Encoding, decoding and the forward pass *)

Section CodecProperties.

Context {SC : Scalar} {LB : Library}.

(** A stack that starts with an affine layer refuses every input whose
    elements are not 32-bit floats. *)
Lemma sequential_element_type (l : Linear) (tail : list layer) (x : tensor) :
  t_dtype x <> float32 ->
  sequential (LinearLayer l :: tail) x = Raise RuntimeError.
Proof.
  intros Hty. cbn [sequential layer_forward]. unfold linear_forward.
  destruct (rev (t_size x)) as [|k lead]; [reflexivity|].
  destruct (negb (device_eqb _ _)); [reflexivity|].
  destruct (t_dtype x); try reflexivity. contradiction Hty. reflexivity.
Qed.

(** The stack the constructor builds starts with an affine layer. *)
Lemma build_starts_affine (layers : list layer) (a : Z) (lst : list Z) (b : Z) :
  map layer_signature layers = mlp_sig (a :: lst ++ [b]) cpu ->
  exists l tail, layers = LinearLayer l :: tail.
Proof.
  intros H.
  assert (Hs : exists c tail, mlp_sig (a :: lst ++ [b]) cpu
                              = SigLinear a c cpu :: tail).
  { destruct lst as [|c [|c' lst']]; cbn [app mlp_sig]; eauto. }
  destruct Hs as (c & tail & Hs). rewrite Hs in H.
  destruct layers as [|[l|] rest]; try discriminate. eauto.
Qed.

(** X3.  For a constructed autoencoder and a host matrix of [n] rows of
    [in_dim] features ([n] may be zero): when the elements are 32-bit
    floats, [encode] sends it to [n] rows of [latent_dim] features and
    [decode] sends that back to [n] rows of [in_dim] features; on every
    other element type [encode] raises [RuntimeError]. *)
Theorem encode_decode_sizes (i lat : Z) (enc_lst dec_lst : list Z)
        (g g' : torch_rng) (ae : AE) (x : tensor) (n : Z) :
  AE_init i lat enc_lst dec_lst g = (g', Ok ae) ->
  t_size x = [n; i] -> t_device x = cpu ->
  (t_dtype x = float32 ->
   exists l y,
     encode ae x = Ok l /\ t_size l = [n; lat] /\ t_device l = cpu /\
     decode ae l = Ok y /\ t_size y = [n; i] /\ t_device y = cpu) /\
  (t_dtype x <> float32 -> encode ae x = Raise RuntimeError).
Proof.
  intros H Hsz Hdev.
  destruct (AE_init_inv _ _ _ _ _ H) as (_ & _ & Henc & Hdec).
  split.
  - intros Hty.
    assert (He : sig_out (map layer_signature (enc_model ae)) (t_device x) i
                 = Some lat) by (rewrite Henc, Hdev; apply sig_out_mlp).
    destruct (sequential_matrix (enc_model ae) x Hsz Hty He)
      as (l & Hl & Hls & Hld & Hlt & _).
    assert (Hd : sig_out (map layer_signature (dec_model ae)) (t_device l) lat
                 = Some i) by (rewrite Hdec, Hld, Hdev; apply sig_out_mlp).
    destruct (sequential_matrix (dec_model ae) l Hls Hlt Hd)
      as (y & Hy & Hys & Hyd & _).
    exists l, y. unfold encode, decode.
    repeat split; try assumption; congruence.
  - intros Hty. destruct (build_starts_affine _ _ _ _ Henc) as (l & tail & E).
    unfold encode. rewrite E. apply sequential_element_type. exact Hty.
Qed.

End CodecProperties.

Section ForwardProperties.

Context {SC : Scalar}.

Lemma tensor_eta (t : tensor) (s : list Z) :
  t_size t = s -> contiguous t ->
  mkStrided s (row_major s) (t_data t) (t_dtype t) (t_device t) = t.
Proof. unfold contiguous. intros <- Hc. rewrite <- Hc. destruct t; reflexivity. Qed.

(** What a stack of layers that completes on a matrix returns, whatever
    the element type. *)
Lemma sequential_layout (layers : list layer) :
  forall (x y : tensor) (n k k' : Z),
    t_size x = [n; k] ->
    sig_out (map layer_signature layers) (t_device x) k = Some k' ->
    sequential layers x = Ok y ->
    t_size y = [n; k'] /\ t_device y = t_device x /\
    (contiguous x -> contiguous y).
Proof.
  induction layers as [|ly rest IH]; intros x y n k k' Hsz Hout Hrun;
    cbn [map sig_out sequential] in *.
  - injection Hout as <-. injection Hrun as <-. auto.
  - destruct ly as [l|]; cbn [layer_signature layer_forward] in *.
    + destruct (device_eqb (t_device x) (l_device l) && (k =? in_features l));
        [|discriminate].
      unfold linear_forward in Hrun. rewrite Hsz in Hrun. cbn [rev app] in Hrun.
      destruct (negb (device_eqb _ _)); [discriminate|].
      destruct (negb (dtype_eqb _ _)); [discriminate|].
      destruct (negb (k =? _)); [discriminate|].
      cbn [rbind rev app] in Hrun.
      match type of Hrun with
      | sequential rest ?t = _ =>
          destruct (IH t y n (out_features l) k' eq_refl Hout Hrun)
            as (Hs & Hd & Hc)
      end.
      split; [exact Hs|]. split; [exact Hd|].
      intros _. apply Hc. reflexivity.
    + cbn [rbind] in Hrun.
      destruct (IH (relu_forward x) y n k k' Hsz Hout Hrun) as (Hs & Hd & Hc).
      split; [exact Hs|]. split; [exact Hd|].
      intros Hx. apply Hc. unfold contiguous, relu_forward in *.
      cbn [t_stride t_size]. rewrite Hx. apply keep_layout_contiguous.
Qed.

Lemma same_elements_refl (a : tensor) : same_elements a a.
Proof. unfold same_elements. auto. Qed.

Lemma same_elements_trans (a b c : tensor) :
  same_elements a b -> same_elements b c -> same_elements a c.
Proof.
  unfold same_elements. intros (H1 & H2 & H3 & H4) (G1 & G2 & G3 & G4).
  repeat split; congruence.
Qed.

(** A matrix with at least one row can be viewed as its rows, and under
    its own size, whatever its strides are; only the strides may change. *)
Lemma view_matrix (t : tensor) (n k : Z) (shape : list Z) :
  t_size t = [n; k] -> strided t -> 0 < n -> 0 <= k ->
  shape = [n; -1] \/ shape = [n; k] ->
  exists t', view t shape = Ok t' /\ same_elements t' t /\ strided t'.
Proof.
  intros Hsz Hst Hn Hk Hshape.
  assert (Hi : infer_size shape (numel t) = Ok [n; k]).
  { unfold numel. rewrite Hsz. destruct Hshape as [-> | ->].
    - rewrite !prod_sizes_cons. change (prod_sizes []) with 1.
      replace (n * (k * 1)) with (n * k) by lia.
      apply infer_size_rows. exact Hn.
    - apply infer_size_same. repeat constructor; lia. }
  unfold strided in Hst. rewrite Hsz in Hst.
  destruct (t_stride t) as [|a [|b [|c st]]] eqn:Es; try discriminate Hst.
  destruct (compute_stride_matrix a b Hn Hk) as (st' & Hc & Hlen).
  unfold view. rewrite Hi. cbn [rbind]. rewrite Hsz, Es, Hc.
  eexists. split; [reflexivity|]. split.
  - unfold same_elements. cbn [t_size t_data t_dtype t_device]. auto.
  - unfold strided. cbn [t_size t_stride]. exact Hlen.
Qed.

(** A stack of layers does not look at the strides of its input. *)
Lemma sequential_same (layers : list layer) :
  forall x x' : tensor,
    same_elements x x' ->
    same_result (sequential layers x) (sequential layers x').
Proof.
  induction layers as [|ly rest IH]; intros x x' Hx; cbn [sequential].
  - exact Hx.
  - destruct Hx as (Hs & Hd & Ht & Hv).
    destruct ly as [l|]; cbn [layer_forward].
    + unfold linear_forward. rewrite Hs, Hd, Ht, Hv.
      destruct (rev (t_size x')) as [|k lead]; [reflexivity|].
      destruct (negb (device_eqb _ _)); [reflexivity|].
      destruct (negb (dtype_eqb _ _)); [reflexivity|].
      destruct (negb (k =? _)); [reflexivity|].
      cbn [rbind]. apply IH. apply same_elements_refl.
    + cbn [rbind]. apply IH. unfold same_elements, relu_forward.
      cbn [t_size t_data t_dtype t_device]. rewrite Hd. auto.
Qed.

(** A stack of layers returns a tensor with one stride for each
    dimension when it is given one. *)
Lemma sequential_strided (layers : list layer) :
  forall x y : tensor,
    strided x -> sequential layers x = Ok y -> strided y.
Proof.
  induction layers as [|ly rest IH]; intros x y Hx Hrun; cbn [sequential] in Hrun.
  - injection Hrun as <-. exact Hx.
  - destruct ly as [l|]; cbn [layer_forward] in Hrun.
    + destruct (linear_forward l x) as [h|e] eqn:Eh; [|discriminate].
      cbn [rbind] in Hrun. apply (IH h y); [|exact Hrun].
      unfold linear_forward in Eh.
      destruct (rev (t_size x)) as [|k lead]; [discriminate|].
      destruct (negb (device_eqb _ _)); [discriminate|].
      destruct (negb (dtype_eqb _ _)); [discriminate|].
      destruct (negb (k =? _)); [discriminate|].
      injection Eh as <-. unfold strided. cbn [t_stride t_size].
      apply row_major_length.
    + cbn [rbind] in Hrun. apply (IH (relu_forward x) y); [|exact Hrun].
      unfold strided, relu_forward. cbn [t_stride t_size].
      apply keep_layout_length. exact Hx.
Qed.

Lemma contiguous_strided (t : tensor) : contiguous t -> strided t.
Proof.
  unfold contiguous, strided. intros ->. apply row_major_length.
Qed.

(** X4.  On a matrix with at least one row the forward pass is [decode]
    after [encode], whatever the element type and whether or not the
    layers accept it.  Whatever the strides of the matrix are, the two end
    alike: with the same exception, or with the same elements under the
    same size, of the same type and on the same device.  On a contiguous
    matrix the two are equal, layout included: each reshape then gives
    back the tensor it is given. *)
Theorem forward_is_decode_encode (ae : AE) (x : tensor) (n : Z) :
  model_ok ae (t_device x) = true ->
  t_size x = [n; in_dim ae] -> 0 < n -> 0 <= in_dim ae ->
  (strided x ->
   same_result (forward ae x) (try h <- encode ae x ;; decode ae h)) /\
  (contiguous x ->
   forward ae x = (try h <- encode ae x ;; decode ae h)).
Proof.
  intros Hok Hsz Hn Hin.
  destruct (model_ok_inv _ _ Hok) as (lat & Henc & Hdec).
  split.
  - intros Hst.
    destruct (view_matrix Hsz Hst Hn Hin (or_introl eq_refl))
      as (x' & Hv & Hsame & Hst').
    unfold forward, size0. rewrite Hsz. cbn [rbind]. rewrite Hv. cbn [rbind].
    unfold encode, decode.
    pose proof (sequential_same (enc_model ae) Hsame) as He.
    destruct Hsame as (Hxs & _ & _ & Hxd).
    rewrite Hsz in Hxs. rewrite <- Hxd in Henc, Hdec.
    destruct (sequential (enc_model ae) x') as [h'|e'] eqn:Eh';
      destruct (sequential (enc_model ae) x) as [h|e] eqn:Eh;
      cbn [same_result] in He; try contradiction; cbn [rbind];
      [|exact He].
    pose proof (sequential_same (dec_model ae) He) as Hd.
    destruct (sequential_layout _ _ Hxs Henc Eh') as (Hhs & Hhd & _).
    rewrite <- Hhd in Hdec.
    destruct (sequential (dec_model ae) h') as [y'|e'] eqn:Ey';
      destruct (sequential (dec_model ae) h) as [y|e] eqn:Ey;
      cbn [same_result] in Hd; try contradiction; cbn [rbind];
      [|exact Hd].
    destruct (sequential_layout _ _ Hhs Hdec Ey') as (Hys & _ & _).
    assert (Hyst : strided y').
    { apply (sequential_strided (dec_model ae) (x := h')); [|exact Ey'].
      apply (sequential_strided (enc_model ae) (x := x')); assumption. }
    destruct (view_matrix Hys Hyst Hn Hin (or_intror eq_refl))
      as (y'' & Hv' & Hsame' & _).
    rewrite Hv'. cbn [same_result].
    apply same_elements_trans with (b := y'); assumption.
  - intros Hc.
    unfold forward, size0. rewrite Hsz. cbn [rbind].
    rewrite (view_flat Hc Hsz Hn) by (repeat constructor; exact Hin).
    cbn [rbind].
    replace (prod_sizes [in_dim ae]) with (in_dim ae)
      by (rewrite prod_sizes_cons; change (prod_sizes []) with 1; lia).
    rewrite (tensor_eta Hsz Hc).
    unfold encode, decode.
    destruct (sequential (enc_model ae) x) as [h|e] eqn:Eh; [|reflexivity].
    cbn [rbind].
    destruct (sequential_layout _ _ Hsz Henc Eh) as (Hhs & Hhd & Hhc).
    destruct (sequential (dec_model ae) h) as [y|e] eqn:Ey; [|reflexivity].
    cbn [rbind].
    rewrite <- Hhd in Hdec.
    destruct (sequential_layout _ _ Hhs Hdec Ey) as (Hys & Hyd & Hyc).
    rewrite view_as.
    + rewrite (tensor_eta Hys (Hyc (Hhc Hc))). reflexivity.
    + exact (Hyc (Hhc Hc)).
    + rewrite Hys. discriminate.
    + rewrite Hys. repeat constructor; lia.
    + repeat constructor; lia.
    + unfold numel. rewrite Hys. reflexivity.
Qed.

(** X5.  The forward pass raises [IndexError] on a tensor without
    dimensions, and [RuntimeError] on a tensor of no examples and on one
    whose examples do not flatten to the width of the first encoder
    layer. *)
Theorem forward_rejects (ae : AE) (x : tensor) :
  (t_size x = [] -> forward ae x = Raise IndexError) /\
  (forall rest, t_size x = 0 :: rest -> forward ae x = Raise RuntimeError) /\
  (forall n rest l layers,
      t_size x = n :: rest -> 0 < n ->
      enc_model ae = LinearLayer l :: layers ->
      prod_sizes rest <> in_features l ->
      forward ae x = Raise RuntimeError).
Proof.
  split; [|split].
  - intros Hsz. unfold forward, size0. rewrite Hsz. reflexivity.
  - intros rest Hsz. apply forward_no_example with (rest := rest). exact Hsz.
  - intros n rest l layers Hsz Hn Henc Hne.
    unfold forward, size0. rewrite Hsz. cbn [rbind].
    destruct (view x [n; -1]) as [flat_x|e] eqn:Ev.
    2:{ cbn [rbind]. f_equal. eapply view_raises. exact Ev. }
    cbn [rbind].
    destruct (view_inv _ _ Ev) as (Hi & _).
    unfold numel in Hi. rewrite Hsz, prod_sizes_cons in Hi.
    rewrite infer_size_rows in Hi by exact Hn. injection Hi as Hfs.
    unfold encode. rewrite Henc. cbn [sequential layer_forward].
    unfold linear_forward. rewrite <- Hfs. cbn [rev app].
    destruct (negb (device_eqb _ _)); [reflexivity|].
    destruct (negb (dtype_eqb _ _)); [reflexivity|].
    replace (prod_sizes rest =? in_features l) with false
      by (symmetry; apply Z.eqb_neq; exact Hne).
    reflexivity.
Qed.

End ForwardProperties.

(** ** Examples are reconstructed one by one *)

Section RowFacts.

Context {SC : Scalar}.

Lemma rows_from (k : nat) :
  forall (n s : nat) (d : list scalar),
    map (fun i => firstn k (skipn (i * k) d)) (seq s n) =
    map (fun i => firstn k (skipn (i * k) (skipn (s * k) d))) (seq 0 n).
Proof.
  induction n as [|n IH]; intros s d.
  - reflexivity.
  - cbn [seq map]. f_equal.
    rewrite (IH (S s) d), (IH 1%nat (skipn (s * k) d)). apply map_ext. intros i.
    rewrite !skipn_skipn. f_equal. f_equal. lia.
Qed.

Lemma rows_of_concat (n k : Z) (ls : list (list scalar)) :
  length ls = Z.to_nat n ->
  Forall (fun r => length r = Z.to_nat k) ls ->
  rows_of n k (concat ls) = ls.
Proof.
  unfold rows_of. generalize (Z.to_nat k) as m. generalize (Z.to_nat n) as c.
  intros c m Hlen Hall. subst c.
  induction Hall as [|r ls Hr Hall IH].
  - reflexivity.
  - simpl length. simpl seq. simpl map. simpl concat. f_equal.
    + rewrite firstn_app, Hr, Nat.sub_diag, firstn_all2 by lia.
      simpl. apply app_nil_r.
    + rewrite rows_from. rewrite <- IH at 2. apply map_ext. intros i.
      f_equal. f_equal. rewrite Nat.mul_1_l.
      rewrite skipn_app, Hr, Nat.sub_diag, skipn_all2 by lia. reflexivity.
Qed.

Lemma concat_rows_of (n k : Z) (d : list scalar) :
  length d = (Z.to_nat n * Z.to_nat k)%nat ->
  concat (rows_of n k d) = d.
Proof.
  unfold rows_of. generalize (Z.to_nat k) as m. generalize (Z.to_nat n) as c.
  intros c m. revert d. induction c as [|c IH]; intros d Hlen.
  - simpl in *. destruct d; [reflexivity | discriminate].
  - simpl seq. simpl map. simpl concat.
    rewrite rows_from, Nat.mul_1_l, IH.
    + apply firstn_skipn.
    + rewrite length_skipn, Hlen. simpl. lia.
Qed.

Lemma rows_of_length (n k : Z) (d : list scalar) :
  length (rows_of n k d) = Z.to_nat n.
Proof. unfold rows_of. rewrite length_map, length_seq. reflexivity. Qed.

Lemma rows_of_widths (n k : Z) (d : list scalar) :
  length d = (Z.to_nat n * Z.to_nat k)%nat ->
  Forall (fun r => length r = Z.to_nat k) (rows_of n k d).
Proof.
  intros Hlen. unfold rows_of. apply Forall_forall. intros r Hin.
  apply in_map_iff in Hin. destruct Hin as (i & <- & Hi).
  apply in_seq in Hi. rewrite length_firstn, length_skipn, Hlen. nia.
Qed.

Lemma rows_of_nth (n k : Z) (d : list scalar) (j : nat) :
  (j < Z.to_nat n)%nat ->
  nth j (rows_of n k d) [] = firstn (Z.to_nat k) (skipn (j * Z.to_nat k) d).
Proof.
  intros Hj. unfold rows_of.
  rewrite (nth_indep _ [] (firstn (Z.to_nat k) (skipn (0 * Z.to_nat k) d)))
    by (rewrite length_map, length_seq; exact Hj).
  rewrite (map_nth (fun i => firstn (Z.to_nat k) (skipn (i * Z.to_nat k) d))).
  rewrite seq_nth by exact Hj. reflexivity.
Qed.

Lemma affine_row_length (l : Linear) (r : list scalar) :
  layer_wf (LinearLayer l) ->
  length (affine_row l r) = Z.to_nat (out_features l).
Proof.
  intros [Hw Hb]. unfold affine_row.
  rewrite length_map, length_combine, Hw, Hb. apply Nat.min_id.
Qed.

Lemma row_forward_length (d : device) (layers : list layer) :
  forall (k k' : Z) (r : list scalar),
    Forall layer_wf layers ->
    sig_out (map layer_signature layers) d k = Some k' ->
    length r = Z.to_nat k ->
    length (row_forward layers r) = Z.to_nat k'.
Proof.
  induction layers as [|ly rest IH]; intros k k' r Hwf Hsig Hr; simpl in *.
  - injection Hsig as <-. exact Hr.
  - inversion Hwf as [|? ? Hly Hrest]; subst.
    destruct ly as [l|]; simpl in Hsig.
    + destruct (device_eqb d (l_device l) && (k =? in_features l)); [|discriminate].
      apply (IH (out_features l) k'); try assumption.
      apply affine_row_length. exact Hly.
    + apply (IH k k'); try assumption. rewrite length_map. exact Hr.
Qed.

(** A stack of layers treats the rows of a matrix one by one. *)
Lemma sequential_rows (layers : list layer) :
  forall (x : tensor) (n k k' : Z) (rows : list (list scalar)),
    t_size x = [n; k] ->
    t_dtype x = float32 ->
    t_data x = concat rows ->
    length rows = Z.to_nat n ->
    Forall (fun r => length r = Z.to_nat k) rows ->
    Forall layer_wf layers ->
    sig_out (map layer_signature layers) (t_device x) k = Some k' ->
    exists y, sequential layers x = Ok y /\
              t_size y = [n; k'] /\ t_device y = t_device x /\
              (contiguous x -> contiguous y) /\
              t_data y = concat (map (row_forward layers) rows).
Proof.
  induction layers as [|ly rest IH];
    intros x n k k' rows Hsz Hty Hdata Hlen Hrows Hwf Hsig; simpl in *.
  - injection Hsig as <-. exists x. rewrite map_id. auto.
  - inversion Hwf as [|? ? Hly Hrest]; subst.
    destruct ly as [l|]; simpl in Hsig.
    + destruct (device_eqb (t_device x) (l_device l)) eqn:Hd; [|discriminate].
      destruct (k =? in_features l) eqn:Hk; [|discriminate].
      simpl in Hsig.
      cbn [layer_forward]. unfold linear_forward.
      rewrite Hsz. simpl rev. rewrite Hd, Hty, Hk. cbn [negb rbind dtype_eqb].
      rewrite prod_sizes_cons. change (prod_sizes []) with 1.
      cbn [app]. replace (n * 1) with n by lia.
      rewrite Hdata, (@rows_of_concat n k rows Hlen Hrows), flat_map_concat_map.
      match goal with |- context [sequential rest ?t] => set (y0 := t) end.
      destruct (IH y0 n (out_features l) k' (map (affine_row l) rows))
        as (y & Hy & Hys & Hyd & Hyc & Hydata); try reflexivity; try assumption.
      { rewrite length_map. exact Hlen. }
      { apply Forall_map. apply Forall_forall. intros r _.
        apply affine_row_length. exact Hly. }
      exists y. rewrite map_map in Hydata.
      split; [exact Hy|]. split; [exact Hys|]. split; [exact Hyd|].
      split; [intros _; apply Hyc; reflexivity | exact Hydata].
    + destruct (IH (relu_forward x) n k k' (map (map (s_max s_zero)) rows))
        as (y & Hy & Hys & Hyd & Hyc & Hydata); try assumption.
      { unfold relu_forward. cbn [t_data]. rewrite Hdata. apply concat_map. }
      { rewrite length_map. exact Hlen. }
      { apply Forall_map. eapply Forall_impl; [|exact Hrows].
        intros r Hr. rewrite length_map. exact Hr. }
      exists y. rewrite map_map in Hydata.
      split; [exact Hy|]. split; [exact Hys|]. split; [exact Hyd|].
      split; [|exact Hydata].
      intros Hx. apply Hyc. unfold contiguous, relu_forward in *.
      cbn [t_stride t_size]. rewrite Hx. apply keep_layout_contiguous.
Qed.

End RowFacts.

Section ExampleByExample.

Context {SC : Scalar} {LB : Library}.

(** The forward pass, row by row. *)
Lemma forward_rows (ae : AE) (x : tensor) (n : Z) (rest : list Z) :
  model_ok ae (t_device x) = true ->
  params_wf ae ->
  t_dtype x = float32 -> contiguous x ->
  t_size x = n :: rest -> 0 < n ->
  Forall (fun d => 0 <= d) rest -> prod_sizes rest = in_dim ae ->
  length (t_data x) = (Z.to_nat n * Z.to_nat (in_dim ae))%nat ->
  exists y,
    forward ae x = Ok y /\ t_size y = t_size x /\ t_device y = t_device x /\
    t_data y =
      concat (map (fun r => row_forward (dec_model ae) (row_forward (enc_model ae) r))
                  (rows_of n (in_dim ae) (t_data x))) /\
    Forall (fun r => length r = Z.to_nat (in_dim ae))
           (map (fun r => row_forward (dec_model ae) (row_forward (enc_model ae) r))
                (rows_of n (in_dim ae) (t_data x))).
Proof.
  intros Hok [Hwe Hwd] Hty Hc Hsz Hn Hrest Hprod Hlen.
  destruct (model_ok_inv _ _ Hok) as (lat & Henc & Hdec).
  set (rows := rows_of n (in_dim ae) (t_data x)).
  assert (Hrl : length rows = Z.to_nat n) by apply rows_of_length.
  assert (Hrw : Forall (fun r => length r = Z.to_nat (in_dim ae)) rows)
    by (apply rows_of_widths; exact Hlen).
  assert (Hin : 0 <= in_dim ae)
    by (rewrite <- Hprod; apply prod_sizes_nonneg; exact Hrest).
  unfold forward, size0. rewrite Hsz. cbn [rbind].
  rewrite (view_flat Hc Hsz Hn Hrest). cbn [rbind]. rewrite Hprod.
  set (flat_x := mkStrided [n; in_dim ae] (row_major [n; in_dim ae])
                           (t_data x) (t_dtype x) (t_device x)).
  destruct (@sequential_rows _ (enc_model ae) flat_x n (in_dim ae) lat rows)
    as (h & Hh & Hhs & Hhd & Hhc & Hhdata); try assumption; try reflexivity.
  { unfold flat_x, rows. cbn [t_data]. symmetry. apply concat_rows_of. exact Hlen. }
  assert (Hht : t_dtype h = float32).
  { destruct (sequential_matrix (enc_model ae) flat_x eq_refl Hty Henc)
      as (h' & Hh' & _ & _ & Hht & _).
    rewrite Hh in Hh'. injection Hh' as <-. exact Hht. }
  assert (Hhw : Forall (fun r => length r = Z.to_nat lat)
                       (map (row_forward (enc_model ae)) rows)).
  { apply Forall_map. eapply Forall_impl; [|exact Hrw]. intros r Hr.
    apply (@row_forward_length _ (t_device x) (enc_model ae) (in_dim ae) lat r);
      assumption. }
  change (t_device flat_x) with (t_device x) in Hhd.
  rewrite <- Hhd in Hdec.
  destruct (@sequential_rows _ (dec_model ae) h n lat (in_dim ae)
              (map (row_forward (enc_model ae)) rows))
    as (y & Hy & Hys & Hyd & Hyc & Hydata); try assumption.
  { rewrite length_map. exact Hrl. }
  unfold encode, decode. rewrite Hh. cbn [rbind]. rewrite Hy. cbn [rbind].
  rewrite (@view_as _ y (n :: rest)).
  2:{ apply Hyc, Hhc. reflexivity. }
  2:{ rewrite Hys. discriminate. }
  2:{ rewrite Hys. repeat constructor; lia. }
  2:{ constructor; [lia | exact Hrest]. }
  2:{ unfold numel. rewrite Hys, !prod_sizes_cons, Hprod.
      change (prod_sizes []) with 1. lia. }
  eexists. split; [reflexivity|]. cbn [t_size t_data t_device].
  rewrite map_map in Hydata.
  split; [reflexivity|]. split; [congruence|]. split; [exact Hydata|].
  rewrite <- (map_map (row_forward (enc_model ae)) (row_forward (dec_model ae))).
  apply Forall_map. eapply Forall_impl; [|exact Hhw]. intros r Hr.
  rewrite Hhd in Hdec.
  apply (@row_forward_length _ (t_device x) (dec_model ae) lat (in_dim ae) r);
    assumption.
Qed.

Lemma params_wfb_wf (ae : AE) : params_wfb ae = true -> params_wf ae.
Proof.
  unfold params_wfb, params_wf. intros H.
  apply andb_true_iff in H. destruct H as [He Hd].
  assert (Hl : forall ls, forallb layer_wfb ls = true -> Forall layer_wf ls).
  { intros ls Hls. apply Forall_forall. intros ly Hin.
    rewrite forallb_forall in Hls. specialize (Hls ly Hin).
    destruct ly as [l|]; [|exact I]. cbn in *.
    apply andb_true_iff in Hls. destruct Hls as [Hw Hb].
    apply Nat.eqb_eq in Hw, Hb. auto. }
  split; apply Hl; assumption.
Qed.

(** X6.  Examples are reconstructed independently: for a contiguous batch
    of 32-bit floats, the forward pass on the batch made of example [j]
    alone gives example [j] of the forward pass on the whole batch. *)
Theorem forward_example_by_example (ae : AE) (x : tensor) (n : Z)
        (rest : list Z) (j : nat) :
  model_ok ae (t_device x) = true ->
  params_wfb ae = true ->
  t_dtype x = float32 -> contiguous x ->
  t_size x = n :: rest -> 0 < n ->
  Forall (fun d => 0 <= d) rest -> prod_sizes rest = in_dim ae ->
  length (t_data x) = (Z.to_nat n * Z.to_nat (in_dim ae))%nat ->
  (j < Z.to_nat n)%nat ->
  exists y yj,
    forward ae x = Ok y /\
    forward ae (collate x [j]) = Ok yj /\
    t_size yj = 1 :: rest /\
    t_data yj = example_at y j.
Proof.
  intros Hok Hwfb Hty Hc Hsz Hn Hrest Hprod Hlen Hj.
  pose proof (params_wfb_wf ae Hwfb) as Hwf.
  destruct (@forward_rows ae x n rest Hok Hwf Hty Hc Hsz Hn Hrest Hprod Hlen)
    as (y & Hy & Hys & Hyd & Hydata & Hyw).
  set (F := fun r => row_forward (dec_model ae) (row_forward (enc_model ae) r)) in *.
  set (p := Z.to_nat (in_dim ae)) in *.
  assert (Hex : example_at x j = nth j (rows_of n (in_dim ae) (t_data x)) []).
  { unfold example_at. rewrite Hsz. cbn [tl]. rewrite Hprod.
    symmetry. apply rows_of_nth. exact Hj. }
  assert (Hexl : length (example_at x j) = p).
  { unfold example_at. rewrite Hsz. cbn [tl]. rewrite Hprod. fold p.
    rewrite length_firstn, length_skipn, Hlen. fold p. nia. }
  assert (Hszj : t_size (collate x [j]) = 1 :: rest).
  { unfold collate. cbn [t_size]. rewrite Hsz. reflexivity. }
  assert (Hdataj : t_data (collate x [j]) = concat [example_at x j]) by reflexivity.
  destruct (@forward_rows ae (collate x [j]) 1 rest Hok Hwf Hty eq_refl Hszj
                          ltac:(lia) Hrest Hprod)
    as (yj & Hyj & Hyjs & _ & Hyjdata & _).
  { rewrite Hdataj. cbn [concat]. rewrite app_nil_r, Hexl. fold p.
    change (Z.to_nat 1) with 1%nat. lia. }
  exists y, yj. split; [exact Hy|]. split; [exact Hyj|].
  split; [rewrite Hyjs; exact Hszj|].
  rewrite Hyjdata, Hdataj.
  rewrite (@rows_of_concat _ 1 (in_dim ae) [example_at x j]);
    [| reflexivity | constructor; [exact Hexl | constructor]].
  fold F. cbn [map concat]. rewrite app_nil_r.
  unfold example_at at 2. rewrite Hys, Hsz. cbn [tl]. rewrite Hprod.
  rewrite <- (@rows_of_nth _ n (in_dim ae) (t_data y) j Hj).
  rewrite Hydata.
  rewrite (@rows_of_concat _ n (in_dim ae)
             (map F (rows_of n (in_dim ae) (t_data x))));
    [| rewrite length_map; apply rows_of_length | exact Hyw].
  rewrite (nth_indep _ [] (F [])) by (rewrite length_map, rows_of_length; exact Hj).
  rewrite map_nth. rewrite <- Hex. reflexivity.
Qed.

End ExampleByExample.

(** ** What the driver does to the model *)

Section ArchitectureFacts.

Context {SC : Scalar} {LB : Library}.

Lemma layer_to_twice (D d : device) (ly : layer) :
  layer_to d (layer_to D ly) = layer_to d ly.
Proof. destruct ly; reflexivity. Qed.

Lemma AE_to_twice (ae : AE) (D d : device) :
  AE_to (AE_to ae D) d = AE_to ae d.
Proof.
  unfold AE_to. cbn [in_dim out_dim enc_model dec_model].
  rewrite !map_map.
  f_equal; apply map_ext; intros ly; apply layer_to_twice.
Qed.

Lemma layers_to_signature (d : device) (ls' : list layer) :
  forall ls,
    map layer_signature ls' = map layer_signature ls ->
    map layer_signature (map (layer_to d) ls')
    = map layer_signature (map (layer_to d) ls).
Proof.
  induction ls' as [|a ls' IH]; intros [|b ls] H; try discriminate H.
  - reflexivity.
  - cbn [map] in *. injection H as Hab Hrest.
    f_equal; [|apply IH; exact Hrest].
    destruct a as [la|], b as [lb|]; try discriminate Hab; [|reflexivity].
    cbn in *. injection Hab as -> -> _. reflexivity.
Qed.

Lemma signature_AE_to (ae' ae : AE) (d : device) :
  signature ae' = signature ae ->
  signature (AE_to ae' d) = signature (AE_to ae d).
Proof.
  unfold signature. intros H. injection H as E1 E2 E3 E4.
  cbn [AE_to in_dim out_dim enc_model dec_model].
  rewrite E1, E2, (layers_to_signature d _ _ E3), (layers_to_signature d _ _ E4).
  reflexivity.
Qed.

Lemma keeps_bind {A B : Type} (m : M world A) (k : A -> M world B) :
  keeps_architecture m -> (forall a, keeps_architecture (k a)) ->
  keeps_architecture (bind m k).
Proof.
  intros Hm Hk w. unfold bind. specialize (Hm w).
  destruct (m w) as [w1 [a|e]]; cbn [fst] in Hm.
  - rewrite Hk. exact Hm.
  - exact Hm.
Qed.

Lemma keeps_silent {A : Type} (m : M world A) :
  silent m -> keeps_architecture m.
Proof. intros H w. rewrite H. reflexivity. Qed.

Lemma keeps_print (line : string) : keeps_architecture (print line).
Proof. intros w. reflexivity. Qed.

Lemma keeps_for_each {X L : Type} (body : L -> X -> M world L) (xs : list X) :
  (forall acc x, keeps_architecture (body acc x)) ->
  forall acc, keeps_architecture (for_each body xs acc).
Proof.
  intros Hbody. induction xs as [|x xs IH]; intros acc; cbn [for_each].
  - apply keeps_silent, silent_ret.
  - apply keeps_bind; [apply Hbody | exact IH].
Qed.

(** An optimisation step either stops before the update or installs the
    updated model. *)
Lemma batch_step_net (dev : device) (batch_size : Z) (loc : locals)
      (b : tensor) (w : world) :
  let w' := fst (batch_step dev batch_size loc b w) in
  stdout w' = stdout w /\
  (net w' = net w \/
   net w' = snd (backward_step (optim loc) (net w) (tensor_to b dev))).
Proof.
  unfold batch_step, bind, gets, lift, set_net, modify, ret. cbv zeta.
  destruct (forward (net w) (tensor_to b dev)) as [rec|e]; [|auto].
  destruct (view_rows rec batch_size) as [inp|e]; [|auto].
  destruct (view_rows (tensor_to b dev) batch_size) as [tgt|e]; [|auto].
  destruct (loss_fn inp tgt) as [loss|e]; [|auto].
  destruct (backward_step (optim loc) (net w) (tensor_to b dev)) as [o' ae'].
  cbn [snd].
  destruct (setitem (mse_loss loc) (i loc) loss) as [m|e]; cbn; auto.
Qed.

Lemma batch_step_keeps (dev : device) (batch_size : Z) (loc : locals)
      (b : tensor) :
  keeps_architecture (batch_step dev batch_size loc b).
Proof.
  intros w. destruct (batch_step_net dev batch_size loc b w) as [_ [H|H]];
    rewrite H; [reflexivity | apply backward_step_signature].
Qed.

Lemma report_keeps (val_dataset : option tensor) (loc : locals) (epoch : Z) :
  keeps_architecture (report val_dataset loc epoch).
Proof.
  unfold report.
  repeat match goal with
         | |- keeps_architecture (bind _ _) => apply keeps_bind; [|intro]
         | |- keeps_architecture (print _) => apply keeps_print
         | |- keeps_architecture (if ?c then _ else _) => destruct c
         | |- keeps_architecture (match ?x with _ => _ end) => destruct x
         | |- keeps_architecture _ =>
             solve [apply keeps_silent; auto with silent]
         end.
Qed.

Lemma epoch_body_keeps (dataset : tensor) (dev : device)
      (val_dataset : option tensor) (batch_size : Z) (loader : loader_t)
      (loc : locals) (epoch : Z) :
  keeps_architecture
    (epoch_body dataset dev val_dataset batch_size loader loc epoch).
Proof.
  unfold epoch_body. destruct (loader_iter loader (g_seed loc)) as [batches g'].
  apply keeps_bind; [apply keeps_for_each; intros; apply batch_step_keeps|].
  intros loc1. apply keeps_bind.
  - apply keeps_silent, no_grad_block_silent.
  - intros loc2. apply keeps_bind; [apply report_keeps|].
    intros _. apply keeps_silent, silent_ret.
Qed.

Lemma run_epochs_keeps (dataset : tensor) (dev : device)
      (val_dataset : option tensor) (epochs batch_size : Z) (loader : loader_t)
      (loc : locals) (k : Z) :
  keeps_architecture
    (run_epochs dataset dev val_dataset epochs batch_size loader loc k).
Proof.
  unfold run_epochs, epochs_loop. apply keeps_bind; [apply keeps_print|].
  intros _. apply keeps_for_each. intros. apply epoch_body_keeps.
Qed.

(** The validation history a completed loop holds. *)
Lemma run_epochs_val (G : globals) (dataset : tensor) (dev : device)
      (val_dataset : option tensor) (epochs batch_size seed : Z)
      (w w1 wE : world) (loader : loader_t) (loc0 locE : locals) :
  setup G dataset dev val_dataset epochs batch_size seed w
    = (w1, Ok (loader, loc0)) ->
  run_epochs dataset dev val_dataset epochs batch_size loader loc0 epochs w1
    = (wE, Ok locE) ->
  val_matches epochs val_dataset (full_val_loss locE).
Proof.
  intros Hsetup Hrun.
  pose proof (setup_inv _ _ _ _ _ _ _ _ Hsetup) as Hinv.
  destruct Hinv as (D & n & HD & -> & Hn & Hnpos & Hbpos & Hep & -> & Hi0 &
                    Hmse & Hfml & Hval & _ & _).
  assert (HN : t_size (mse_loss loc0) = [epochs * n / batch_size]) by apply Hmse.
  pose proof (@epochs_loop_inv _ _ dataset dev val_dataset _ _ _ _ loc0
                (mkWorld (stdout w ++ [trange_line epochs]) (AE_to (net w) D))
                Hnpos Hbpos Hi0 HN Hfml Hval (Z.to_nat epochs) wE locE) as Hr.
  cbv zeta in Hr. rewrite Z2Nat.id in Hr by exact Hep.
  rewrite run_epochs_eq in Hrun. apply Hr in Hrun. tauto.
Qed.

(** X7.  Whatever [train_autoencoder] does to the parameters, it leaves
    the model with the layers it had: when the call returns, the model has
    the same layer sizes and every parameter is on the host; when it
    raises, the model has the same layer sizes and every parameter is on
    the global [DEVICE], where line 105 moved it. *)
Theorem train_autoencoder_keeps_architecture
        (G : globals) (dataset : tensor) (dev : device)
        (val_dataset : option tensor) (epochs batch_size seed : Z)
        (w : world) (D : device) :
  DEVICE G = Some D ->
  match train_autoencoder G dataset dev val_dataset epochs batch_size seed w with
  | (w', Ok _) => signature (net w') = signature (AE_to (net w) cpu)
  | (w', Raise _) => signature (net w') = signature (AE_to (net w) D)
  end.
Proof.
  intros HD.
  pose proof (setup_world G dataset dev val_dataset epochs batch_size seed w HD)
    as Hw1.
  unfold train_autoencoder.
  destruct (setup G dataset dev val_dataset epochs batch_size seed w)
    as [w1 [[loader loc0]|e]] eqn:Es; cbn [fst] in Hw1.
  2:{ erewrite bind_raise by exact Es. rewrite Hw1. reflexivity. }
  erewrite bind_ok by exact Es.
  pose proof (run_epochs_keeps dataset dev val_dataset epochs batch_size loader
                               loc0 epochs w1) as Hk.
  destruct (run_epochs dataset dev val_dataset epochs batch_size loader loc0
                       epochs w1)
    as [wE [locE|e]] eqn:Er; cbn [fst] in Hk.
  2:{ erewrite bind_raise by exact Er. rewrite Hk, Hw1. reflexivity. }
  erewrite bind_ok by exact Er.
  erewrite bind_ok by reflexivity.
  erewrite bind_ok by reflexivity.
  assert (Hsig : signature (AE_to (net wE) cpu) = signature (AE_to (net w) cpu)).
  { rewrite (signature_AE_to cpu Hk), Hw1. cbn [net].
    rewrite AE_to_twice. reflexivity. }
  assert (Hval : val_matches epochs val_dataset (full_val_loss locE))
    by (eapply run_epochs_val; eassumption).
  unfold val_matches in Hval.
  destruct val_dataset as [v|]; destruct (full_val_loss locE) as [fvl|];
    try contradiction; cbn; exact Hsig.
Qed.

(** X8.  When the call returns, everything it leaves behind is on the
    host: the training history, the validation history if there is one,
    and every parameter of the model. *)
Theorem train_autoencoder_returns_on_host
        (G : globals) (dataset : tensor) (dev : device)
        (val_dataset : option tensor) (epochs batch_size seed : Z)
        (w w' : world) (tr : tensor) (val : option tensor) :
  train_autoencoder G dataset dev val_dataset epochs batch_size seed w
    = (w', Ok (tr, val)) ->
  t_device tr = cpu /\
  match val with
  | Some vt => t_device vt = cpu
  | None => True
  end /\
  Forall (fun ly => forall l, ly = LinearLayer l -> l_device l = cpu)
         (enc_model (net w') ++ dec_model (net w')).
Proof.
  intros H. apply train_autoencoder_inv in H.
  destruct H as (D & n & loc0 & wE & locE & H). cbv zeta in H.
  destruct H as (_ & _ & _ & _ & _ & _ & _ & _ & _ & _ & _ & -> & -> & ->).
  split; [apply tensor_to_device|]. split.
  - destruct (full_val_loss locE); [apply tensor_to_device | exact I].
  - cbn [net]. apply Forall_app. split; apply AE_to_devices.
Qed.

End ArchitectureFacts.

(** ** Calls that stop early *)

Section EarlyExits.

Context {SC : Scalar} {LB : Library}.

(** A model whose first layer is affine refuses a batch held by another
    device than that layer's parameters. *)
Lemma forward_wrong_device (ae : AE) (x : tensor) (n : Z) (rest : list Z)
      (l : Linear) (layers : list layer) :
  t_size x = n :: rest ->
  enc_model ae = LinearLayer l :: layers ->
  t_device x <> l_device l ->
  forward ae x = Raise RuntimeError.
Proof.
  intros Hsz Henc Hdev. unfold forward, size0. rewrite Hsz. cbn [rbind].
  destruct (view x [n; -1]) as [flat_x|e] eqn:Ev.
  2:{ cbn [rbind]. f_equal. eapply view_raises. exact Ev. }
  cbn [rbind]. destruct (view_inv _ _ Ev) as (_ & _ & _ & Hd).
  unfold encode. rewrite Henc.
  cbn [sequential layer_forward]. unfold linear_forward.
  destruct (rev (t_size flat_x)) as [|k lead]; [reflexivity|].
  rewrite Hd, (device_eqb_neq Hdev). reflexivity.
Qed.

Lemma batch_sampler_nonempty (bs : nat) (sampler : list nat) :
  forall batch,
    batch ++ sampler <> [] ->
    exists b rest, batch_sampler bs batch sampler = b :: rest.
Proof.
  induction sampler as [|idx tl IH]; intros batch Hne.
  - rewrite app_nil_r in Hne. destruct batch as [|a batch']; [contradiction|].
    cbn [batch_sampler]. eauto.
  - cbn [batch_sampler]. destruct (_ =? bs)%nat; [eauto|].
    apply IH. destruct batch; discriminate.
Qed.

Lemma loader_iter_first (ds : tensor) (n bs : Z) (g : generator) :
  0 < n ->
  exists idx rest g',
    loader_iter (mkLoader ds n bs) g = (collate ds idx :: rest, g').
Proof.
  intros Hn. unfold loader_iter. cbn [ld_len ld_dataset ld_batch_size].
  pose proof (randperm_length g (Z.to_nat n)) as Hlen.
  destruct (randperm g (Z.to_nat n)) as [perm g']. cbn [fst] in Hlen.
  destruct (@batch_sampler_nonempty (Z.to_nat bs) perm []) as (b & rest & Hb).
  { cbn [app]. destruct perm; [simpl in Hlen; lia | discriminate]. }
  rewrite Hb. cbn [map]. eauto.
Qed.

Lemma range_pos (k : Z) : 1 <= k -> exists rest, range k = 0 :: rest.
Proof.
  intros Hk. unfold range.
  destruct (Z.to_nat k) as [|m] eqn:E; [lia|].
  cbn [seq map]. eauto.
Qed.

(** X9.  When the global [DEVICE] and the [device] argument differ, a call
    with at least one epoch on a data set of at least one example, with a
    seed and buffer lengths the library accepts, stops at the forward pass
    of its first batch with [RuntimeError]: the model has been moved
    to [DEVICE], no parameter has been updated and nothing has been printed
    but the line of the progress bar. *)
Theorem train_autoencoder_device_mismatch
        (G : globals) (dataset : tensor) (dev : device)
        (val_dataset : option tensor) (epochs batch_size seed : Z)
        (w : world) (D : device) (n : Z) (rest : list Z)
        (l : Linear) (layers : list layer) :
  DEVICE G = Some D -> D <> dev ->
  t_size dataset = n :: rest -> 0 < n ->
  0 < batch_size -> 1 <= epochs < 2 ^ 61 ->
  epochs * n / batch_size < 2 ^ 61 ->
  - 2 ^ 63 <= seed < 2 ^ 64 ->
  enc_model (net w) = LinearLayer l :: layers ->
  train_autoencoder G dataset dev val_dataset epochs batch_size seed w
  = (mkWorld (stdout w ++ [trange_line epochs]) (AE_to (net w) D),
     Raise RuntimeError).
Proof.
  intros HD Hne Hsz Hn Hbs Hep HN Hseed Henc.
  assert (Hlen : tensor_len dataset = Ok n)
    by (unfold tensor_len; rewrite Hsz; reflexivity).
  destruct (@setup_ok _ _ G dataset dev val_dataset epochs batch_size seed w D n
                      HD Hlen Hn Hbs ltac:(lia) HN Hseed) as (loc0 & Hsetup).
  unfold train_autoencoder.
  erewrite bind_ok by exact Hsetup. cbv beta iota.
  erewrite bind_raise; [reflexivity|].
  rewrite run_epochs_eq. unfold epochs_loop.
  destruct (range_pos (proj1 Hep)) as (es & ->).
  cbn [for_each].
  erewrite bind_raise; [reflexivity|].
  unfold epoch_body.
  destruct (@loader_iter_first dataset n batch_size (g_seed loc0) Hn)
    as (idx & bs & g' & ->).
  erewrite bind_raise; [reflexivity|].
  cbn [for_each].
  erewrite bind_raise; [reflexivity|].
  unfold batch_step.
  erewrite bind_ok by reflexivity.
  erewrite bind_raise; [reflexivity|].
  unfold lift. f_equal. f_equal. cbn [net].
  eapply forward_wrong_device with (l := mkLinear (in_features l) (out_features l)
                                                  (weight l) (bias l) D).
  - rewrite tensor_to_size. reflexivity.
  - unfold AE_to. cbn [enc_model]. rewrite Henc. reflexivity.
  - rewrite tensor_to_device. cbn. congruence.
Qed.

(** X10.  With [DEVICE] bound, the arguments in the order the driver checks
    them.  A seed that is neither a signed nor an unsigned 64-bit integer
    is refused with [RuntimeError].  With a seed that is: a
    zero-dimensional data set is refused with [TypeError], an empty one and
    a batch size that is not positive with [ValueError]; a length
    [epochs * len(dataset) // batch_size] of the per-step buffer that is no
    machine integer with [TypeError], one that is negative (a negative
    number of epochs) or has [2 ^ 61] elements or more with
    [RuntimeError]; and then the same for the number of epochs, the length
    of the histories.  Each time the model has already been moved to
    [DEVICE], and nothing has been printed. *)
Theorem train_autoencoder_rejects
        (G : globals) (dataset : tensor) (dev : device)
        (val_dataset : option tensor) (epochs batch_size seed : Z)
        (w : world) (D : device) :
  DEVICE G = Some D ->
  let call := train_autoencoder G dataset dev val_dataset epochs batch_size seed w in
  let moved := mkWorld (stdout w) (AE_to (net w) D) in
  (seed < - 2 ^ 63 \/ 2 ^ 64 <= seed -> call = (moved, Raise RuntimeError)) /\
  (- 2 ^ 63 <= seed < 2 ^ 64 ->
   (t_size dataset = [] -> call = (moved, Raise TypeError)) /\
   (forall n rest, t_size dataset = n :: rest ->
      (n <= 0 -> call = (moved, Raise ValueError)) /\
      (0 < n -> batch_size <= 0 -> call = (moved, Raise ValueError)) /\
      (0 < n -> 0 < batch_size ->
       epochs * n / batch_size < - 2 ^ 63 \/ 2 ^ 63 <= epochs * n / batch_size ->
       call = (moved, Raise TypeError)) /\
      (0 < n -> 0 < batch_size ->
       - 2 ^ 63 <= epochs * n / batch_size < 0 \/
       2 ^ 61 <= epochs * n / batch_size < 2 ^ 63 ->
       call = (moved, Raise RuntimeError)) /\
      (0 < n -> 0 < batch_size -> 0 <= epochs * n / batch_size < 2 ^ 61 ->
       (2 ^ 63 <= epochs -> call = (moved, Raise TypeError)) /\
       (2 ^ 61 <= epochs < 2 ^ 63 -> call = (moved, Raise RuntimeError))))).
Proof.
  intros HD call moved.
  assert (Hhead :
             setup G dataset dev val_dataset epochs batch_size seed w
             = bind (lift (seed_generator seed))
                    (fun g_seed =>
                       loader <- lift (DataLoader dataset batch_size) ;;
                       n' <- lift (tensor_len dataset) ;;
                       mse_loss <- lift (zeros (epochs * n' / batch_size) dev) ;;
                       full_mse_loss <- lift (zeros epochs dev) ;;
                       full_val_loss <- match val_dataset with
                                        | Some _ => t <- lift (zeros epochs dev) ;;
                                                    ret (Some t)
                                        | None => ret None
                                        end ;;
                       ret (loader,
                            mkLocals (Adam (AE_to (net w) D)) g_seed
                                     mse_loss full_mse_loss full_val_loss 0))
                    moved).
  { unfold setup.
    erewrite bind_ok by (unfold lift, read_DEVICE; rewrite HD; reflexivity).
    erewrite bind_ok by reflexivity.
    erewrite bind_ok by reflexivity.
    erewrite bind_ok by reflexivity.
    reflexivity. }
  assert (Hcall : forall e,
             setup G dataset dev val_dataset epochs batch_size seed w
             = (moved, Raise e) -> call = (moved, Raise e)).
  { intros e He. unfold call, train_autoencoder.
    erewrite bind_raise; [reflexivity | exact He]. }
  split.
  - intros Hseed. apply Hcall. rewrite Hhead.
    erewrite bind_raise; [reflexivity|].
    unfold lift, seed_generator.
    replace ((seed <? - 2 ^ 63) || (2 ^ 64 <=? seed)) with true; [reflexivity|].
    symmetry. apply orb_true_iff.
    destruct Hseed; [left; apply Z.ltb_lt | right; apply Z.leb_le]; assumption.
  - intros Hseed.
    assert (Hgen : lift (seed_generator seed) moved
                   = (moved, Ok (manual_seed seed))).
    { unfold lift, seed_generator.
      replace (seed <? - 2 ^ 63) with false by (symmetry; apply Z.ltb_ge; lia).
      replace (2 ^ 64 <=? seed) with false by (symmetry; apply Z.leb_gt; lia).
      reflexivity. }
    assert (Hraise : forall e, DataLoader dataset batch_size = Raise e ->
                               call = (moved, Raise e)).
    { intros e He. apply Hcall. rewrite Hhead.
      erewrite bind_ok by exact Hgen.
      erewrite bind_raise; [reflexivity|]. unfold lift. rewrite He. reflexivity. }
    assert (Hlate : forall n rest e,
               t_size dataset = n :: rest -> 0 < n -> 0 < batch_size ->
               (mse_loss <- lift (zeros (epochs * n / batch_size) dev) ;;
                full_mse_loss <- lift (zeros epochs dev) ;;
                full_val_loss <- match val_dataset with
                                 | Some _ => t <- lift (zeros epochs dev) ;;
                                             ret (Some t)
                                 | None => ret None
                                 end ;;
                ret (mkLoader dataset n batch_size,
                     mkLocals (Adam (AE_to (net w) D)) (manual_seed seed)
                              mse_loss full_mse_loss full_val_loss 0)) moved
               = (moved, Raise e) ->
               call = (moved, Raise e)).
    { intros n rest e Hsz Hn Hbs H. apply Hcall. rewrite Hhead.
      erewrite bind_ok by exact Hgen.
      erewrite bind_ok.
      2:{ unfold lift, DataLoader, tensor_len. rewrite Hsz. cbn [rbind].
          replace (n <=? 0) with false by (symmetry; apply Z.leb_gt; lia).
          replace (batch_size <=? 0) with false by (symmetry; apply Z.leb_gt; lia).
          reflexivity. }
      erewrite bind_ok by (unfold lift, tensor_len; rewrite Hsz; reflexivity).
      exact H. }
    split.
    + intros Hsz. apply Hraise. unfold DataLoader, tensor_len. rewrite Hsz.
      reflexivity.
    + intros n rest Hsz. split; [|split; [|split; [|split]]].
      * intros Hn. apply Hraise. unfold DataLoader, tensor_len. rewrite Hsz.
        cbn [rbind].
        replace (n <=? 0) with true by (symmetry; apply Z.leb_le; lia).
        reflexivity.
      * intros Hn Hbs. apply Hraise. unfold DataLoader, tensor_len. rewrite Hsz.
        cbn [rbind].
        replace (n <=? 0) with false by (symmetry; apply Z.leb_gt; lia).
        replace (batch_size <=? 0) with true by (symmetry; apply Z.leb_le; lia).
        reflexivity.
      * intros Hn Hbs HN. apply (Hlate n rest); try assumption.
        erewrite bind_raise; [reflexivity|].
        unfold lift. rewrite (proj1 (zeros_raise _ dev)) by exact HN.
        reflexivity.
      * intros Hn Hbs HN. apply (Hlate n rest); try assumption.
        erewrite bind_raise; [reflexivity|].
        unfold lift. rewrite (proj2 (zeros_raise _ dev)) by exact HN.
        reflexivity.
      * intros Hn Hbs HN. split; intros Hep; apply (Hlate n rest); try assumption.
        -- erewrite bind_ok
             by (unfold lift; rewrite (zeros_ok dev HN); reflexivity).
           erewrite bind_raise; [reflexivity|].
           unfold lift. rewrite (proj1 (zeros_raise _ dev)) by (right; exact Hep).
           reflexivity.
        -- erewrite bind_ok
             by (unfold lift; rewrite (zeros_ok dev HN); reflexivity).
           erewrite bind_raise; [reflexivity|].
           unfold lift. rewrite (proj2 (zeros_raise _ dev)) by (right; exact Hep).
           reflexivity.
Qed.

Lemma tensor_to_fresh (s : list Z) (d : list scalar) (dev dev' : device) :
  tensor_to (mkTensor s d dev) dev' = mkTensor s d dev'.
Proof.
  unfold tensor_to. cbn [t_device t_size t_stride t_data t_dtype].
  destruct (device_eqb dev dev') eqn:E.
  - apply device_eqb_eq in E. subst. reflexivity.
  - rewrite keep_layout_contiguous. reflexivity.
Qed.

(** X11.  With no epoch to run, and arguments the set-up accepts, the call
    returns at once: empty histories on the host (a validation history only
    when a validation set was given), nothing printed but the line of the
    progress bar, and the model as it was but for its parameters now being
    on the host. *)
Theorem train_autoencoder_no_epoch
        (G : globals) (dataset : tensor) (dev : device)
        (val_dataset : option tensor) (batch_size seed : Z)
        (w : world) (D : device) (n : Z) (rest : list Z) :
  DEVICE G = Some D ->
  t_size dataset = n :: rest -> 0 < n -> 0 < batch_size ->
  - 2 ^ 63 <= seed < 2 ^ 64 ->
  train_autoencoder G dataset dev val_dataset 0 batch_size seed w
  = (mkWorld (stdout w ++ [trange_line 0]) (AE_to (net w) cpu),
     Ok (no_history, option_map (fun _ => no_history) val_dataset)).
Proof.
  intros HD Hsz Hn Hbs Hseed.
  assert (Hlen : tensor_len dataset = Ok n)
    by (unfold tensor_len; rewrite Hsz; reflexivity).
  destruct (@setup_ok _ _ G dataset dev val_dataset 0 batch_size seed w D n
                      HD Hlen Hn Hbs ltac:(lia) ltac:(cbn; lia) Hseed)
    as (loc0 & Hsetup).
  destruct (setup_histories _ _ _ _ _ _ _ _ Hsetup) as [Hfml Hfvl].
  unfold train_autoencoder.
  erewrite bind_ok by exact Hsetup. cbv beta iota.
  erewrite bind_ok by reflexivity.
  erewrite bind_ok by reflexivity.
  erewrite bind_ok by reflexivity.
  cbn [net stdout]. rewrite AE_to_twice, Hfml, Hfvl, tensor_to_fresh.
  change (repeat s_zero (Z.to_nat 0)) with (@nil scalar). fold no_history.
  destruct val_dataset as [v|]; cbn [option_map].
  - erewrite bind_ok by reflexivity. rewrite tensor_to_fresh. reflexivity.
  - erewrite bind_ok by reflexivity. reflexivity.
Qed.

End EarlyExits.

(** ** One pass over the loader *)

Section LoaderProperties.

Context {SC : Scalar} {LB : Library}.

Lemma batch_sampler_concat (bs : nat) (sampler : list nat) :
  forall batch, concat (batch_sampler bs batch sampler) = batch ++ sampler.
Proof.
  induction sampler as [|idx rest IH]; intros batch; cbn [batch_sampler].
  - rewrite app_nil_r. destruct batch; [reflexivity|].
    cbn [concat]. apply app_nil_r.
  - destruct (_ =? bs)%nat.
    + cbn [concat]. rewrite IH, <- app_assoc. reflexivity.
    + rewrite IH, <- app_assoc. reflexivity.
Qed.

Lemma batch_sampler_sizes (bs : nat) (sampler : list nat) :
  forall batch,
    (length batch < bs)%nat ->
    Forall (fun b => (1 <= length b <= bs)%nat)
           (batch_sampler bs batch sampler) /\
    Forall (fun b => length b = bs)
           (removelast (batch_sampler bs batch sampler)).
Proof.
  induction sampler as [|idx rest IH]; intros batch Hlt; cbn [batch_sampler].
  - destruct batch as [|a batch'].
    + split; constructor.
    + split; [|constructor].
      constructor; [simpl length in *; lia | constructor].
  - destruct (Nat.eqb_spec (length (batch ++ [idx])) bs) as [E|E].
    + destruct (IH []) as [Hall Hfull]; [simpl; lia|].
      split; [constructor; [lia | exact Hall]|].
      cbn [removelast].
      destruct (batch_sampler bs [] rest) as [|b bs']; constructor; assumption.
    + apply IH. rewrite length_app in *. simpl length in *. lia.
Qed.

Lemma removelast_map {A B : Type} (f : A -> B) (l : list A) :
  removelast (map f l) = map f (removelast l).
Proof.
  induction l as [|a l IH]; [reflexivity|].
  cbn [map removelast]. destruct l as [|b l']; [reflexivity|].
  cbn [map] in *. rewrite IH. reflexivity.
Qed.

Lemma collate_data (ds : tensor) (batches : list (list nat)) :
  flat_map t_data (map (collate ds) batches)
  = flat_map (example_at ds) (concat batches).
Proof.
  induction batches as [|b rest IH]; [reflexivity|].
  cbn [map flat_map concat]. rewrite flat_map_app, IH. reflexivity.
Qed.

(** X12.  One pass over the loader the driver builds visits every example
    of the data set exactly once, in the generator's order: there are
    [ceil(n / batch_size)] batches, each of the data set's example shape,
    every batch but the last holds exactly [batch_size] examples, and the
    last holds between one and [batch_size]. *)
Theorem loader_pass_covers (dataset : tensor) (batch_size : Z)
        (ld : loader_t) (g : generator) :
  DataLoader dataset batch_size = Ok ld ->
  let batches := fst (loader_iter ld g) in
  exists n perm,
    tensor_len dataset = Ok n /\
    Permutation perm (seq 0 (Z.to_nat n)) /\
    flat_map t_data batches = flat_map (example_at dataset) perm /\
    Z.of_nat (length batches) = num_batches n batch_size /\
    Forall (fun b => t_size b = batch_size :: tl (t_size dataset))
           (removelast batches) /\
    Forall (fun b => exists m, t_size b = m :: tl (t_size dataset) /\
                               1 <= m <= batch_size)
           batches.
Proof.
  intros H batches. unfold DataLoader in H.
  destruct (tensor_len dataset) as [n|e] eqn:Hlen; [|discriminate H].
  cbn [rbind] in H.
  destruct (Z.leb_spec n 0) as [|Hn]; [discriminate H|].
  destruct (Z.leb_spec batch_size 0) as [|Hbs]; [discriminate H|].
  injection H as <-.
  exists n, (fst (randperm g (Z.to_nat n))).
  split; [reflexivity|]. split; [apply randperm_perm|].
  split; [|split].
  - unfold batches, loader_iter. cbn [ld_len ld_dataset ld_batch_size].
    destruct (randperm g (Z.to_nat n)) as [perm g']. cbn [fst].
    rewrite collate_data, batch_sampler_concat. reflexivity.
  - apply loader_iter_count; lia.
  - unfold batches, loader_iter. cbn [ld_len ld_dataset ld_batch_size].
    destruct (randperm g (Z.to_nat n)) as [perm g']. cbn [fst].
    destruct (@batch_sampler_sizes (Z.to_nat batch_size) perm [])
      as [Hall Hfull]; [simpl; lia|].
    split.
    + rewrite removelast_map. apply Forall_map.
      eapply Forall_impl; [|exact Hfull].
      intros b Hb. unfold collate, py_len. cbn [t_size]. rewrite Hb.
      f_equal. lia.
    + apply Forall_map. eapply Forall_impl; [|exact Hall].
      intros b Hb. cbv beta in Hb. exists (py_len b). unfold collate, py_len. cbn [t_size].
      split; [reflexivity | lia].
Qed.

End LoaderProperties.

(** ** The split of the script's data *)

Section SplitProperties.

Context {SC : Scalar} {LB : Library} {NM : Nmas}.

Lemma make_data_split :
  let '(_, _, _, _, _, x, split) := make_data in split = train_val_split x.
Proof.
  unfold make_data.
  destruct (nmas_set_seed 2021) as [[np0 tg0] out1].
  destruct nmas_set_device as [dv out2].
  destruct (np_choice np0 10000 10000) as [x_a np1].
  destruct (np_choice1 _ _) as [inx np2].
  reflexivity.
Qed.

Lemma minus_fifth (n : Z) : (- n) / 5 = - ((n + 4) / 5).
Proof. Z.to_euclidean_division_equations. lia. Qed.

Lemma slice_bound_fifth (n : Z) :
  0 <= n -> slice_bound n ((- n) / 5) = n - (n + 4) / 5.
Proof.
  intros Hn. rewrite minus_fifth. unfold slice_bound.
  destruct (Z.ltb_spec (- ((n + 4) / 5)) 0);
    Z.to_euclidean_division_equations; lia.
Qed.

(** X13.  The split [x[:-n//5]], [x[-n//5:]] of a tensor of [n] rows puts
    the last [ceil(n / 5)] rows in the validation part and the rows before
    them in the training part: the two parts are disjoint, in order, and
    together they are [x].  With fewer than two rows nothing is left for
    training. *)
Theorem train_val_split_partitions (x : tensor) (n : Z) (rest : list Z) :
  t_size x = n :: rest -> 0 <= n ->
  (length (t_data x) <= Z.to_nat n * Z.to_nat (prod_sizes rest))%nat ->
  exists x_tr x_val,
    train_val_split x = Ok (x_tr, x_val) /\
    t_size x_tr = (n - (n + 4) / 5) :: rest /\
    t_size x_val = (n + 4) / 5 :: rest /\
    t_data x_tr ++ t_data x_val = t_data x /\
    (n <= 1 -> t_size x_tr = 0 :: rest /\ t_data x_tr = []).
Proof.
  intros Hsz Hn Hlen.
  unfold train_val_split, size0, slice0. rewrite Hsz. cbn [rbind].
  rewrite slice_bound_fifth by exact Hn.
  set (c := (n + 4) / 5).
  assert (Hc : 0 <= c <= n /\ (n <= 1 -> c = n))
    by (unfold c; Z.to_euclidean_division_equations; lia).
  set (k := Z.to_nat (prod_sizes rest)) in *.
  eexists _, _. split; [reflexivity|]. cbn [t_size t_data].
  replace (Z.max 0 (n - c - 0)) with (n - c) by lia.
  replace (Z.max 0 (n - (n - c))) with c by lia.
  replace (Z.to_nat 0 * k)%nat with 0%nat by lia. cbn [skipn].
  split; [reflexivity|]. split; [reflexivity|]. split.
  - rewrite (firstn_all2 (n := (Z.to_nat c * k)%nat))
      by (rewrite length_skipn; nia).
    apply firstn_skipn.
  - intros H1. replace (n - c) with 0 by lia. split; reflexivity.
Qed.

End SplitProperties.

(** ** Validation only observes *)

Section ValidationFacts.

Context {SC : Scalar} {LB : Library}.

Variable dataset : tensor.
Variable dev : device.
Variable batch_size : Z.

(** Runs [body'] alongside a completed run of [body]. *)
Lemma for_each_alongside {X : Type} (body body' : locals -> X -> M world locals) :
  (forall loc loc' w w' x w1 loc1,
      body loc x w = (w1, Ok loc1) ->
      training_state loc' = training_state loc -> net w' = net w ->
      exists w1' loc1',
        body' loc' x w' = (w1', Ok loc1') /\
        training_state loc1' = training_state loc1 /\ net w1' = net w1) ->
  forall xs loc loc' w w' w1 loc1,
    for_each body xs loc w = (w1, Ok loc1) ->
    training_state loc' = training_state loc -> net w' = net w ->
    exists w1' loc1',
      for_each body' xs loc' w' = (w1', Ok loc1') /\
      training_state loc1' = training_state loc1 /\ net w1' = net w1.
Proof.
  intros Hbody. induction xs as [|x xs IH]; intros loc loc' w w' w1 loc1 H Hs Hn.
  - cbn [for_each] in *. unfold ret in *. injection H as <- <-. eauto.
  - cbn [for_each] in *.
    apply bind_ok_inv in H. destruct H as (loc2 & w2 & Hx & H).
    destruct (Hbody _ _ _ _ _ _ _ Hx Hs Hn) as (w2' & loc2' & Hx' & Hs2 & Hn2).
    erewrite bind_ok by exact Hx'.
    eapply IH; eassumption.
Qed.

Lemma batch_step_alongside (loc loc' : locals) (w w' : world) (b : tensor)
      (w1 : world) (loc1 : locals) :
  batch_step dev batch_size loc b w = (w1, Ok loc1) ->
  training_state loc' = training_state loc -> net w' = net w ->
  exists w1' loc1',
    batch_step dev batch_size loc' b w' = (w1', Ok loc1') /\
    training_state loc1' = training_state loc1 /\ net w1' = net w1.
Proof.
  intros H Hs Hn. unfold training_state in Hs.
  injection Hs as Eo Eg Em Ef Ei.
  unfold batch_step, bind, gets, lift, set_net, modify, ret in *.
  cbv zeta in *. rewrite Hn, Eo, Em, Ei.
  destruct (forward (net w) (tensor_to b dev)) as [rec|e]; [|discriminate H].
  destruct (view_rows rec batch_size) as [inp|e]; [|discriminate H].
  destruct (view_rows (tensor_to b dev) batch_size) as [tgt|e];
    [|discriminate H].
  destruct (loss_fn inp tgt) as [loss|e]; [|discriminate H].
  destruct (backward_step (optim loc) (net w) (tensor_to b dev)) as [o' ae'].
  destruct (setitem (mse_loss loc) (i loc) loss) as [m|e]; [|discriminate H].
  injection H as <- <-.
  eexists _, _. split; [reflexivity|].
  unfold training_state. cbn. rewrite Eg, Ef. auto.
Qed.

Lemma no_grad_block_alongside (v : tensor) (loc loc' : locals) (w w' : world)
      (epoch : Z) (w1 : world) (loc1 : locals) :
  no_grad_block dataset dev (Some v) loc epoch w = (w1, Ok loc1) ->
  training_state loc' = training_state loc -> net w' = net w ->
  exists loc1',
    no_grad_block dataset dev None loc' epoch w' = (w', Ok loc1') /\
    training_state loc1' = training_state loc1 /\ net w' = net w1.
Proof.
  intros H Hs Hn. unfold training_state in Hs.
  injection Hs as Eo Eg Em Ef Ei.
  unfold no_grad_block, bind, gets, lift, raise, ret in *.
  cbv zeta in *. rewrite Hn, Ef.
  destruct (forward (net w) (tensor_to dataset dev)) as [rec|e];
    [|discriminate H].
  destruct (size0 (tensor_to dataset dev)) as [n|e]; [|discriminate H].
  destruct (view rec [n; -1]) as [inp|e]; [|discriminate H].
  destruct (view (tensor_to dataset dev) [n; -1]) as [tgt|e]; [|discriminate H].
  destruct (loss_fn inp tgt) as [floss|e]; [|discriminate H].
  destruct (setitem (full_mse_loss loc) epoch floss) as [f|e]; [|discriminate H].
  destruct (forward (net w) (tensor_to v dev)) as [vrec|e]; [|discriminate H].
  destruct (size0 (tensor_to v dev)) as [m|e]; [|discriminate H].
  destruct (view vrec [m; -1]) as [vinp|e]; [|discriminate H].
  destruct (view (tensor_to v dev) [m; -1]) as [vtgt|e]; [|discriminate H].
  destruct (loss_fn vinp vtgt) as [vloss|e]; [|discriminate H].
  destruct (full_val_loss loc) as [fvl|]; [|discriminate H].
  destruct (setitem fvl epoch vloss) as [fvl'|e]; [|discriminate H].
  injection H as <- <-.
  eexists. split; [reflexivity|].
  unfold training_state. cbn. rewrite Eo, Eg, Em, Ei. auto.
Qed.

Lemma report_alongside (v : tensor) (loc loc' : locals) (w w' : world)
      (epoch : Z) (w1 : world) (u : unit) :
  report (Some v) loc epoch w = (w1, Ok u) ->
  training_state loc' = training_state loc -> net w' = net w ->
  exists w1', report None loc' epoch w' = (w1', Ok tt) /\ net w1' = net w1.
Proof.
  intros H Hs Hn. unfold training_state in Hs.
  injection Hs as Eo Eg Em Ef Ei.
  pose proof (report_keeps (Some v) loc epoch w) as Hk. rewrite H in Hk.
  cbn [fst] in Hk.
  unfold report, bind, lift, print, modify, ret in *. rewrite Ef.
  destruct (epoch mod 10 =? 0).
  - destruct (getitem (full_mse_loss loc) epoch) as [x|e]; [|discriminate H].
    eexists. split; [reflexivity|]. cbn [net].
    destruct (full_val_loss loc) as [fvl|]; [|discriminate H].
    destruct (getitem fvl epoch) as [y|e]; [|discriminate H].
    injection H as <- _. cbn [net]. exact Hn.
  - eexists. split; [reflexivity|]. injection H as <- _. exact Hn.
Qed.

Lemma epoch_body_alongside (v : tensor) (loader : loader_t)
      (loc loc' : locals) (w w' : world) (epoch : Z)
      (w1 : world) (loc1 : locals) :
  epoch_body dataset dev (Some v) batch_size loader loc epoch w = (w1, Ok loc1) ->
  training_state loc' = training_state loc -> net w' = net w ->
  exists w1' loc1',
    epoch_body dataset dev None batch_size loader loc' epoch w' = (w1', Ok loc1') /\
    training_state loc1' = training_state loc1 /\ net w1' = net w1.
Proof.
  intros H Hs Hn. unfold epoch_body in *.
  assert (Eg : g_seed loc' = g_seed loc)
    by (unfold training_state in Hs; congruence).
  rewrite Eg. destruct (loader_iter loader (g_seed loc)) as [batches g'].
  apply bind_ok_inv in H. destruct H as (loc2 & w2 & Hb & H).
  apply bind_ok_inv in H. destruct H as (loc3 & w3 & Hg & H).
  apply bind_ok_inv in H. destruct H as (u & w4 & Hr & H).
  unfold ret in H. injection H as <- <-.
  destruct (@for_each_alongside _ (batch_step dev batch_size)
              (batch_step dev batch_size)
              (fun l l' s s' x s1 l1 => @batch_step_alongside l l' s s' x s1 l1)
              batches
              (mkLocals (optim loc) g' (mse_loss loc) (full_mse_loss loc)
                        (full_val_loss loc) (i loc))
              (mkLocals (optim loc') g' (mse_loss loc') (full_mse_loss loc')
                        (full_val_loss loc') (i loc'))
              w w' w2 loc2 Hb)
    as (w2' & loc2' & Hb' & Hs2 & Hn2).
  { unfold training_state in *. cbn. congruence. }
  { exact Hn. }
  destruct (@no_grad_block_alongside v loc2 loc2' w2 w2' epoch w3 loc3 Hg Hs2 Hn2)
    as (loc3' & Hg' & Hs3 & Hn3).
  assert (Hw3 : w3 = w2).
  { pose proof (no_grad_block_silent dataset dev (Some v) loc2 epoch w2) as Hsil.
    rewrite Hg in Hsil. exact Hsil. }
  subst w3.
  destruct (@report_alongside v loc3 loc3' w2 w2' epoch w4 u Hr Hs3 Hn2)
    as (w4' & Hr' & Hn4).
  erewrite bind_ok by exact Hb'.
  erewrite bind_ok by exact Hg'.
  erewrite bind_ok by exact Hr'.
  eexists _, _. split; [reflexivity|]. auto.
Qed.

Lemma setup_alongside (G : globals) (v : tensor) (epochs seed : Z)
      (w w1 : world) (loader : loader_t) (loc0 : locals) :
  setup G dataset dev (Some v) epochs batch_size seed w = (w1, Ok (loader, loc0)) ->
  exists loc0',
    setup G dataset dev None epochs batch_size seed w = (w1, Ok (loader, loc0')) /\
    training_state loc0' = training_state loc0.
Proof.
  unfold setup. intros H.
  apply bind_ok_inv in H. destruct H as (D & s0 & H0 & H).
  erewrite bind_ok by exact H0.
  apply bind_ok_inv in H. destruct H as (ae & s1 & H1 & H).
  erewrite bind_ok by exact H1.
  apply bind_ok_inv in H. destruct H as (u & s2 & H2 & H).
  erewrite bind_ok by exact H2.
  apply bind_ok_inv in H. destruct H as (ae' & s3 & H3 & H).
  erewrite bind_ok by exact H3.
  apply bind_ok_inv in H. destruct H as (gs & sg & Hg & H).
  erewrite bind_ok by exact Hg.
  apply bind_ok_inv in H. destruct H as (ld & s4 & H4 & H).
  erewrite bind_ok by exact H4.
  apply bind_ok_inv in H. destruct H as (n & s5 & H5 & H).
  erewrite bind_ok by exact H5.
  apply bind_ok_inv in H. destruct H as (m & s6 & H6 & H).
  erewrite bind_ok by exact H6.
  apply bind_ok_inv in H. destruct H as (f & s7 & H7 & H).
  erewrite bind_ok by exact H7.
  apply bind_ok_inv in H. destruct H as (fv & s8 & H8 & H).
  apply bind_ok_inv in H8. destruct H8 as (t & s9 & H9 & H8).
  apply lift_ok_inv in H9. destruct H9 as [-> _].
  unfold ret in H8. injection H8 as <- _.
  unfold ret in H. injection H as <- <- <-.
  erewrite bind_ok by reflexivity.
  eexists. split; reflexivity.
Qed.

(** X14.  The validation set only observes.  When a call with a
    validation set returns, the same call without one returns too, with the
    same training history and the same trained model. *)
Theorem validation_only_observes
        (G : globals) (v : tensor) (epochs seed : Z)
        (w w1 : world) (tr : tensor) (val : option tensor) :
  train_autoencoder G dataset dev (Some v) epochs batch_size seed w
    = (w1, Ok (tr, val)) ->
  exists w2,
    train_autoencoder G dataset dev None epochs batch_size seed w
      = (w2, Ok (tr, None)) /\
    net w2 = net w1.
Proof.
  unfold train_autoencoder. intros H.
  apply bind_ok_inv in H. destruct H as ([loader loc0] & w0 & Hsetup & H).
  apply bind_ok_inv in H. destruct H as (locE & wE & Hrun & H).
  apply bind_ok_inv in H. destruct H as (ae & s1 & Hae & H).
  unfold gets in Hae. injection Hae as <- <-.
  apply bind_ok_inv in H. destruct H as (u & s2 & Hset & H).
  unfold set_net, modify in Hset. injection Hset as <-.
  apply bind_ok_inv in H. destruct H as (vm & s3 & Hvm & H).
  unfold ret in H. injection H as <- <- _.
  assert (Hs3 : s3 = mkWorld (stdout wE) (AE_to (net wE) cpu)).
  { destruct (full_val_loss locE); [|discriminate Hvm].
    unfold ret in Hvm. injection Hvm as <- _. reflexivity. }
  subst s3.
  destruct (@setup_alongside G v epochs seed w w0 loader loc0 Hsetup)
    as (loc0' & Hsetup' & Hs0).
  rewrite run_epochs_eq in Hrun. unfold epochs_loop in Hrun.
  destruct (@for_each_alongside _
              (epoch_body dataset dev (Some v) batch_size loader)
              (epoch_body dataset dev None batch_size loader)
              (fun l l' s s' x s1 l1 =>
                 @epoch_body_alongside v loader l l' s s' x s1 l1)
              (range epochs) loc0 loc0' _ _ wE locE Hrun Hs0 eq_refl)
    as (wE' & locE' & Hrun' & HsE & HnE).
  erewrite bind_ok by exact Hsetup'. cbv beta iota.
  erewrite bind_ok by (rewrite run_epochs_eq; exact Hrun').
  erewrite bind_ok by reflexivity.
  erewrite bind_ok by reflexivity.
  erewrite bind_ok by reflexivity.
  eexists. split.
  - unfold ret. f_equal. f_equal. f_equal.
    unfold training_state in HsE. congruence.
  - cbn [net]. rewrite HnE. reflexivity.
Qed.

End ValidationFacts.

(** * A small instance of the numerical library

    Integers for scalars, counters for generators, the reversed order for
    shuffling, and an optimiser step that adds one to every bias. *)

Module Concrete.

#[export] Instance ZScalar : Scalar := {|
  scalar := Z;
  s_zero := 0;
  s_add := Z.add;
  s_sub := Z.sub;
  s_mul := Z.mul;
  s_div := Z.div;
  s_max := Z.max;
  s_of_Z := fun z => z;
  keep_layout := fun _ st => st;
  keep_layout_contiguous := fun _ => eq_refl;
  keep_layout_length := fun _ _ H => H
|}.

Definition bump_layer (ly : layer) : layer :=
  match ly with
  | LinearLayer l =>
      LinearLayer (mkLinear (in_features l) (out_features l) (weight l)
                            (map (Z.add 1) (bias l)) (l_device l))
  | ReLU => ReLU
  end.

Definition bump (ae : AE) : AE :=
  mkAE (in_dim ae) (out_dim ae)
       (map bump_layer (enc_model ae)) (map bump_layer (dec_model ae)).

Definition fill_linear (g i o : Z) : (list (list Z) * list Z) * Z :=
  ((repeat (repeat g (Z.to_nat i)) (Z.to_nat o), repeat (g + 1) (Z.to_nat o)), g + 2).

Definition pick (g n size : Z) : list Z * Z :=
  (map (fun k => (g + k) mod n) (range size), g + size).

Definition show_tensor (t : tensor) : string :=
  String.concat ", " (map format_Z (t_data t)).

Lemma bump_signature (ae : AE) : signature (bump ae) = signature ae.
Proof.
  unfold signature, bump; simpl.
  rewrite !map_map.
  f_equal; [f_equal|]; apply map_ext; intros [l|]; reflexivity.
Qed.

Lemma rev_seq_perm (n : nat) : Permutation (rev (seq 0 n)) (seq 0 n).
Proof. symmetry. apply Permutation_rev. Qed.

Lemma pick_range (g n size : Z) :
  0 < n -> 0 <= size ->
  Z.of_nat (length (fst (pick g n size))) = size /\
  Forall (fun a => 0 <= a < n) (fst (pick g n size)).
Proof.
  intros Hn Hs. unfold pick, range; simpl. split.
  - rewrite !length_map, length_seq. lia.
  - apply Forall_forall. intros a Ha.
    apply in_map_iff in Ha. destruct Ha as [k [<- _]].
    apply Z.mod_pos_bound. exact Hn.
Qed.

#[export] Instance ZLibrary : Library := {|
  torch_rng := Z;
  init_linear := fill_linear;
  generator := Z;
  manual_seed := fun s => s;
  randperm := fun g n => (rev (seq 0 n), g + 1);
  randperm_perm := fun _ n => rev_seq_perm n;
  optim_state := Z;
  Adam := fun _ => 0;
  backward_step := fun o ae _ => (o + 1, bump ae);
  backward_step_signature := fun _ ae _ => bump_signature ae;
  np_rng := Z;
  np_choice := pick;
  np_choice_range := pick_range;
  np_choice1 := fun g n => (g mod n, g + 1);
  format_scalar := format_Z;
  format_tensor := show_tensor;
  trange_line := fun n => ("Epoch: 0/" ++ format_Z n)%string
|}.

#[export] Instance ZNmas : Nmas := {|
  nmas_set_seed := fun s => (s, s, ["Random seed has been set."%string]);
  nmas_set_device := (cpu, ["Using the host processor."%string])
|}.

(** The autoencoder of the script, [AE(3, 1, [5], [5])], from generator
    state 7. *)
Definition small_ae : AE :=
  match AE_init 3 1 [5] [5] 7 with
  | (_, Ok ae) => ae
  | (_, Raise _) => mkAE 0 0 [] []
  end.

(** Four examples of three features. *)
Definition small_data : tensor :=
  mkTensor [4; 3] [0; 1; 2; 4; 5; 6; 1; 2; 3; 7; 8; 9] cpu.

(** Three examples of two features. *)
Definition odd_data : tensor :=
  mkTensor [3; 2] [0; 1; 2; 3; 4; 5] cpu.

(** No example at all, three features wide. *)
Definition empty_data : tensor := mkTensor [0; 3] [] cpu.


(** The four examples of [small_data] as 64-bit integers. *)
Definition integer_data : tensor :=
  mkStrided [4; 3] [3; 1] [0; 1; 2; 4; 5; 6; 1; 2; 3; 7; 8; 9] int64 cpu.

(** Two examples of two by three features, the last two dimensions
    exchanged in memory: what [transpose(1, 2)] makes of a contiguous
    tensor of size [(2, 3, 2)]. *)
Definition transposed_data : tensor :=
  mkStrided [2; 2; 3] [6; 1; 2] [0; 2; 4; 1; 3; 5; 6; 8; 10; 7; 9; 11]
            float32 cpu.

(** Two examples of three features, the two dimensions exchanged in
    memory: what [t()] makes of a contiguous matrix of size [(3, 2)]. *)
Definition turned_data : tensor :=
  mkStrided [2; 3] [1; 2] [0; 2; 4; 1; 3; 5] float32 cpu.

(** [AE(6, 1, [5], [5])], for [transposed_data]. *)
Definition grid_ae : AE :=
  match AE_init 6 1 [5] [5] 7 with
  | (_, Ok ae) => ae
  | (_, Raise _) => mkAE 0 0 [] []
  end.

(** [AE(2, 1, [5], [5])], for [odd_data]. *)
Definition pair_ae : AE :=
  match AE_init 2 1 [5] [5] 7 with
  | (_, Ok ae) => ae
  | (_, Raise _) => mkAE 0 0 [] []
  end.

(** A process that has printed nothing and holds the given model. *)
Definition fresh (ae : AE) : world := mkWorld [] ae.

(** The module-level names when [DEVICE] is the host processor. *)
Definition on_cpu : globals := mkGlobals (Some cpu).


(** Eleven epochs over [small_data] in batches of two, evaluated. *)
Definition long_run : world * result (tensor * option tensor) :=
  Eval vm_compute in
    train_autoencoder on_cpu small_data cpu None 11 2 0 (fresh small_ae).

(** The module-level names when [DEVICE] is the accelerator. *)
Definition on_cuda : globals := mkGlobals (Some cuda).

(** Whether a computation ran to its end. *)
Definition succeeded {S A : Type} (r : S * result A) : bool :=
  match snd r with
  | Ok _ => true
  | Raise _ => false
  end.

(** Whether a stack of layers starts with an affine layer. *)
Definition starts_affine (layers : list layer) : bool :=
  match layers with
  | LinearLayer _ :: _ => true
  | _ => false
  end.

End Concrete.

(** * The claims on concrete runs *)

Import Concrete.

(** Witness of C1: four examples of three features. *)
Lemma forward_keeps_size_witness :
  (model_ok small_ae (t_device small_data) = true /\
   t_dtype small_data = float32 /\ contiguous small_data /\
   t_size small_data = [4; 3] /\ 0 < 4 /\ prod_sizes [3] = in_dim small_ae) /\
  exists y, forward small_ae small_data = Ok y /\ t_size y = t_size small_data.
Proof.
  split.
  - repeat split; vm_compute; reflexivity.
  - apply (@forward_keeps_size ZScalar small_ae small_data 4 [3]).
    + vm_compute; reflexivity.
    + reflexivity.
    + reflexivity.
    + reflexivity.
    + lia.
    + repeat constructor; lia.
    + reflexivity.
Defined.

(** Counterexample to C1 as first stated.  On a tensor of no examples the
    width of [view(0, -1)] cannot be inferred; on a tensor held by another
    device than the parameters, and on one of 64-bit integers, the first
    affine layer refuses its input; and a tensor of two examples of two by
    three features whose last two dimensions are exchanged in memory
    cannot be flattened by [view(2, -1)]. *)
Lemma forward_fails_without_examples :
  model_ok small_ae (t_device empty_data) = true /\
  t_size empty_data = [0; 3] /\
  prod_sizes [3] = in_dim small_ae /\
  forward small_ae empty_data = Raise RuntimeError /\
  forward small_ae (tensor_to small_data cuda) = Raise RuntimeError /\
  t_size integer_data = [4; 3] /\
  forward small_ae integer_data = Raise RuntimeError /\
  model_ok grid_ae (t_device transposed_data) = true /\
  t_size transposed_data = [2; 2; 3] /\
  prod_sizes [2; 3] = in_dim grid_ae /\
  view transposed_data [2; -1] = Raise RuntimeError /\
  forward grid_ae transposed_data = Raise RuntimeError.
Proof. repeat split; vm_compute; reflexivity. Qed.

(** Witness of C3: four examples in batches of two, for two epochs,
    validated on the same four examples. *)
Lemma train_autoencoder_histories_witness :
  exists w' tr val,
    train_autoencoder on_cpu small_data cpu (Some small_data) 2 2 0 (fresh small_ae)
      = (w', Ok (tr, val)) /\
    histories_ok on_cpu small_data cpu (Some small_data) 2 2 0 (fresh small_ae)
                 tr val.
Proof.
  assert (Hdata : data_ok (in_dim (net (fresh small_ae))) small_data).
  { exists 4, [3]. split; [reflexivity|]. split; [lia|].
    split; [repeat constructor; lia|]. repeat split. }
  destruct (proj1 (@train_autoencoder_histories ZScalar ZLibrary on_cpu small_data
                     cpu (Some small_data) 2 2 0 (fresh small_ae)) cpu)
    as (w' & tr & val & H).
  - reflexivity.
  - vm_compute; reflexivity.
  - reflexivity.
  - exact Hdata.
  - exact Hdata.
  - lia.
  - lia.
  - lia.
  - exists 4, 2. repeat split; lia.
  - exists w', tr, val. split; [exact H|].
    exact (proj2 (@train_autoencoder_histories ZScalar ZLibrary on_cpu small_data
                    cpu (Some small_data) 2 2 0 (fresh small_ae)) w' tr val H).
Defined.



(** Witness of C5: [DEVICE] unbound, and [DEVICE] the accelerator while the
    [device] argument is the host. *)
Lemma train_autoencoder_uses_global_DEVICE_witness :
  train_autoencoder (mkGlobals None) small_data cpu None 2 2 0 (fresh small_ae)
    = (fresh small_ae, Raise NameError) /\
  net (fst (train_prefix (mkGlobals (Some cuda)) small_data cpu None 2 2 0 0
                         (fresh small_ae)))
    = AE_to small_ae cuda.
Proof.
  split.
  - apply (proj1 (@train_autoencoder_uses_global_DEVICE ZScalar ZLibrary
                    (mkGlobals None) small_data cpu None 2 2 0 (fresh small_ae))).
    reflexivity.
  - apply (proj2 (@train_autoencoder_uses_global_DEVICE ZScalar ZLibrary
                    (mkGlobals (Some cuda)) small_data cpu None 2 2 0
                    (fresh small_ae)) cuda).
    reflexivity.
Defined.

(** Witness of C6: [AE(3, 1, [5], [5])]. *)
Lemma AE_structure_witness :
  AE_init 3 1 [5] [5] 7 = (15, Ok small_ae) /\
  map layer_signature (enc_model small_ae)
    = [SigLinear 3 5 cpu; SigReLU; SigLinear 5 1 cpu] /\
  map layer_signature (dec_model small_ae)
    = [SigLinear 1 5 cpu; SigReLU; SigLinear 5 3 cpu].
Proof.
  assert (H : AE_init 3 1 [5] [5] 7 = (15, Ok small_ae))
    by (vm_compute; reflexivity).
  split; [exact H|].
  destruct (@AE_structure ZScalar ZLibrary 3 1 [5] [5] 7 15 small_ae H)
    as (_ & Henc & Hdec & _).
  split; [exact Henc | exact Hdec].
Defined.

(** Witness of C9: eleven epochs; after the line of the progress bar,
    lines for epochs 0 and 10 only. *)
Lemma train_autoencoder_progress_witness :
  train_autoencoder on_cpu small_data cpu None 11 2 0 (fresh small_ae) = long_run /\
  exists w' tr val,
    long_run = (w', Ok (tr, val)) /\
    stdout w' = [trange_line 11; train_line tr 0; train_line tr 10].
Proof.
  assert (Hrun : train_autoencoder on_cpu small_data cpu None 11 2 0
                                   (fresh small_ae) = long_run)
    by (vm_compute; reflexivity).
  split; [exact Hrun|].
  eexists _, _, _. split; [reflexivity|].
  unfold long_run in Hrun.
  destruct (@train_autoencoder_progress ZScalar ZLibrary on_cpu small_data cpu
              None 11 2 0 (fresh small_ae) _ _ _ Hrun) as (Hout & _).
  rewrite Hout. reflexivity.
Defined.

(** * The further properties on concrete runs *)

(** Witness of X3: [AE(3, 1, [5], [5])] on four examples, as 32-bit floats
    and as 64-bit integers. *)
Lemma encode_decode_sizes_witness :
  exists g' ae,
    AE_init 3 1 [5] [5] 7 = (g', Ok ae) /\
    (exists l y,
       encode ae small_data = Ok l /\ t_size l = [4; 1] /\ t_device l = cpu /\
       decode ae l = Ok y /\ t_size y = [4; 3] /\ t_device y = cpu) /\
    encode ae integer_data = Raise RuntimeError.
Proof.
  assert (Hok : succeeded (AE_init 3 1 [5] [5] 7) = true)
    by (vm_compute; reflexivity).
  destruct (@AE_init ZScalar ZLibrary 3 1 [5] [5] 7) as [g' [ae|e]] eqn:E;
    [|discriminate Hok].
  exists g', ae. split; [reflexivity|]. split.
  - apply (proj1 (@encode_decode_sizes ZScalar ZLibrary 3 1 [5] [5] 7 g' ae
                    small_data 4 E eq_refl eq_refl)).
    reflexivity.
  - apply (proj2 (@encode_decode_sizes ZScalar ZLibrary 3 1 [5] [5] 7 g' ae
                    integer_data 4 E eq_refl eq_refl)).
    discriminate.
Defined.

(** Witness of X4: two examples of three features read across a stored
    three-by-two matrix, and four contiguous examples. *)
Lemma forward_is_decode_encode_witness :
  (strided turned_data /\
   same_result (forward small_ae turned_data)
               (try h <- encode small_ae turned_data ;; decode small_ae h)) /\
  (contiguous small_data /\
   forward small_ae small_data
   = (try h <- encode small_ae small_data ;; decode small_ae h)).
Proof.
  split.
  - split; [reflexivity|].
    apply (@forward_is_decode_encode ZScalar small_ae turned_data 2);
      [vm_compute; reflexivity | vm_compute; reflexivity | lia
      | vm_compute; discriminate | reflexivity].
  - split; [reflexivity|].
    apply (@forward_is_decode_encode ZScalar small_ae small_data 4);
      [vm_compute; reflexivity | vm_compute; reflexivity | lia
      | vm_compute; discriminate | reflexivity].
Defined.

(** Witness of X6: the third of four examples. *)
Lemma forward_example_by_example_witness :
  params_wfb small_ae = true /\
  exists y yj,
    forward small_ae small_data = Ok y /\
    forward small_ae (collate small_data [2%nat]) = Ok yj /\
    t_size yj = [1; 3] /\
    t_data yj = example_at y 2.
Proof.
  assert (Hwf : params_wfb small_ae = true) by (vm_compute; reflexivity).
  split; [exact Hwf|].
  apply (@forward_example_by_example ZScalar small_ae small_data 4 [3] 2%nat).
  - vm_compute; reflexivity.
  - exact Hwf.
  - reflexivity.
  - reflexivity.
  - reflexivity.
  - lia.
  - repeat constructor; lia.
  - vm_compute; reflexivity.
  - vm_compute; reflexivity.
  - vm_compute; lia.
Defined.

(** Witness of X7: three examples in batches of two overrun the per-step
    buffer; the model stays on the accelerator, its layers as they were. *)
Lemma train_autoencoder_keeps_architecture_witness :
  snd (train_autoencoder on_cuda odd_data cuda None 1 2 0 (fresh pair_ae))
  = Raise IndexError /\
  signature
    (net (fst (train_autoencoder on_cuda odd_data cuda None 1 2 0 (fresh pair_ae))))
  = signature (AE_to pair_ae cuda).
Proof.
  assert (Hraise :
            snd (train_autoencoder on_cuda odd_data cuda None 1 2 0
                                   (fresh pair_ae)) = Raise IndexError)
    by (vm_compute; reflexivity).
  split; [exact Hraise|].
  pose proof (@train_autoencoder_keeps_architecture ZScalar ZLibrary on_cuda
                odd_data cuda None 1 2 0 (fresh pair_ae) cuda eq_refl) as H.
  destruct (train_autoencoder on_cuda odd_data cuda None 1 2 0 (fresh pair_ae))
    as [w' [r|e]]; [discriminate Hraise | exact H].
Defined.

(** Witness of X8: two epochs on the accelerator. *)
Lemma train_autoencoder_returns_on_host_witness :
  exists w' tr val,
    train_autoencoder on_cuda small_data cuda None 2 2 0 (fresh small_ae)
    = (w', Ok (tr, val)) /\
    t_device tr = cpu /\
    Forall (fun ly => forall l, ly = LinearLayer l -> l_device l = cpu)
           (enc_model (net w') ++ dec_model (net w')).
Proof.
  assert (Hok : succeeded (train_autoencoder on_cuda small_data cuda None 2 2 0
                                             (fresh small_ae)) = true)
    by (vm_compute; reflexivity).
  destruct (train_autoencoder on_cuda small_data cuda None 2 2 0 (fresh small_ae))
    as [w' [[tr val]|e]] eqn:Hrun; [|discriminate Hok].
  exists w', tr, val. split; [reflexivity|].
  destruct (@train_autoencoder_returns_on_host ZScalar ZLibrary on_cuda
              small_data cuda None 2 2 0 (fresh small_ae) w' tr val Hrun)
    as (Htr & _ & Hnet).
  split; [exact Htr | exact Hnet].
Defined.

(** Witness of X9: the model on the accelerator, the data on the host. *)
Lemma train_autoencoder_device_mismatch_witness :
  train_autoencoder on_cuda small_data cpu None 2 2 0 (fresh small_ae)
  = (mkWorld [trange_line 2] (AE_to small_ae cuda), Raise RuntimeError).
Proof.
  assert (Hfirst : starts_affine (enc_model small_ae) = true)
    by (vm_compute; reflexivity).
  destruct (enc_model small_ae) as [|[l|] layers] eqn:Henc;
    try discriminate Hfirst.
  apply (@train_autoencoder_device_mismatch ZScalar ZLibrary on_cuda small_data
           cpu None 2 2 0 (fresh small_ae) cuda 4 [3] l layers).
  - reflexivity.
  - discriminate.
  - reflexivity.
  - lia.
  - lia.
  - lia.
  - vm_compute; reflexivity.
  - lia.
  - exact Henc.
Defined.

(** Witness of X10: a seed of [2 ^ 64], a batch size of zero, and a
    negative number of epochs. *)
Lemma train_autoencoder_rejects_witness :
  train_autoencoder on_cuda small_data cpu None 2 2 (2 ^ 64) (fresh small_ae)
  = (mkWorld [] (AE_to small_ae cuda), Raise RuntimeError) /\
  train_autoencoder on_cuda small_data cpu None 2 0 0 (fresh small_ae)
  = (mkWorld [] (AE_to small_ae cuda), Raise ValueError) /\
  train_autoencoder on_cuda small_data cpu None (-1) 2 0 (fresh small_ae)
  = (mkWorld [] (AE_to small_ae cuda), Raise RuntimeError).
Proof.
  split; [|split].
  - pose proof (@train_autoencoder_rejects ZScalar ZLibrary on_cuda small_data
                  cpu None 2 2 (2 ^ 64) (fresh small_ae) cuda eq_refl) as H.
    cbv zeta in H. destruct H as [H _]. apply H. right. lia.
  - pose proof (@train_autoencoder_rejects ZScalar ZLibrary on_cuda small_data
                  cpu None 2 0 0 (fresh small_ae) cuda eq_refl) as H.
    cbv zeta in H. destruct H as [_ H].
    destruct (H ltac:(lia)) as [_ H'].
    destruct (H' 4 [3] eq_refl) as (_ & Hbs & _). apply Hbs; lia.
  - pose proof (@train_autoencoder_rejects ZScalar ZLibrary on_cuda small_data
                  cpu None (-1) 2 0 (fresh small_ae) cuda eq_refl) as H.
    cbv zeta in H. destruct H as [_ H].
    destruct (H ltac:(lia)) as [_ H'].
    destruct (H' 4 [3] eq_refl) as (_ & _ & _ & Hep & _).
    apply Hep; [lia | lia | left; change (-1 * 4 / 2) with (-2); lia].
Defined.

(** Witness of X11: no epoch, a device argument that is not [DEVICE], and
    a validation set the model would not accept. *)
Lemma train_autoencoder_no_epoch_witness :
  train_autoencoder on_cuda odd_data cpu (Some small_data) 0 2 0 (fresh pair_ae)
  = (mkWorld [trange_line 0] (AE_to pair_ae cpu),
     Ok (no_history, Some no_history)).
Proof.
  apply (@train_autoencoder_no_epoch ZScalar ZLibrary on_cuda odd_data cpu
           (Some small_data) 2 0 (fresh pair_ae) cuda 3 [2]);
    try reflexivity; lia.
Defined.

(** Witness of X12: three examples in batches of two. *)
Lemma loader_pass_covers_witness :
  DataLoader odd_data 2 = Ok (mkLoader odd_data 3 2) /\
  map t_size (fst (loader_iter (mkLoader odd_data 3 2) 0)) = [[2; 2]; [1; 2]] /\
  exists n perm,
    tensor_len odd_data = Ok n /\
    Permutation perm (seq 0 (Z.to_nat n)) /\
    flat_map t_data (fst (loader_iter (mkLoader odd_data 3 2) 0))
    = flat_map (example_at odd_data) perm.
Proof.
  split; [reflexivity|]. split; [vm_compute; reflexivity|].
  pose proof (@loader_pass_covers ZScalar ZLibrary odd_data 2
                (mkLoader odd_data 3 2) 0 eq_refl) as H.
  cbv zeta in H. destruct H as (n & perm & H1 & H2 & H3 & _).
  exists n, perm. auto.
Defined.

(** Witness of X13: of three rows, two for training and one for
    validation. *)
Lemma train_val_split_partitions_witness :
  train_val_split odd_data
  = Ok (mkTensor [2; 2] [0; 1; 2; 3] cpu, mkTensor [1; 2] [4; 5] cpu) /\
  exists x_tr x_val,
    train_val_split odd_data = Ok (x_tr, x_val) /\
    t_size x_tr = [2; 2] /\ t_size x_val = [1; 2] /\
    t_data x_tr ++ t_data x_val = t_data odd_data.
Proof.
  split; [vm_compute; reflexivity|].
  destruct (@train_val_split_partitions ZScalar odd_data 3 [2] eq_refl
              ltac:(lia) ltac:(vm_compute; lia))
    as (x_tr & x_val & H1 & H2 & H3 & H4 & _).
  exists x_tr, x_val. repeat split; assumption.
Defined.

(** Witness of X14: two epochs, validated on the training examples. *)
Lemma validation_only_observes_witness :
  exists w1 tr val w2,
    train_autoencoder on_cpu small_data cpu (Some small_data) 2 2 0 (fresh small_ae)
    = (w1, Ok (tr, val)) /\
    train_autoencoder on_cpu small_data cpu None 2 2 0 (fresh small_ae)
    = (w2, Ok (tr, None)) /\
    net w2 = net w1.
Proof.
  assert (Hok : succeeded (train_autoencoder on_cpu small_data cpu
                                             (Some small_data) 2 2 0
                                             (fresh small_ae)) = true)
    by (vm_compute; reflexivity).
  destruct (train_autoencoder on_cpu small_data cpu (Some small_data) 2 2 0
                              (fresh small_ae))
    as [w1 [[tr val]|e]] eqn:Hrun; [|discriminate Hok].
  destruct (@validation_only_observes ZScalar ZLibrary small_data cpu 2 on_cpu
              small_data 2 0 (fresh small_ae) w1 tr val Hrun)
    as (w2 & H1 & H2).
  exists w1, tr, val, w2. split; [reflexivity|].
  split; [exact H1 | exact H2].
Defined.
